(** * repo-guard: reconciliation engine, embedded and verified

    A shallow embedding of the parts of cloudoperators/repo-guard that
    decide operations and drive them against the forge:

    - [api/v1]: the status records, the change calculators of
      [GithubTeam] and [GithubOrganization];
    - [internal/github]: the provider wrappers [AddUser], [AddTeam], ...
      over the go-github services;
    - [internal/controller]: [parseGitHubRateLimitReset], the rate-limit
      gate, the operation loops and the status writes of the two
      reconcilers.

    Go strings are byte strings ([string]); the case functions of the Go
    [strings] package are modelled on the ASCII letters, which is what
    forge logins, team names and forge error messages consist of.  Time
    is a number of nanoseconds since the Unix epoch.  Maps that may be
    [nil] are [option (gmap string string)].  Effects (clock readings,
    forge requests, writes to the store) are threaded through a state
    monad over a [World]; what the outside answers is given by an [Env]
    of oracles that see the history of requests. *)

From stdpp Require Import gmap strings list.
From Stdlib Require Import ZArith Ascii String DecimalString.

#[local] Open Scope Z_scope.

(* ================================================================== *)
(** ** Go's [strings] package, on ASCII text *)

Module strings.

Definition isUpper (c : ascii) : bool :=
  let n := nat_of_ascii c in (65 <=? n)%nat && (n <=? 90)%nat.

Definition toLowerChar (c : ascii) : ascii :=
  if isUpper c then ascii_of_nat (nat_of_ascii c + 32) else c.

Fixpoint ToLower (s : string) : string :=
  match s with
  | EmptyString => EmptyString
  | String c r => String (toLowerChar c) (ToLower r)
  end.

(** [strings.EqualFold]: equality under simple case folding. *)
Definition EqualFold (a b : string) : bool :=
  String.eqb (ToLower a) (ToLower b).

Fixpoint HasPrefix (s p : string) : bool :=
  match p, s with
  | EmptyString, _ => true
  | String c p', String d s' => Ascii.eqb c d && HasPrefix s' p'
  | String _ _, EmptyString => false
  end.

Fixpoint Contains (s sub : string) : bool :=
  HasPrefix s sub ||
  match s with
  | EmptyString => false
  | String _ r => Contains r sub
  end.

(** White space as [strings.TrimSpace] sees it in ASCII text. *)
Definition isSpace (c : ascii) : bool :=
  let n := nat_of_ascii c in
  (n =? 32)%nat || ((9 <=? n)%nat && (n <=? 13)%nat).

Fixpoint TrimLeft (s : string) : string :=
  match s with
  | String c r => if isSpace c then TrimLeft r else s
  | EmptyString => EmptyString
  end.

Fixpoint TrimRight (s : string) : string :=
  match s with
  | EmptyString => EmptyString
  | String c r =>
      match TrimRight r with
      | EmptyString => if isSpace c then EmptyString else String c EmptyString
      | r' => String c r'
      end
  end.

Definition TrimSpace (s : string) : string := TrimRight (TrimLeft s).

(** [strings.Split s ","]: the fields between the separators, at
    least one field. *)
Fixpoint splitOn (sep : ascii) (s : string) (cur : string) : list string :=
  match s with
  | EmptyString => [cur]
  | String c r =>
      if Ascii.eqb c sep then cur :: splitOn sep r EmptyString
      else splitOn sep r (cur +:+ String c EmptyString)
  end.

Definition Split (s : string) (sep : ascii) : list string :=
  splitOn sep s EmptyString.

End strings.

(** [slices.Contains] on strings. *)
Definition slices_Contains (l : list string) (x : string) : bool :=
  existsb (String.eqb x) l.

(* ================================================================== *)
(** ** Time *)

(** [time.Time] and [metav1.Time]: nanoseconds since the Unix epoch, on
    the wall clock.  [time.Duration]: a 64-bit count of nanoseconds. *)
Definition Time := Z.
Definition Duration := Z.

(** The zero [time.Time], January 1 of year 1, 00:00 UTC. *)
Definition zeroTime : Time := -62135596800 * 1000000000.
Definition Time_IsZero (t : Time) : bool := t =? zeroTime.
Definition Time_After (t u : Time) : bool := u <? t.

Definition maxDuration : Duration := 2 ^ 63 - 1.
Definition minDuration : Duration := - 2 ^ 63.
Definition Hour : Duration := 3600 * 1000000000.
Definition Second : Duration := 1000000000.

(** [t.Sub(u)]: the difference, saturating at the ends of [Duration]. *)
Definition Time_Sub (t u : Time) : Duration :=
  if maxDuration <? t - u then maxDuration
  else if t - u <? minDuration then minDuration
  else t - u.

Definition Time_Add (t : Time) (d : Duration) : Time := t + d.

(* ================================================================== *)
(** ** The world outside the reconciler *)

(** Requests that reach the forge. *)
Inductive ForgeCall :=
| ListTeams
| ListTeamMembersBySlug (slug : string)
| CreateTeam (team : string)
| DeleteTeamBySlug (slug : string)
| AddTeamMembershipBySlug (slug user : string)
| RemoveTeamMembershipBySlug (slug user : string)
| ListOrgAdmins
| EditOrgMembership (user role : string)
| ListRepositories
| AddTeamRepoBySlug (team repo permission : string)
| RemoveTeamRepoBySlug (team repo : string).

(** Requests that change state on the forge. *)
Definition mutating (c : ForgeCall) : bool :=
  match c with
  | CreateTeam _ | DeleteTeamBySlug _
  | AddTeamMembershipBySlug _ _ | RemoveTeamMembershipBySlug _ _
  | EditOrgMembership _ _
  | AddTeamRepoBySlug _ _ _ | RemoveTeamRepoBySlug _ _ => true
  | _ => false
  end.

(** What a go-github service call hands back besides its payload:
    either an HTTP response, with its status code and possibly an error,
    or no response at all (a transport failure), with an error. *)
Inductive ServiceReply :=
| Response (StatusCode : Z) (err : option string)
| NoResponse (err : string).



(* ================================================================== *)
(** ** State passing *)

(** A computation over a state [S]: the clock position for the
    calculators of [api/v1], the whole [World] for the reconcilers. *)
Definition ST (S A : Type) : Type := S -> A * S.

Definition ret {S A} (a : A) : ST S A := fun s => (a, s).

Definition bind {S A B} (m : ST S A) (k : A -> ST S B) : ST S B :=
  fun s => let (a, s') := m s in k a s'.

Notation "x <- m ;; k" := (bind m (fun x => k))
  (at level 100, m at next level, right associativity).

(** A [for _, x := range l] loop that carries an accumulator. *)
Fixpoint forEach {S A B} (body : B -> A -> ST S B) (l : list A) (acc : B)
  : ST S B :=
  match l with
  | [] => ret acc
  | x :: r => acc' <- body acc x ;; forEach body r acc'
  end.

(** The clock: its [n]-th reading.  [metav1.Now()] and [time.Now()]
    take the next reading. *)
Definition Clock := nat -> Time.

Definition metav1_Now (clock : Clock) : ST nat Time :=
  fun n => (clock n, S n).

(* ================================================================== *)
(** ** api/v1: operations and members *)

Definition GithubUserOperationTypeAdd : string := "add".
Definition GithubUserOperationTypeRemove : string := "remove".

Definition GithubUserOperationStatePending : string := "pending".
Definition GithubUserOperationStateComplete : string := "complete".
Definition GithubUserOperationStateSkipped : string := "skipped".
Definition GithubUserOperationStateFailed : string := "failed".
Definition GithubUserOperationStateNotFound : string := "notfound".

Record Member := mkMember {
  GreenhouseID : string;
  GithubUsername : string;
}.

Module GithubUserOperation.
Record t := mk {
  Operation : string;
  User : string;
  State : string;
  Error : string;
  Timestamp : Time;
}.

(** [ops[i].State = s; ops[i].Timestamp = now], and with an error
    [ops[i].Error = e] as well. *)
Definition settle (op : t) (s : string) (e : option string) (now : Time) : t :=
  mk (Operation op) (User op) s (default (Error op) e) now.
End GithubUserOperation.

(* ================================================================== *)
(** ** api/v1/githubteam_types.go *)

Definition GithubTeamStatePendingOperations : string := "pending".
Definition GithubTeamStateFailed : string := "failed".
Definition GithubTeamStateComplete : string := "complete".
Definition GithubTeamStateDryRun : string := "dry-run".
Definition GithubTeamStateRateLimited : string := "ratelimited".

Module GithubTeam.
Import GithubUserOperation.

Record GithubTeamStatus := mkStatus {
  TeamStatus : string;
  TeamStatusError : string;
  TeamStatusTimestamp : Time;
  Operations : list GithubUserOperation.t;
  Members : list Member;
}.

(** The member source ([greenhouseTeam], [externalMemberProvider]) is
    read only by the part of the reconciler that resolves the desired
    members; what it resolves to is an input here. *)
Record GithubTeamSpec := mkSpec {
  Github : string;
  Organization : string;
  Team : string;
  GreenhouseTeam : string;
}.

Record t := mk {
  Labels : option (gmap string string);
  Spec : GithubTeamSpec;
  Status : GithubTeamStatus;
}.

Definition withOperations (s : GithubTeamStatus) (ops : list GithubUserOperation.t) :=
  mkStatus (TeamStatus s) (TeamStatusError s) (TeamStatusTimestamp s) ops (Members s).
Definition withTeamStatus (s : GithubTeamStatus) (st : string) (now : Time) :=
  mkStatus st (TeamStatusError s) now (Operations s) (Members s).
Definition withError (s : GithubTeamStatus) (e : string) :=
  mkStatus (TeamStatus s) e (TeamStatusTimestamp s) (Operations s) (Members s).
Definition withMembers (s : GithubTeamStatus) (m : list Member) :=
  mkStatus (TeamStatus s) (TeamStatusError s) (TeamStatusTimestamp s) (Operations s) m.
Definition withStatus (g : t) (s : GithubTeamStatus) := mk (Labels g) (Spec g) s.

(** [labels[key]] on a map that may be nil: the empty string when the
    key (or the map) is missing. *)
Definition label (g : t) (key : string) : string :=
  match Labels g with
  | Some m => default "" (m !! key)
  | None => ""
  end.

Definition buildUserOperationStateMap (operations : list GithubUserOperation.t)
  : gmap string string :=
  foldl (fun m op => <[strings.ToLower (User op) := State op]> m) ∅ operations.

Definition membersMap (members : list Member) : gmap string Member :=
  foldl (fun m x => <[strings.ToLower (GithubUsername x) := x]> m) ∅ members.

(** The inner search of [ChangeCalculator]: is there an operation of
    this kind for this user in one of the states that track it? *)
Definition operationExists (kind : string) (states : list string)
    (ops : list GithubUserOperation.t) (user : string) : bool :=
  existsb (fun op =>
    strings.EqualFold (User op) user &&
    String.eqb (Operation op) kind &&
    existsb (String.eqb (State op)) states) ops.

Definition addStates : list string :=
  [GithubUserOperationStatePending; GithubUserOperationStateComplete;
   GithubUserOperationStateSkipped; GithubUserOperationStateNotFound].

Definition removeStates : list string :=
  [GithubUserOperationStatePending; GithubUserOperationStateComplete;
   GithubUserOperationStateSkipped].

Section Calculator.
Context (clock : Clock).

Definition appendPending (kind user : string)
    (acc : list GithubUserOperation.t * bool)
  : ST nat (list GithubUserOperation.t * bool) :=
  now <- metav1_Now clock ;;
  ret (fst acc ++ [GithubUserOperation.mk kind user
                     GithubUserOperationStatePending "" now], true).

(** Body of the loop over the desired members. *)
Definition additionStep (currentMembersMap : gmap string Member)
    (userOpStateMap : gmap string string)
    (acc : list GithubUserOperation.t * bool) (desiredMember : Member)
  : ST nat (list GithubUserOperation.t * bool) :=
  let lowerGithubUsername := strings.ToLower (GithubUsername desiredMember) in
  if String.eqb (default "" (userOpStateMap !! lowerGithubUsername))
                GithubUserOperationStateNotFound
  then ret acc
  else match currentMembersMap !! lowerGithubUsername with
       | Some _ => ret acc
       | None =>
           if operationExists GithubUserOperationTypeAdd addStates
                (fst acc) (GithubUsername desiredMember)
           then ret acc
           else appendPending GithubUserOperationTypeAdd
                  (GithubUsername desiredMember) acc
       end.

(** Body of the loop over the current members. *)
Definition removalStep (desiredMembersMap : gmap string Member)
    (acc : list GithubUserOperation.t * bool) (currentMember : Member)
  : ST nat (list GithubUserOperation.t * bool) :=
  let lowerGithubUsername := strings.ToLower (GithubUsername currentMember) in
  match desiredMembersMap !! lowerGithubUsername with
  | Some _ => ret acc
  | None =>
      if operationExists GithubUserOperationTypeRemove removeStates
           (fst acc) (GithubUsername currentMember)
      then ret acc
      else appendPending GithubUserOperationTypeRemove
             (GithubUsername currentMember) acc
  end.

Definition ChangeCalculator (github : t) (desiredMembers : list Member)
  : ST nat (bool * GithubTeamStatus) :=
  let newStatus := Status github in
  let currentMembersMap := membersMap (Members (Status github)) in
  let userOpStateMap := buildUserOperationStateMap (Operations newStatus) in
  acc <- forEach (additionStep currentMembersMap userOpStateMap)
           desiredMembers (Operations newStatus, false) ;;
  let desiredMembersMap := membersMap desiredMembers in
  acc <- forEach (removalStep desiredMembersMap)
           (Members (Status github)) acc ;;
  let newStatus := withOperations newStatus (fst acc) in
  if snd acc
  then now <- metav1_Now clock ;;
       ret (true, withTeamStatus newStatus GithubTeamStatePendingOperations now)
  else ret (false, newStatus).
End Calculator.

Definition PendingOperationsFound (g : t) : bool :=
  existsb (fun op => String.eqb (State op) GithubUserOperationStatePending)
          (Operations (Status g)).

Definition FailedOperationsFound (g : t) : bool :=
  existsb (fun op => String.eqb (State op) GithubUserOperationStateFailed)
          (Operations (Status g)).
End GithubTeam.

(** *** The vocabulary of the team's diff

    Logins are compared without regard to case.  A user is among some
    members when one of them has the login; an operation tracks a user
    when it is of the given kind, for that login, in one of the given
    states; a user is marked not found when the latest operation
    recorded for the login, of whatever kind, is in that state. *)

Definition sameUser (a b : string) : Prop :=
  strings.ToLower a = strings.ToLower b.

Definition amongMembers (members : list Member) (user : string) : Prop :=
  exists m, m ∈ members /\ sameUser (GithubUsername m) user.

(** The same for plain names, as the teams of an organization are. *)
Definition amongNames (names : list string) (name : string) : Prop :=
  exists x, x ∈ names /\ sameUser x name.

Definition tracked (kind : string) (states : list string)
    (operations : list GithubUserOperation.t) (user : string) : Prop :=
  exists op, op ∈ operations /\
    sameUser (GithubUserOperation.User op) user /\
    GithubUserOperation.Operation op = kind /\
    GithubUserOperation.State op ∈ states.

Definition markedNotFound (operations : list GithubUserOperation.t)
    (user : string) : Prop :=
  exists before op after,
    operations = before ++ op :: after /\
    sameUser (GithubUserOperation.User op) user /\
    GithubUserOperation.State op = GithubUserOperationStateNotFound /\
    forall op', op' ∈ after -> ~ sameUser (GithubUserOperation.User op') user.

(** How many of the operations are of this kind for this user. *)
Definition queued (kind user : string) (operations : list GithubUserOperation.t)
  : nat :=
  List.length
    (List.filter (fun op =>
       String.eqb (GithubUserOperation.Operation op) kind &&
       strings.EqualFold (GithubUserOperation.User op) user) operations).

(** *** The shape of the two loops of [ChangeCalculator]

    Each loop passes over members; a member is skipped on a test of the
    login alone, or because an operation of the loop's kind already
    tracks the login; otherwise a pending operation is appended. *)

Definition diffStep (clock : Clock) (kind : string) (states : list string)
    (skip : string -> bool)
    (acc : list GithubUserOperation.t * bool) (member : Member)
  : ST nat (list GithubUserOperation.t * bool) :=
  if skip (GithubUsername member) then ret acc
  else if GithubTeam.operationExists kind states (fst acc) (GithubUsername member)
  then ret acc
  else GithubTeam.appendPending clock kind (GithubUsername member) acc.

Definition isSome {A} (o : option A) : bool :=
  match o with Some _ => true | None => false end.

(** The additions skip a login whose recorded state is "notfound" and
    a login that is a current member; the removals skip a login that is
    a desired member. *)
Definition skipAddition (currentMembersMap : gmap string Member)
    (userOpStateMap : gmap string string) (user : string) : bool :=
  String.eqb (default "" (userOpStateMap !! strings.ToLower user))
    GithubUserOperationStateNotFound
  || isSome (currentMembersMap !! strings.ToLower user).

Definition skipRemoval (desiredMembersMap : gmap string Member) (user : string)
  : bool :=
  isSome (desiredMembersMap !! strings.ToLower user).

(** Among the members passed so far, is there one with this login? *)
Definition passed (seen : list Member) (user : string) : bool :=
  existsb (fun d => strings.EqualFold (GithubUsername d) user) seen.

(** The operations a loop appends, and the logins for which it appends
    one: those it does not skip and that no operation of [base], the
    operations on which the loop starts, tracks. *)
Definition pendingOf (kind : string) (op : GithubUserOperation.t) : Prop :=
  GithubUserOperation.Operation op = kind /\
  GithubUserOperation.State op = GithubUserOperationStatePending /\
  GithubUserOperation.Error op = "".

Definition eligible (kind : string) (states : list string) (skip : string -> bool)
    (base : list GithubUserOperation.t) (user : string) : bool :=
  negb (skip user) && negb (GithubTeam.operationExists kind states base user).

(** What holds of the operations [new] a loop has appended once it has
    passed the members [seen]: one operation for each eligible login
    among them, none for any other login. *)
Definition loopInvariant (kind : string) (states : list string)
    (skip : string -> bool) (base : list GithubUserOperation.t)
    (seen : list Member) (new : list GithubUserOperation.t) : Prop :=
  Forall (pendingOf kind) new /\
  forall u, queued kind u new
            = if passed seen u && eligible kind states skip base u
              then 1%nat else 0%nat.

(* ================================================================== *)
(** ** api/v1: GithubTeamRepository and the organization's operations *)

Module GithubTeamWithPermission.
Record t := mk {
  Team : string;
  Permission : string;
}.
End GithubTeamWithPermission.

Module GithubRepository.
Record t := mk {
  Name : string;
  Teams : list GithubTeamWithPermission.t;
}.
End GithubRepository.

(** [GithubTeamWithPermissionListContentSame]: for each team of the
    first list the second list is scanned to its end; a team of the
    same name with another permission ends the comparison ([None],
    the [return false] inside the scan), otherwise the scan tells
    whether the name was found. *)
Fixpoint teamScan (g : GithubTeamWithPermission.t)
    (kubernetes : list GithubTeamWithPermission.t) (found : bool) : option bool :=
  match kubernetes with
  | [] => Some found
  | k :: rest =>
      if String.eqb (GithubTeamWithPermission.Team g) (GithubTeamWithPermission.Team k)
      then if negb (String.eqb (GithubTeamWithPermission.Permission g)
                      (GithubTeamWithPermission.Permission k))
           then None
           else teamScan g rest true
      else teamScan g rest found
  end.

Definition GithubTeamWithPermissionListContentSame
    (github kubernetes : list GithubTeamWithPermission.t) : bool :=
  if negb (List.length github =? List.length kubernetes)%nat then false
  else forallb (fun g => match teamScan g kubernetes false with
                         | Some found => found
                         | None => false
                         end) github.

(** [GithubRepositoryListEquals], of the same shape: a repository of
    the same name whose teams are not the same ends the comparison. *)
Fixpoint repositoryScan (g : GithubRepository.t)
    (kubernetes : list GithubRepository.t) (found : bool) : option bool :=
  match kubernetes with
  | [] => Some found
  | k :: rest =>
      if String.eqb (GithubRepository.Name g) (GithubRepository.Name k)
      then if negb (GithubTeamWithPermissionListContentSame
                      (GithubRepository.Teams g) (GithubRepository.Teams k))
           then None
           else repositoryScan g rest true
      else repositoryScan g rest found
  end.

Definition GithubRepositoryListEquals
    (github kubernetes : list GithubRepository.t) : bool :=
  if negb (List.length github =? List.length kubernetes)%nat then false
  else forallb (fun g => match repositoryScan g kubernetes false with
                         | Some found => found
                         | None => false
                         end) github.

(** [GithubTeamRepository.Spec]: an override that adds a team, with a
    permission, to the named repositories. *)
Module GithubTeamRepository.
Record t := mk {
  Github : string;
  Organization : string;
  Team : string;
  Repository : list string;
  Permission : string;
}.
End GithubTeamRepository.

Definition GithubRepoTeamOperationTypeAdd : string := "add".
Definition GithubRepoTeamOperationTypeRemove : string := "remove".
Definition GithubRepoTeamOperationStatePending : string := "pending".
Definition GithubRepoTeamOperationStateComplete : string := "complete".
Definition GithubRepoTeamOperationStateFailed : string := "failed".
Definition GithubRepoTeamOperationStateSkipped : string := "skipped".

Module GithubRepoTeamOperation.
Record t := mk {
  Operation : string;
  Repo : string;
  Team : string;
  Permission : string;
  State : string;
  Error : string;
  Timestamp : Time;
}.

Definition settle (op : t) (s : string) (e : option string) (now : Time) : t :=
  mk (Operation op) (Repo op) (Team op) (Permission op) s
     (default (Error op) e) now.
End GithubRepoTeamOperation.

Definition GithubTeamOperationTypeAdd : string := "add".
Definition GithubTeamOperationTypeRemove : string := "remove".
Definition GithubTeamOperationStatePending : string := "pending".
Definition GithubTeamOperationStateComplete : string := "complete".
Definition GithubTeamOperationStateSkipped : string := "skipped".
Definition GithubTeamOperationStateFailed : string := "failed".

Module GithubTeamOperation.
Record t := mk {
  Operation : string;
  Team : string;
  State : string;
  Error : string;
  Timestamp : Time;
}.

Definition settle (op : t) (s : string) (e : option string) (now : Time) : t :=
  mk (Operation op) (Team op) s (default (Error op) e) now.
End GithubTeamOperation.

(* ================================================================== *)
(** ** api/v1: GithubOrganization (githuborganization_types.go) *)

Definition GithubOrganizationStatePendingOperations : string := "pending".
Definition GithubOrganizationStateFailed : string := "failed".
Definition GithubOrganizationStateComplete : string := "complete".
Definition GithubOrganizationStateDryRun : string := "dry-run".
Definition GithubOrganizationStateRateLimited : string := "ratelimited".

Definition GITHUB_ORG_ANNOTATION_SKIP_DEFAULT_TEAM_REPOSITORY : string :=
  "githubguard.sap/skipDefaultRepositoryTeams".

Module GithubOrganization.

Record GithubOrganizationSpec := mkSpec {
  Github : string;
  Organization : string;
  OrganizationOwnerTeams : list string;
  DefaultPublicRepositoryTeams : list GithubTeamWithPermission.t;
  DefaultPrivateRepositoryTeams : list GithubTeamWithPermission.t;
  InstallationID : Z;
}.

Record GithubOrganizationStatusOperations := mkOperations {
  OrganizationOwnerOperations : list GithubUserOperation.t;
  GithubTeamOperations : list GithubTeamOperation.t;
  RepositoryTeamOperations : list GithubRepoTeamOperation.t;
}.

Record GithubOrganizationStatus := mkStatus {
  Teams : list string;
  PublicRepositories : list GithubRepository.t;
  PrivateRepositories : list GithubRepository.t;
  OrganizationOwners : list Member;
  OutOfPolicyRepositories : list string;
  OrganizationStatus : string;
  OrganizationStatusError : string;
  OrganizationStatusTimestamp : Time;
  Operations : GithubOrganizationStatusOperations;
}.

Record t := mk {
  Labels : option (gmap string string);
  Annotations : option (gmap string string);
  Spec : GithubOrganizationSpec;
  Status : GithubOrganizationStatus;
}.

Definition label (g : t) (key : string) : string :=
  match Labels g with
  | Some m => default "" (m !! key)
  | None => ""
  end.

Definition annotation (g : t) (key : string) : string :=
  match Annotations g with
  | Some m => default "" (m !! key)
  | None => ""
  end.

Definition withStatus (g : t) (s : GithubOrganizationStatus) : t :=
  mk (Labels g) (Annotations g) (Spec g) s.
Definition withLabels (g : t) (l : option (gmap string string)) : t :=
  mk l (Annotations g) (Spec g) (Status g).

(** Field updates of the status, named after the field they assign. *)
Definition setTeams (s : GithubOrganizationStatus) (v : list string) :=
  mkStatus v (PublicRepositories s) (PrivateRepositories s)
    (OrganizationOwners s) (OutOfPolicyRepositories s) (OrganizationStatus s)
    (OrganizationStatusError s) (OrganizationStatusTimestamp s) (Operations s).
Definition setRepositories (s : GithubOrganizationStatus)
    (pub priv : list GithubRepository.t) :=
  mkStatus (Teams s) pub priv
    (OrganizationOwners s) (OutOfPolicyRepositories s) (OrganizationStatus s)
    (OrganizationStatusError s) (OrganizationStatusTimestamp s) (Operations s).
Definition setOrganizationOwners (s : GithubOrganizationStatus) (v : list Member) :=
  mkStatus (Teams s) (PublicRepositories s) (PrivateRepositories s)
    v (OutOfPolicyRepositories s) (OrganizationStatus s)
    (OrganizationStatusError s) (OrganizationStatusTimestamp s) (Operations s).
Definition setOutOfPolicyRepositories (s : GithubOrganizationStatus)
    (v : list string) :=
  mkStatus (Teams s) (PublicRepositories s) (PrivateRepositories s)
    (OrganizationOwners s) v (OrganizationStatus s)
    (OrganizationStatusError s) (OrganizationStatusTimestamp s) (Operations s).
Definition setOrganizationStatus (s : GithubOrganizationStatus) (v : string) :=
  mkStatus (Teams s) (PublicRepositories s) (PrivateRepositories s)
    (OrganizationOwners s) (OutOfPolicyRepositories s) v
    (OrganizationStatusError s) (OrganizationStatusTimestamp s) (Operations s).
Definition setOrganizationStatusError (s : GithubOrganizationStatus) (v : string) :=
  mkStatus (Teams s) (PublicRepositories s) (PrivateRepositories s)
    (OrganizationOwners s) (OutOfPolicyRepositories s) (OrganizationStatus s)
    v (OrganizationStatusTimestamp s) (Operations s).
Definition setOrganizationStatusTimestamp (s : GithubOrganizationStatus) (v : Time) :=
  mkStatus (Teams s) (PublicRepositories s) (PrivateRepositories s)
    (OrganizationOwners s) (OutOfPolicyRepositories s) (OrganizationStatus s)
    (OrganizationStatusError s) v (Operations s).
Definition setOperations (s : GithubOrganizationStatus)
    (v : GithubOrganizationStatusOperations) :=
  mkStatus (Teams s) (PublicRepositories s) (PrivateRepositories s)
    (OrganizationOwners s) (OutOfPolicyRepositories s) (OrganizationStatus s)
    (OrganizationStatusError s) (OrganizationStatusTimestamp s) v.

Definition setOwnerOperations (s : GithubOrganizationStatus)
    (v : list GithubUserOperation.t) :=
  setOperations s (mkOperations v (GithubTeamOperations (Operations s))
                     (RepositoryTeamOperations (Operations s))).
Definition setTeamOperations (s : GithubOrganizationStatus)
    (v : list GithubTeamOperation.t) :=
  setOperations s (mkOperations (OrganizationOwnerOperations (Operations s)) v
                     (RepositoryTeamOperations (Operations s))).
Definition setRepositoryTeamOperations (s : GithubOrganizationStatus)
    (v : list GithubRepoTeamOperation.t) :=
  setOperations s (mkOperations (OrganizationOwnerOperations (Operations s))
                     (GithubTeamOperations (Operations s)) v).

(** [status = st; error = e; timestamp = now]. *)
Definition setState (s : GithubOrganizationStatus) (st e : string) (now : Time) :=
  setOrganizationStatusTimestamp
    (setOrganizationStatusError (setOrganizationStatus s st) e) now.

Section Calculators.
Context (clock : Clock).

(** The search for "a waiting task" in the change calculators of
    the organization: an operation of this kind for this name that
    is not complete. *)
Definition ownerOperationFound (ops : list GithubUserOperation.t)
    (user kind : string) : bool :=
  existsb (fun op =>
    strings.EqualFold (GithubUserOperation.User op) user &&
    String.eqb (GithubUserOperation.Operation op) kind &&
    negb (String.eqb (GithubUserOperation.State op)
                     GithubUserOperationStateComplete)) ops.

Definition appendOwnerOperation (kind user : string)
    (acc : list GithubUserOperation.t * bool)
  : ST nat (list GithubUserOperation.t * bool) :=
  now <- metav1_Now clock ;;
  ret (fst acc ++ [GithubUserOperation.mk kind user
                     GithubUserOperationStatePending "" now], true).

Definition OwnerChangeCalculator (g : t) (ownersFromKubernetes : list Member)
  : ST nat (bool * GithubOrganizationStatus) :=
  let newStatus := Status g in
  acc <- forEach (fun acc kubernetesOwner =>
           if existsb (fun githubOwner =>
                strings.EqualFold (GithubUsername githubOwner)
                                  (GithubUsername kubernetesOwner))
                (OrganizationOwners (Status g))
           then ret acc
           else if ownerOperationFound (fst acc)
                     (GithubUsername kubernetesOwner) GithubUserOperationTypeAdd
           then ret acc
           else appendOwnerOperation GithubUserOperationTypeAdd
                  (GithubUsername kubernetesOwner) acc)
         ownersFromKubernetes
         (OrganizationOwnerOperations (Operations newStatus), false) ;;
  acc <- forEach (fun acc githubOwner =>
           if existsb (fun kubernetesOwner =>
                strings.EqualFold (GithubUsername kubernetesOwner)
                                  (GithubUsername githubOwner))
                ownersFromKubernetes
           then ret acc
           else if ownerOperationFound (fst acc)
                     (GithubUsername githubOwner) GithubUserOperationTypeRemove
           then ret acc
           else appendOwnerOperation GithubUserOperationTypeRemove
                  (GithubUsername githubOwner) acc)
         (OrganizationOwners (Status g)) acc ;;
  let newStatus := setOwnerOperations newStatus (fst acc) in
  if snd acc
  then now <- metav1_Now clock ;;
       ret (true, setState newStatus GithubOrganizationStatePendingOperations "" now)
  else ret (false, newStatus).

Definition teamOperationFound (ops : list GithubTeamOperation.t)
    (team kind : string) : bool :=
  existsb (fun op =>
    strings.EqualFold (GithubTeamOperation.Team op) team &&
    String.eqb (GithubTeamOperation.Operation op) kind &&
    negb (String.eqb (GithubTeamOperation.State op)
                     GithubTeamOperationStateComplete)) ops.

Definition appendTeamOperation (kind team : string)
    (acc : list GithubTeamOperation.t * bool)
  : ST nat (list GithubTeamOperation.t * bool) :=
  now <- metav1_Now clock ;;
  ret (fst acc ++ [GithubTeamOperation.mk kind team
                     GithubTeamOperationStatePending "" now], true).

Definition TeamChangeCalculator (g : t) (teamsFromKubernetes : list string)
  : ST nat (bool * GithubOrganizationStatus) :=
  let newStatus := Status g in
  acc <- forEach (fun acc kubernetesTeam =>
           if existsb (fun k => strings.EqualFold k kubernetesTeam)
                (Teams (Status g))
           then ret acc
           else if teamOperationFound (fst acc) kubernetesTeam
                     GithubTeamOperationTypeAdd
           then ret acc
           else appendTeamOperation GithubTeamOperationTypeAdd kubernetesTeam acc)
         teamsFromKubernetes
         (GithubTeamOperations (Operations newStatus), false) ;;
  acc <- forEach (fun acc githubTeam =>
           if existsb (fun kubernetesTeam =>
                strings.EqualFold kubernetesTeam githubTeam)
                teamsFromKubernetes
           then ret acc
           else if teamOperationFound (fst acc) githubTeam
                     GithubTeamOperationTypeRemove
           then ret acc
           else appendTeamOperation GithubTeamOperationTypeRemove githubTeam acc)
         (Teams (Status g)) acc ;;
  let newStatus := setTeamOperations newStatus (fst acc) in
  if snd acc
  then now <- metav1_Now clock ;;
       ret (true, setState newStatus GithubOrganizationStatePendingOperations "" now)
  else ret (false, newStatus).

(** *** repoChangeCalculator *)

Definition repoTeamOperationFound (operations : list GithubRepoTeamOperation.t)
    (team repo kind : string) : bool :=
  existsb (fun op =>
    strings.EqualFold (GithubRepoTeamOperation.Team op) team &&
    String.eqb repo (GithubRepoTeamOperation.Repo op) &&
    String.eqb (GithubRepoTeamOperation.Operation op) kind &&
    negb (String.eqb (GithubRepoTeamOperation.State op)
                     GithubTeamOperationStateComplete)) operations.

Definition newRemove (team repo : string) (now : Time) :=
  GithubRepoTeamOperation.mk GithubRepoTeamOperationTypeRemove repo team ""
    GithubRepoTeamOperationStatePending "" now.

Definition newAdd (team repo permission : string) (now : Time) :=
  GithubRepoTeamOperation.mk GithubRepoTeamOperationTypeAdd repo team permission
    GithubRepoTeamOperationStatePending "" now.

(** "if there is no waiting task, add new task", for a removal. *)
Definition enqueueRemove (operations : list GithubRepoTeamOperation.t)
    (team repo : string) (newOperations : list GithubRepoTeamOperation.t)
  : ST nat (list GithubRepoTeamOperation.t) :=
  if repoTeamOperationFound operations team repo GithubRepoTeamOperationTypeRemove
  then ret newOperations
  else now <- metav1_Now clock ;; ret (newOperations ++ [newRemove team repo now]).

(** The same for an addition; [waiting] is the team name the search
    uses, [team] the one the operation gets. *)
Definition enqueueAdd (operations : list GithubRepoTeamOperation.t)
    (waiting team repo permission : string)
    (newOperations : list GithubRepoTeamOperation.t)
  : ST nat (list GithubRepoTeamOperation.t) :=
  if repoTeamOperationFound operations waiting repo GithubRepoTeamOperationTypeAdd
  then ret newOperations
  else now <- metav1_Now clock ;;
       ret (newOperations ++ [newAdd team repo permission now]).

(** "remove the team and add it with the config permission" *)
Definition replacePermission (operations : list GithubRepoTeamOperation.t)
    (repo : GithubRepository.t) (team configTeam : GithubTeamWithPermission.t)
    (newOperations : list GithubRepoTeamOperation.t)
  : ST nat (list GithubRepoTeamOperation.t) :=
  newOperations <- enqueueRemove operations (GithubTeamWithPermission.Team team) (GithubRepository.Name repo)
                     newOperations ;;
  enqueueAdd operations (GithubTeamWithPermission.Team team) (GithubTeamWithPermission.Team configTeam) (GithubRepository.Name repo)
    (GithubTeamWithPermission.Permission configTeam) newOperations.

(** The pair of a repository team and a configured team, as both
    loops treat it: the flag records that the names are equal. *)
Definition matchTeam (operations : list GithubRepoTeamOperation.t)
    (repo : GithubRepository.t) (team configTeam : GithubTeamWithPermission.t)
    (acc : list GithubRepoTeamOperation.t * bool)
  : ST nat (list GithubRepoTeamOperation.t * bool) :=
  if String.eqb (GithubTeamWithPermission.Team team) (GithubTeamWithPermission.Team configTeam)
  then if String.eqb (GithubTeamWithPermission.Permission team) (GithubTeamWithPermission.Permission configTeam)
       then ret (fst acc, true)
       else newOperations <- replacePermission operations repo team
                               configTeam (fst acc) ;;
            ret (newOperations, true)
  else ret acc.

Definition effectiveConfig (defaultConfig : list GithubTeamWithPermission.t)
    (exceptions : list GithubTeamRepository.t)
    (skipDefaultRepositoryTeams : list string) (repo : GithubRepository.t)
  : list GithubTeamWithPermission.t :=
  let base := if slices_Contains skipDefaultRepositoryTeams (GithubRepository.Name repo)
              then [] else defaultConfig in
  foldl (fun cfg exception =>
           if slices_Contains (GithubTeamRepository.Repository exception) (GithubRepository.Name repo)
           then cfg ++ [GithubTeamWithPermission.mk (GithubTeamRepository.Team exception)
                          (GithubTeamRepository.Permission exception)]
           else cfg)
        base exceptions.

Definition repoStep (defaultConfig : list GithubTeamWithPermission.t)
    (exceptions : list GithubTeamRepository.t)
    (skipDefaultRepositoryTeams : list string)
    (operations : list GithubRepoTeamOperation.t)
    (newOperations : list GithubRepoTeamOperation.t) (repo : GithubRepository.t)
  : ST nat (list GithubRepoTeamOperation.t) :=
  let configExtendedWithExceptions :=
    effectiveConfig defaultConfig exceptions skipDefaultRepositoryTeams repo in
  (* ensure that default teams are assigned *)
  newOperations <-
    forEach (fun newOperations configTeam =>
      acc <- forEach (fun acc team => matchTeam operations repo team configTeam acc)
               (GithubRepository.Teams repo) (newOperations, false) ;;
      if snd acc then ret (fst acc)
      else enqueueAdd operations (GithubTeamWithPermission.Team configTeam) (GithubTeamWithPermission.Team configTeam)
             (GithubRepository.Name repo) (GithubTeamWithPermission.Permission configTeam) (fst acc))
      configExtendedWithExceptions newOperations ;;
  (* iterate over the teams in the repo *)
  forEach (fun newOperations team =>
    acc <- forEach (fun acc configTeam => matchTeam operations repo team configTeam acc)
             configExtendedWithExceptions (newOperations, false) ;;
    if snd acc then ret (fst acc)
    else enqueueRemove operations (GithubTeamWithPermission.Team team) (GithubRepository.Name repo) (fst acc))
    (GithubRepository.Teams repo) newOperations.

Definition repoChangeCalculator (defaultConfig : list GithubTeamWithPermission.t)
    (actual : list GithubRepository.t)
    (exceptions : list GithubTeamRepository.t)
    (skipDefaultRepositoryTeams : list string)
    (operations : list GithubRepoTeamOperation.t)
  : ST nat (list GithubRepoTeamOperation.t) :=
  forEach (repoStep defaultConfig exceptions skipDefaultRepositoryTeams operations)
    actual [].

Definition RepoChangeCalculator (g : t) (exceptions : list GithubTeamRepository.t)
  : ST nat (bool * GithubOrganizationStatus) :=
  let newStatus := Status g in
  match DefaultPrivateRepositoryTeams (Spec g) with
  | [] =>
      now <- metav1_Now clock ;;
      ret (true, setState newStatus GithubOrganizationStateFailed
                   "DefaultPrivateRepositoryTeams is empty" now)
  | _ :: _ =>
  match DefaultPublicRepositoryTeams (Spec g) with
  | [] =>
      now <- metav1_Now clock ;;
      ret (true, setState newStatus GithubOrganizationStateFailed
                   "DefaultPublicRepositoryTeams is empty" now)
  | _ :: _ =>
      let skipList :=
        if String.eqb (annotation g GITHUB_ORG_ANNOTATION_SKIP_DEFAULT_TEAM_REPOSITORY) ""
        then []
        else strings.Split
               (annotation g GITHUB_ORG_ANNOTATION_SKIP_DEFAULT_TEAM_REPOSITORY) "," in
      privateRepoOperations <-
        repoChangeCalculator (DefaultPrivateRepositoryTeams (Spec g))
          (PrivateRepositories (Status g)) exceptions skipList
          (RepositoryTeamOperations (Operations (Status g))) ;;
      let newStatus :=
        setRepositoryTeamOperations newStatus
          (RepositoryTeamOperations (Operations newStatus) ++ privateRepoOperations) in
      publicRepoOperations <-
        repoChangeCalculator (DefaultPublicRepositoryTeams (Spec g))
          (PublicRepositories (Status g)) exceptions skipList
          (RepositoryTeamOperations (Operations (Status g))) ;;
      let newStatus :=
        setRepositoryTeamOperations newStatus
          (RepositoryTeamOperations (Operations newStatus) ++ publicRepoOperations) in
      if (0 <? List.length privateRepoOperations)%nat
         || (0 <? List.length publicRepoOperations)%nat
      then now <- metav1_Now clock ;;
           ret (true, setState newStatus
                        GithubOrganizationStatePendingOperations "" now)
      else ret (false, newStatus)
  end
  end.
End Calculators.

Definition PendingOperationsFound (g : t) : bool :=
  existsb (fun op => String.eqb (GithubUserOperation.State op)
                       GithubUserOperationStatePending)
    (OrganizationOwnerOperations (Operations (Status g)))
  || existsb (fun op => String.eqb (GithubRepoTeamOperation.State op)
                          GithubRepoTeamOperationStatePending)
       (RepositoryTeamOperations (Operations (Status g)))
  || existsb (fun op => String.eqb (GithubTeamOperation.State op)
                          GithubTeamOperationStatePending)
       (GithubTeamOperations (Operations (Status g))).

Definition FailedOperationsFound (g : t) : bool :=
  existsb (fun op => String.eqb (GithubUserOperation.State op)
                       GithubUserOperationStateFailed)
    (OrganizationOwnerOperations (Operations (Status g)))
  || existsb (fun op => String.eqb (GithubRepoTeamOperation.State op)
                          GithubRepoTeamOperationStateFailed)
       (RepositoryTeamOperations (Operations (Status g)))
  || existsb (fun op => String.eqb (GithubTeamOperation.State op)
                          GithubTeamOperationStateFailed)
       (GithubTeamOperations (Operations (Status g))).

(** [CleanCompletedOperations] and [CleanFailedOperations]: drop the
    operations in state [st] from the three queues; the flag tells
    whether any was dropped. *)
Definition cleanOperations (st : string) (g : t)
  : GithubOrganizationStatus * bool :=
  let ops := Operations (Status g) in
  let keepU := fun op => negb (String.eqb (GithubUserOperation.State op) st) in
  let keepR := fun op => negb (String.eqb (GithubRepoTeamOperation.State op) st) in
  let keepT := fun op => negb (String.eqb (GithubTeamOperation.State op) st) in
  let cleaned :=
    negb (forallb keepU (OrganizationOwnerOperations ops))
    || negb (forallb keepR (RepositoryTeamOperations ops))
    || negb (forallb keepT (GithubTeamOperations ops)) in
  (setOperations (Status g)
     (mkOperations (List.filter keepU (OrganizationOwnerOperations ops))
                   (List.filter keepT (GithubTeamOperations ops))
                   (List.filter keepR (RepositoryTeamOperations ops))),
   cleaned).

Definition CleanCompletedOperations : t -> GithubOrganizationStatus * bool :=
  cleanOperations GithubUserOperationStateComplete.

Definition CleanFailedOperations : t -> GithubOrganizationStatus * bool :=
  cleanOperations GithubUserOperationStateFailed.

End GithubOrganization.

(** *** What the repository calculator may enqueue

    For a repository and the configuration that holds for it: a
    pending addition of a configured team that the repository lacks or
    has with another permission, or a pending removal of a team of the
    repository that is not configured or is configured with another
    permission; in both cases only when no operation of that kind for
    the team and the repository, not yet complete, is among
    [operations]. *)
Definition policyOperation (operations : list GithubRepoTeamOperation.t)
    (config : list GithubTeamWithPermission.t) (repo : GithubRepository.t)
    (op : GithubRepoTeamOperation.t) : Prop :=
  GithubRepoTeamOperation.Repo op = GithubRepository.Name repo /\
  GithubRepoTeamOperation.State op = GithubRepoTeamOperationStatePending /\
  GithubRepoTeamOperation.Error op = EmptyString /\
  GithubOrganization.repoTeamOperationFound operations
    (GithubRepoTeamOperation.Team op) (GithubRepoTeamOperation.Repo op)
    (GithubRepoTeamOperation.Operation op) = false /\
  ((GithubRepoTeamOperation.Operation op = GithubRepoTeamOperationTypeAdd /\
    exists c, c ∈ config /\
      GithubRepoTeamOperation.Team op = GithubTeamWithPermission.Team c /\
      GithubRepoTeamOperation.Permission op = GithubTeamWithPermission.Permission c /\
      ((forall t, t ∈ GithubRepository.Teams repo ->
          GithubTeamWithPermission.Team t <> GithubTeamWithPermission.Team c) \/
       (exists t, t ∈ GithubRepository.Teams repo /\
          GithubTeamWithPermission.Team t = GithubTeamWithPermission.Team c /\
          GithubTeamWithPermission.Permission t
          <> GithubTeamWithPermission.Permission c)))
   \/
   (GithubRepoTeamOperation.Operation op = GithubRepoTeamOperationTypeRemove /\
    GithubRepoTeamOperation.Permission op = EmptyString /\
    exists t, t ∈ GithubRepository.Teams repo /\
      GithubRepoTeamOperation.Team op = GithubTeamWithPermission.Team t /\
      ((forall c, c ∈ config ->
          GithubTeamWithPermission.Team t <> GithubTeamWithPermission.Team c) \/
       (exists c, c ∈ config /\
          GithubTeamWithPermission.Team t = GithubTeamWithPermission.Team c /\
          GithubTeamWithPermission.Permission t
          <> GithubTeamWithPermission.Permission c)))).

(** The list of repositories left to their own teams, as
    [RepoChangeCalculator] reads it off the annotation. *)
Definition skipList (g : GithubOrganization.t) : list string :=
  if String.eqb (GithubOrganization.annotation g
                   GITHUB_ORG_ANNOTATION_SKIP_DEFAULT_TEAM_REPOSITORY) ""
  then []
  else strings.Split
         (GithubOrganization.annotation g
            GITHUB_ORG_ANNOTATION_SKIP_DEFAULT_TEAM_REPOSITORY) ",".


(* ================================================================== *)
(** ** The reconcilers' world *)

Record GithubMember := mkGithubMember {
  Login : string;
  UID : Z;
}.

(** Writes to the store: [Status().Update] of a team or an organization,
    and [Update] of the object itself (its labels). *)
Inductive StoreWrite :=
| TeamStatusUpdate (s : GithubTeam.GithubTeamStatus)
| TeamUpdate (labels : option (gmap string string))
| OrganizationStatusUpdate (s : GithubOrganization.GithubOrganizationStatus)
| OrganizationUpdate (labels : option (gmap string string)).

Record World := mkWorld {
  readings : nat;               (* clock readings taken so far *)
  requests : list ForgeCall;    (* forge requests so far, oldest first *)
  writes : list StoreWrite;     (* store writes so far, oldest first *)
}.

Definition initialWorld : World := mkWorld 0 [] [].

(** The world after one more request and one more reading of the clock,
    and after a reading alone. *)
Definition afterRequest (w : World) (c : ForgeCall) : World :=
  mkWorld (S (readings w)) (requests w ++ [c]) (writes w).
Definition afterReading (w : World) : World :=
  mkWorld (S (readings w)) (requests w) (writes w).


(** The outcome of a [Get] on the store. *)
Inductive GetReply (A : Type) :=
| Found (a : A)
| IsNotFound (e : string)
| GetFailed (e : string).
Arguments Found {A} a.
Arguments IsNotFound {A} e.
Arguments GetFailed {A} e.

(** [ctrl.Result] together with the error a reconcile returns. *)
Record Result := mkResult {
  Requeue : bool;
  RequeueAfter : Duration;
  error : option string;
}.

Definition done : Result := mkResult false 0 None.
Definition failure (e : string) : Result := mkResult false 0 (Some e).
Definition requeue : Result := mkResult true 0 None.
Definition requeueAfter (d : Duration) : Result := mkResult false d None.

(** What [OwnersFromGithubTeams] finds in the store. *)
Inductive OwnersReply :=
| Owners (l : list Member)
| RetryLater
| OwnersFailed (e : string).

(** Everything the reconcilers ask of their surroundings.  An oracle
    sees the world as it is when asked, so its answers may change as
    requests and writes accumulate. *)
Record Env := mkEnv {
  clock : Clock;
  (* libraries *)
  time_Parse : string -> string -> option Time;          (* layout, value *)
  time_ParseDuration : string -> option Duration;
  slug_Make : string -> string;
  (* the forge: status and error of a request, payload of the listings *)
  forge : World -> ForgeCall -> ServiceReply;
  forge_teams : World -> list string;
  forge_admins : World -> list GithubMember;
  forge_repositories : World -> list GithubRepository.t * list GithubRepository.t;
  (* the store and the client registry *)
  store_update : World -> StoreWrite -> option string;   (* error of a write *)
  store_organization : World -> GetReply GithubOrganization.t;
  store_team : World -> GetReply GithubTeam.t;
  store_github : World -> string -> GetReply unit;
  GithubClients : World -> string -> bool;
  newProvider : World -> string -> option string;        (* error of a constructor *)
  store_accountLinks : World -> list GithubMember -> list Member + string;
  store_ownersFromGithubTeams : World -> OwnersReply;
  store_teamsFromGithubTeams : World -> list string + string;
  store_teamRepositories : World -> list GithubTeamRepository.t + string;
}.

(** A reconciler's computation: it either hands on a value or leaves
    the reconcile with a [Result]. *)
Definition R (A : Type) : Type := ST World (Result + A).

Definition pure {A} (a : A) : R A := ret (inr a).
Definition leave {A} (r : Result) : R A := ret (inl r).

Definition andThen {A B} (m : R A) (k : A -> R B) : R B :=
  fun w => match m w with
           | (inl r, w') => (inl r, w')
           | (inr a, w') => k a w'
           end.

Notation "x <~ m ;; k" := (andThen m (fun x => k))
  (at level 100, m at next level, right associativity).
Notation "m ;;; k" := (andThen m (fun _ => k))
  (at level 100, right associativity).

(** A loop with an accumulator, in [R]. *)
Fixpoint forEachR {A B} (body : B -> A -> R B) (l : list A) (acc : B) : R B :=
  match l with
  | [] => pure acc
  | x :: r => acc' <~ body acc x ;; forEachR body r acc'
  end.

(** [for i, x := range l], with the index at hand for [l[i] = ...]. *)
Fixpoint forRange {A B} (body : B -> nat -> A -> R B) (i : nat) (l : list A)
    (acc : B) : R B :=
  match l with
  | [] => pure acc
  | x :: r => acc' <~ body acc i x ;; forRange body (S i) r acc'
  end.

Section Primitives.
Context (env : Env).

(** Run a calculator of [api/v1] on the world's clock. *)
Definition onClock {A} (c : ST nat A) : R A :=
  fun w => let (a, n) := c (readings w) in
           (inr a, mkWorld n (requests w) (writes w)).

Definition Now : R Time := onClock (metav1_Now (clock env)).

(** Send a request to the forge. *)
Definition send (c : ForgeCall) : R ServiceReply :=
  fun w => (inr (forge env w c),
            mkWorld (readings w) (requests w ++ [c]) (writes w)).

(** Ask an oracle that only looks. *)
Definition ask {A} (f : World -> A) : R A := fun w => (inr (f w), w).

(** Write to the store; the reconcile ends with the error when the
    write fails ([if err != nil { return reconcile.Result{}, err }]). *)
Definition write (x : StoreWrite) : R unit :=
  fun w => let w' := mkWorld (readings w) (requests w) (writes w ++ [x]) in
           match store_update env w x with
           | Some e => (inl (failure e), w')
           | None => (inr tt, w')
           end.
End Primitives.

(** [fmt.Sprintf("%d", n)] *)
Definition fmt_d (n : Z) : string :=
  DecimalString.NilZero.string_of_int (Z.to_int n).

(* ================================================================== *)
(** ** internal/github: the providers *)

Section Providers.
Context (env : Env).

(** Listings go through the pages of one query; they count as one
    request here, and fail with the error of the request. *)
Definition listing {A} (c : ForgeCall) (payload : World -> A) : R (A + string) :=
  reply <~ send env c ;;
  match reply with
  | Response _ None => a <~ ask payload ;; pure (inl a)
  | Response _ (Some e) | NoResponse e => pure (inr e)
  end.

(** [DefaultTeamsProvider.List] *)
Definition TeamsProvider_List : R (list string + string) :=
  listing ListTeams (forge_teams env).

(** [DefaultOrganizationProvider.OwnersExtended] *)
Definition OwnersExtended : R (list GithubMember + string) :=
  listing ListOrgAdmins (forge_admins env).

(** [DefaultRepositoryProvider.ExtendedList] *)
Definition ExtendedList
  : R (list GithubRepository.t * list GithubRepository.t + string) :=
  listing ListRepositories (forge_repositories env).

(** The shape shared by the mutations that expect one status code:
    the error of the request if any, else an error naming any other
    status code. *)
Definition expectStatus (c : ForgeCall) (expected : Z) (what : string)
  : R (option string) :=
  reply <~ send env c ;;
  match reply with
  | Response _ (Some e) | NoResponse e => pure (Some e)
  | Response code None =>
      if code =? expected then pure None
      else pure (Some (what +:+ " response code: " +:+ fmt_d code))
  end.

(** [DefaultTeamsProvider.AddTeam] *)
Definition AddTeam (team : string) : R (option string) :=
  reply <~ send env (CreateTeam team) ;;
  match reply with
  | Response code (Some e) =>
      (* Treat 422 "Name must be unique for this org" as success *)
      if code =? 422 then pure None else pure (Some e)
  | NoResponse e => pure (Some e)
  | Response code None =>
      if code =? 201 then pure None
      else pure (Some ("creating team response code: " +:+ fmt_d code))
  end.

(** [DefaultTeamsProvider.RemoveTeam] *)
Definition RemoveTeam (team : string) : R (option string) :=
  expectStatus (DeleteTeamBySlug (slug_Make env team)) 204 "deleting team".

(** [DefaultTeamsProvider.AddUser]: the flag says whether the user
    was found. *)
Definition AddUser (team user : string) : R (bool * option string) :=
  reply <~ send env (AddTeamMembershipBySlug (slug_Make env team) user) ;;
  match reply with
  | Response code (Some e) =>
      if code =? 404 then pure (false, Some "user not found in github")
      else if negb (code =? 200)
      then pure (true, Some ("adding user to team response code: " +:+ fmt_d code))
      else pure (false, Some e)
  | NoResponse e => pure (false, Some e)
  | Response _ None => pure (true, None)
  end.

(** [DefaultTeamsProvider.RemoveUser] *)
Definition RemoveUser (team user : string) : R (option string) :=
  expectStatus (RemoveTeamMembershipBySlug (slug_Make env team) user) 204
    "removing user from team".

(** [DefaultOrganizationProvider.changeRole] *)
Definition changeRole (user role : string) : R (option string) :=
  expectStatus (EditOrgMembership user role) 200
    "changing user to organization owner".

Definition ChangeToOwner (user : string) := changeRole user "admin".
Definition ChangeToMember (user : string) := changeRole user "member".

(** [DefaultRepositoryProvider.RepositoryTeamAdd] *)
Definition RepositoryTeamAdd (repo team permission : string) : R (option string) :=
  expectStatus (AddTeamRepoBySlug team repo permission) 204
    "adding team to repository".

(** [DefaultRepositoryProvider.RepositoryTeamRemove] *)
Definition RepositoryTeamRemove (repo team : string) : R (option string) :=
  expectStatus (RemoveTeamRepoBySlug team repo) 204
    "removing team from repository".
End Providers.

(* ================================================================== *)
(** ** internal/controller: parseGitHubRateLimitReset *)

Module RateLimit.

(** [\s] of Go's regexp: tab, line feed, form feed, carriage return,
    space. *)
Definition reSpace (c : ascii) : bool :=
  let n := nat_of_ascii c in
  (n =? 9)%nat || (n =? 10)%nat || (n =? 12)%nat || (n =? 13)%nat || (n =? 32)%nat.

(** [[^,\]]]: anything but a comma and a closing bracket. *)
Definition reField (c : ascii) : bool :=
  negb (Ascii.eqb c ",") && negb (Ascii.eqb c "]").

Fixpoint takeWhile (p : ascii -> bool) (s : string) : string :=
  match s with
  | String c r => if p c then String c (takeWhile p r) else EmptyString
  | EmptyString => EmptyString
  end.

Fixpoint dropWhile (p : ascii -> bool) (s : string) : string :=
  match s with
  | String c r => if p c then dropWhile p r else s
  | EmptyString => EmptyString
  end.

Fixpoint lastChar (s : string) : string :=
  match s with
  | EmptyString => EmptyString
  | String c EmptyString => s
  | String _ r => lastChar r
  end.

(** [\s+([^,\]]+)] matched at the head of [s], greedily: the white
    space as far as it goes, then the field as far as it goes; when no
    field is left after the white space, the last white space
    character is given back to be the field. *)
Definition matchField (s : string) : option string :=
  let ws := takeWhile reSpace s in
  let field := takeWhile reField (dropWhile reSpace s) in
  match ws, field with
  | EmptyString, _ => None
  | _, String _ _ => Some field
  | String _ (String _ _), EmptyString => Some (lastChar ws)
  | String _ EmptyString, EmptyString => None
  end.

Definition afterUntil (s : string) : option string :=
  match s with
  | String "u" (String "n" (String "t" (String "i" (String "l" r)))) => Some r
  | _ => None
  end.

(** [regexp.MustCompile(`until\s+([^,\]]+)`).FindStringSubmatch(s)[1]]:
    the field of the leftmost match, if there is a match. *)
Fixpoint FindStringSubmatch (s : string) : option string :=
  match match afterUntil s with
        | Some r => matchField r
        | None => None
        end with
  | Some field => Some field
  | None =>
      match s with
      | EmptyString => None
      | String _ r => FindStringSubmatch r
      end
  end.

Definition layouts : list string :=
  ["2006-01-02 15:04:05 -0700 MST";
   "2006-01-02T15:04:05Z07:00";        (* time.RFC3339 *)
   "2006-01-02 15:04:05 MST"].

(** The first layout under which [ts] parses. *)
Fixpoint parseAny (parse : string -> string -> option Time)
    (ls : list string) (ts : string) : option Time :=
  match ls with
  | [] => None
  | layout :: r =>
      match parse layout ts with
      | Some t => Some t
      | None => parseAny parse r ts
      end
  end.

Definition parseGitHubRateLimitReset (clock : Clock)
    (parse : string -> string -> option Time) (errStr : string)
  : ST nat (Time * bool) :=
  if String.eqb errStr "" then ret (zeroTime, false) else
  let lowered := strings.ToLower errStr in
  if strings.Contains lowered "organization invitation rate limit"
     || strings.Contains lowered "invitation rate limit"
     || strings.Contains lowered "exceeded the organization invitation rate limit"
  then now <- metav1_Now clock ;; ret (Time_Add now Hour, true)
  else if negb (strings.Contains lowered "rate limit")
          || negb (strings.Contains lowered "until ")
  then ret (zeroTime, false)
  else match FindStringSubmatch errStr with
       | None => ret (zeroTime, false)
       | Some m1 =>
           let ts := strings.TrimSpace m1 in
           match parseAny parse layouts ts with
           | Some t => ret (t, true)
           | None => ret (zeroTime, false)
           end
       end.

(** What the specification says the parser recognises: (a) the
    invitation phrase, or (b) "rate limit" together with "until "
    followed by a timestamp that parses; the case of the letters is
    ignored for the phrases, as the parser ignores it. *)
Definition namesInvitationLimit (errStr : string) : Prop :=
  strings.Contains (strings.ToLower errStr) "organization invitation rate limit" = true
  \/ strings.Contains (strings.ToLower errStr) "invitation rate limit" = true.

Definition namesResetTime (parse : string -> string -> option Time)
    (errStr : string) (t : Time) : Prop :=
  strings.Contains (strings.ToLower errStr) "rate limit" = true /\
  exists before ts after,
    errStr = before +:+ "until " +:+ ts +:+ after /\
    parseAny parse layouts ts = Some t.

(** The text the pattern captures, described without the matcher:
    after [before], the word, white space, and the field up to a
    comma, a closing bracket or the end. *)
Definition allOf (p : ascii -> bool) (s : string) : Prop :=
  takeWhile p s = s.

Definition capturedAfter (before field : string) (s : string) : Prop :=
  exists ws rest,
    s = before +:+ "until" +:+ ws +:+ field +:+ rest /\
    ws <> "" /\ allOf reSpace ws /\
    field <> "" /\ allOf reField field /\
    takeWhile reField rest = "".

End RateLimit.

(* ================================================================== *)
(** ** internal/controller: the GithubTeam reconciler *)

Definition GITHUB_TEAMS_LABEL_ADD_USER : string := "githubguard.sap/addUser".
Definition GITHUB_TEAMS_LABEL_REMOVE_USER : string := "githubguard.sap/removeUser".
Definition GITHUB_TEAMS_LABEL_ADD_REMOVE_USER_ENABLED_VALUE : string := "true".

Module GithubTeamReconciler.
Import GithubTeam.

(** The switch that recomputes the team status from the queue. *)
Definition statusFromOperations (s : GithubTeamStatus) : string :=
  let tmp := GithubTeam.mk None (mkSpec "" "" "" "") s in
  if PendingOperationsFound tmp then GithubTeamStatePendingOperations
  else if FailedOperationsFound tmp then GithubTeamStateFailed
  else GithubTeamStateComplete.

(** The label gate of the team's operations:
    [Labels != nil && Labels[key] != "" && Labels[key] != "true"]. *)
Definition notEnabled (githubTeam : GithubTeam.t) (key : string) : bool :=
  match Labels githubTeam with
  | Some m =>
      negb (String.eqb (default "" (m !! key)) "") &&
      negb (String.eqb (default "" (m !! key))
              GITHUB_TEAMS_LABEL_ADD_REMOVE_USER_ENABLED_VALUE)
  | None => false
  end.

(** The state of the operation loop: the operations being rewritten
    and the two flags. *)
Record LoopState := mkLoop {
  ops : list GithubUserOperation.t;
  statusChanged : bool;
  failed : bool;
}.

Section Reconciler.
Context (env : Env).

(** "If previously rate-limited, honor retry time from the stored
    error message" *)
Definition rateLimitGate (githubTeam : GithubTeam.t) : R GithubTeam.t :=
  if String.eqb (TeamStatus (Status githubTeam)) GithubTeamStateRateLimited
     && negb (String.eqb (TeamStatusError (Status githubTeam)) "")
  then
    parsed <~ onClock (RateLimit.parseGitHubRateLimitReset (clock env)
                         (time_Parse env) (TeamStatusError (Status githubTeam))) ;;
    let resetAt := fst parsed in
    if snd parsed then
      now <~ Now env ;;
      if Time_After resetAt now
      then leave (requeueAfter (Time_Sub resetAt now))
      else
        (* Past reset: clear error and recompute state *)
        let newStatus := withError (Status githubTeam) "" in
        stamp <~ Now env ;;
        let newStatus :=
          withTeamStatus newStatus (statusFromOperations newStatus) stamp in
        write env (TeamStatusUpdate newStatus) ;;;
        pure (withStatus githubTeam newStatus)
    else pure githubTeam
  else pure githubTeam.

(** One round of the loop over [newStatus.Operations], at index [i]. *)
Definition operationStep (githubTeam : GithubTeam.t) (githubTeamName : string)
    (st : LoopState) (i : nat) (userOperation : GithubUserOperation.t)
  : R LoopState :=
  let settle s e now st changed failed :=
    mkLoop (<[i := GithubUserOperation.settle userOperation s e now]> (ops st))
           changed failed in
  if negb (String.eqb (GithubUserOperation.State userOperation)
             GithubUserOperationStatePending)
  then pure st
  else
    st <~ (if String.eqb (GithubUserOperation.Operation userOperation)
                GithubUserOperationTypeAdd
           then
             if notEnabled githubTeam GITHUB_TEAMS_LABEL_ADD_USER
             then now <~ Now env ;;
                  pure (settle GithubUserOperationStateSkipped None now st true false)
             else
               r <~ AddUser env githubTeamName
                      (GithubUserOperation.User userOperation) ;;
               now <~ Now env ;;
               match r with
               | (false, _) =>
                   pure (settle GithubUserOperationStateNotFound
                           (Some "user not found on GitHub") now st true (failed st))
               | (true, Some e) =>
                   pure (settle GithubUserOperationStateFailed (Some e) now st true true)
               | (true, None) =>
                   pure (settle GithubUserOperationStateComplete None now st true
                           (failed st))
               end
           else pure st) ;;
    if String.eqb (GithubUserOperation.Operation userOperation)
         GithubUserOperationTypeRemove
    then
      if notEnabled githubTeam GITHUB_TEAMS_LABEL_REMOVE_USER
      then now <~ Now env ;;
           pure (settle GithubUserOperationStateSkipped None now st true false)
      else
        r <~ RemoveUser env githubTeamName
               (GithubUserOperation.User userOperation) ;;
        now <~ Now env ;;
        match r with
        | Some e =>
            pure (settle GithubUserOperationStateFailed (Some e) now st true true)
        | None =>
            pure (settle GithubUserOperationStateComplete None now st true (failed st))
        end
    else pure st.

(** [for i, userOperation := range newStatus.Operations] *)
Definition operationLoop (githubTeam : GithubTeam.t) (githubTeamName : string)
  : list GithubUserOperation.t -> LoopState -> R LoopState :=
  forRange (operationStep githubTeam githubTeamName) 0.

(** "if GithubTeamState is pending -- take actions on the Github
    side", to the end of [Reconcile]. *)
Definition executeOperations (githubTeam : GithubTeam.t) : R Result :=
  if String.eqb (TeamStatus (Status githubTeam)) GithubTeamStatePendingOperations
  then
    let newStatus := Status githubTeam in
    st <~ operationLoop githubTeam (Team (Spec githubTeam))
            (Operations newStatus) (mkLoop (Operations newStatus) false false) ;;
    if statusChanged st then
      now <~ Now env ;;
      let newStatus :=
        withTeamStatus (withOperations newStatus (ops st))
          (if failed st then GithubTeamStateFailed else GithubTeamStateComplete)
          now in
      forUpdate <~ ask (store_team env) ;;
      match forUpdate with
      | IsNotFound e | GetFailed e => leave (failure e)
      | Found _ =>
          write env (TeamStatusUpdate newStatus) ;;;
          pure done
      end
    else pure done
  else pure done.

(** What lies between the rate-limit gate and the execution of the
    operations (TTL maintenance, validation of the spec, observation
    of the forge, resolution of the desired members, the diff, dry
    run) either leaves the reconcile or hands on the team as it then
    stands.  It is a parameter here. *)
Context (statusCheck : GithubTeam.t -> R GithubTeam.t).

Definition Reconcile : R Result :=
  got <~ ask (store_team env) ;;
  match got with
  | IsNotFound _ => leave done
  | GetFailed e => leave (failure e)
  | Found githubTeam =>
      githubTeam <~ rateLimitGate githubTeam ;;
      githubTeam <~ statusCheck githubTeam ;;
      executeOperations githubTeam
  end.

(** A reconcile as a whole ends either way. *)
Definition run (w : World) : Result * World :=
  match Reconcile w with
  | (inl r, w') | (inr r, w') => (r, w')
  end.
End Reconciler.
End GithubTeamReconciler.

(* ================================================================== *)
(** ** internal/controller: the GithubOrganization reconciler *)

Definition GITHUB_ORG_LABEL_ADD_ORG_OWNER : string := "githubguard.sap/addOrganizationOwner".
Definition GITHUB_ORG_LABEL_REMOVE_ORG_OWNER : string := "githubguard.sap/removeOrganizationOwner".
Definition GITHUB_ORG_LABEL_ADD_REMOVE_ORG_OWNER_ENABLED_VALUE : string := "true".
Definition GITHUB_ORG_LABEL_ADD_TEAM : string := "githubguard.sap/addTeam".
Definition GITHUB_ORG_LABEL_REMOVE_TEAM : string := "githubguard.sap/removeTeam".
Definition GITHUB_ORG_LABEL_ADD_REMOVE_TEAM_ENABLED_VALUE : string := "true".
Definition GITHUB_ORG_LABEL_DRY_RUN : string := "githubguard.sap/dryRun".
Definition GITHUB_ORG_LABEL_DRY_RUN_ENABLED_VALUE : string := "true".
Definition GITHUB_ORG_LABEL_ADD_REPOSITORY_TEAM : string := "githubguard.sap/addRepositoryTeam".
Definition GITHUB_ORG_LABEL_REMOVE_REPOSITORY_TEAM : string := "githubguard.sap/removeRepositoryTeam".
Definition GITHUB_ORG_LABEL_ADD_REMOVE_REPOSITORY_TEAM_ENABLED_VALUE : string := "true".
Definition GITHUB_ORG_LABEL_CLEAN_OPERATIONS : string := "githubguard.sap/cleanOperations".
Definition GITHUB_ORG_LABEL_CLEAN_OPERATIONS_COMPLETE : string := "complete".
Definition GITHUB_ORG_LABEL_CLEAN_OPERATIONS_FAILED : string := "failed".
Definition GITHUB_ORG_LABEL_FAILED_TTL : string := "githubguard.sap/failedTTL".
Definition GITHUB_ORG_LABEL_COMPLETED_TTL : string := "githubguard.sap/completedTTL".

(** [ttlExpired]: is [since + ttl] before [now]?  [None] when the
    duration does not parse. *)
Definition ttlExpired (parseDuration : string -> option Duration)
    (ttlStr : string) (since now : Time) : option bool :=
  match parseDuration ttlStr with
  | None => None
  | Some d => Some (Time_After now (Time_Add since d))
  end.

(* ================================================================== *)
(** ** internal/controller: the TTL maintenance of a GithubTeam *)

Definition GITHUB_TEAM_LABEL_FAILED_TTL : string := "githubguard.sap/failedTTL".
Definition GITHUB_TEAM_LABEL_COMPLETED_TTL : string := "githubguard.sap/completedTTL".
Definition GITHUB_TEAM_LABEL_NOTFOUND_TTL : string := "githubguard.sap/notfoundTTL".
Definition GITHUB_TEAM_LABEL_SKIPPED_TTL : string := "githubguard.sap/skippedTTL".

Section TeamMaintenance.
Import GithubTeam.
Context (env : Env).

(** One of the four clean-ups: once the TTL named by the label has
    passed since the timestamp of the status, the operations in
    [state] are dropped, the state of the team is recomputed and the
    status is written, which ends the reconcile.  The rule for failed
    operations ([failedRule]) applies to a team in state "failed"
    only; it also clears the stored error, and a stored error alone is
    reason enough to write.  A TTL that does not parse counts as not
    expired. *)
Definition teamCleanup (githubTeam : GithubTeam.t) (key state : string)
    (failedRule : bool) : R unit :=
  let ttlStr := label githubTeam key in
  if negb (String.eqb ttlStr "")
     && (negb failedRule
         || String.eqb (TeamStatus (Status githubTeam)) GithubTeamStateFailed)
     && negb (Time_IsZero (TeamStatusTimestamp (Status githubTeam)))
  then
    now <~ Now env ;;
    match ttlExpired (time_ParseDuration env) ttlStr
            (TeamStatusTimestamp (Status githubTeam)) now with
    | Some true =>
        let newOps :=
          List.filter (fun op => negb (String.eqb (GithubUserOperation.State op) state))
            (Operations (Status githubTeam)) in
        let changed :=
          negb (List.length newOps =? List.length (Operations (Status githubTeam)))%nat
          || (failedRule
              && negb (String.eqb (TeamStatusError (Status githubTeam)) "")) in
        if changed then
          let newStatus := withOperations (Status githubTeam) newOps in
          let newStatus := if failedRule then withError newStatus "" else newStatus in
          stamp <~ Now env ;;
          write env (TeamStatusUpdate
                       (withTeamStatus newStatus
                          (GithubTeamReconciler.statusFromOperations newStatus)
                          stamp)) ;;;
          leave done
        else pure tt
    | _ => pure tt
    end
  else pure tt.

(** "TTL-based maintenance for GithubTeam status/operations" *)
Definition teamMaintenance (githubTeam : GithubTeam.t) : R unit :=
  match Labels githubTeam with
  | None => pure tt
  | Some _ =>
      teamCleanup githubTeam GITHUB_TEAM_LABEL_FAILED_TTL
        GithubUserOperationStateFailed true ;;;
      teamCleanup githubTeam GITHUB_TEAM_LABEL_COMPLETED_TTL
        GithubUserOperationStateComplete false ;;;
      teamCleanup githubTeam GITHUB_TEAM_LABEL_NOTFOUND_TTL
        GithubUserOperationStateNotFound false ;;;
      teamCleanup githubTeam GITHUB_TEAM_LABEL_SKIPPED_TTL
        GithubUserOperationStateSkipped false
  end.

(** [computeMinTTL]: "the minimum TTL from TTL labels to schedule a
    requeue for maintenance".  The labels are read in turn; one that
    is missing, empty or does not parse is passed over. *)
Definition computeMinTTL (githubTeam : GithubTeam.t) : Duration :=
  match Labels githubTeam with
  | None => 0
  | Some _ =>
      foldl (fun min key =>
               let s := label githubTeam key in
               if negb (String.eqb s "") then
                 match time_ParseDuration env s with
                 | Some d => if (min =? 0) || (d <? min) then d else min
                 | None => min
                 end
               else min)
            0
            [GITHUB_TEAM_LABEL_FAILED_TTL; GITHUB_TEAM_LABEL_COMPLETED_TTL;
             GITHUB_TEAM_LABEL_NOTFOUND_TTL; GITHUB_TEAM_LABEL_SKIPPED_TTL]
  end.

(** The durations that the TTL labels of a team give, in the order in
    which [computeMinTTL] reads them. *)
Definition teamTTLs (githubTeam : GithubTeam.t) : list Duration :=
  omap (fun key =>
          if negb (String.eqb (label githubTeam key) "")
          then time_ParseDuration env (label githubTeam key)
          else None)
       [GITHUB_TEAM_LABEL_FAILED_TTL; GITHUB_TEAM_LABEL_COMPLETED_TTL;
        GITHUB_TEAM_LABEL_NOTFOUND_TTL; GITHUB_TEAM_LABEL_SKIPPED_TTL].
End TeamMaintenance.

(** ** api/v1: GithubAccountLink *)

Module GithubAccountLink.
Record t := mk {
  GreenhouseUserID : string;
  GithubUserID : string;
  Github : string;
}.
End GithubAccountLink.

(** [extendGithubMembersWithGreenhouseIDs]: the members of the forge
    with the Greenhouse IDs that the account links of this Github
    instance give for their user IDs, the login where there is none.
    [links] is what listing the account links gives, the error when
    it fails. *)
Definition extendGithubMembersWithGreenhouseIDs
    (links : list GithubAccountLink.t + string) (members : list GithubMember)
    (githubInstance : string) : list Member + string :=
  match links with
  | inr e => inr e
  | inl items =>
      let revMap : gmap string string :=
        foldl (fun m link =>
                 if String.eqb (GithubAccountLink.Github link) githubInstance
                 then <[GithubAccountLink.GithubUserID link
                        := GithubAccountLink.GreenhouseUserID link]> m
                 else m)
              ∅ items in
      inl ((fun githubMember =>
              mkMember (default (Login githubMember)
                          (revMap !! fmt_d (UID githubMember)))
                       (Login githubMember))
           <$> members)
  end.

(** [ownersFromGithubTeams]: the members of the organization's owner
    teams, one for each Greenhouse ID.  [get] is what [r.Get] finds in
    the store under the name of a GithubTeam.  The first team, in the
    order of the spec, that is not to be found, is pending or in a
    state not known asks for a retry; the first whose [Get] fails or
    that is failed is an error.  The owners come out of a map, in the
    order the map yields them. *)
Section OwnersFromGithubTeams.
Context (get : string -> GetReply GithubTeam.t).

Definition teamFullName (githubOrganization : GithubOrganization.t) (team : string)
  : string :=
  strings.ToLower (GithubOrganization.Github (GithubOrganization.Spec githubOrganization))
  +:+ "--" +:+
  strings.ToLower
    (GithubOrganization.Organization (GithubOrganization.Spec githubOrganization))
  +:+ "--" +:+ strings.ToLower team.

Fixpoint ownersOfTeams (githubOrganization : GithubOrganization.t)
    (teams : list string) (ownerMap : gmap string Member) : OwnersReply :=
  match teams with
  | [] => Owners (snd <$> map_to_list ownerMap)
  | team :: rest =>
      match get (teamFullName githubOrganization team) with
      | IsNotFound _ => RetryLater
      | GetFailed e => OwnersFailed e
      | Found githubTeam =>
          let state := GithubTeam.TeamStatus (GithubTeam.Status githubTeam) in
          if String.eqb state GithubTeamStatePendingOperations then RetryLater
          else if String.eqb state GithubTeamStateFailed then
            OwnersFailed ("team " +:+ team
                          +:+ " state is failed. cannot sync organization owners")
          else if String.eqb state GithubTeamStateComplete
                  || String.eqb state GithubTeamStateDryRun then
            ownersOfTeams githubOrganization rest
              (foldl (fun m x => <[GreenhouseID x := x]> m) ownerMap
                 (GithubTeam.Members (GithubTeam.Status githubTeam)))
          else RetryLater
      end
  end.

Definition ownersFromGithubTeams (githubOrganization : GithubOrganization.t)
  : OwnersReply :=
  ownersOfTeams githubOrganization
    (GithubOrganization.OrganizationOwnerTeams
       (GithubOrganization.Spec githubOrganization)) ∅.

(** The members of a team that is ready, complete or in dry run; none
    for any other. *)
Definition readyMembers (githubOrganization : GithubOrganization.t) (team : string)
  : option (list Member) :=
  match get (teamFullName githubOrganization team) with
  | Found githubTeam =>
      let state := GithubTeam.TeamStatus (GithubTeam.Status githubTeam) in
      if String.eqb state GithubTeamStateComplete
         || String.eqb state GithubTeamStateDryRun
      then Some (GithubTeam.Members (GithubTeam.Status githubTeam))
      else None
  | _ => None
  end.
End OwnersFromGithubTeams.

(** [uniquePendingOrFailedRepoNames]: the names, other than the empty
    one, of the repositories with a pending or failed operation, each
    once, in the order the set yields them. *)
Definition uniquePendingOrFailedRepoNames (ops : list GithubRepoTeamOperation.t)
  : list string :=
  elements
    (foldl (fun (m : gset string) op =>
              if (String.eqb (GithubRepoTeamOperation.State op)
                    GithubRepoTeamOperationStatePending
                  || String.eqb (GithubRepoTeamOperation.State op)
                       GithubRepoTeamOperationStateFailed)
                 && negb (String.eqb (GithubRepoTeamOperation.Repo op) "")
              then {[GithubRepoTeamOperation.Repo op]} ∪ m
              else m)
           ∅ ops).

(** [elementsMatch] (testify's [ElementsMatch]): the same elements with
    the same multiplicities, in any order. *)
Fixpoint removeFirst {A} (eqb : A -> A -> bool) (x : A) (l : list A)
  : option (list A) :=
  match l with
  | [] => None
  | y :: r => if eqb x y then Some r
              else match removeFirst eqb x r with
                   | Some r' => Some (y :: r')
                   | None => None
                   end
  end.

Fixpoint elementsMatch {A} (eqb : A -> A -> bool) (listA listB : list A) : bool :=
  match listA with
  | [] => match listB with [] => true | _ => false end
  | x :: r => match removeFirst eqb x listB with
              | Some listB' => elementsMatch eqb r listB'
              | None => false
              end
  end.

Definition Member_eqb (a b : Member) : bool :=
  String.eqb (GreenhouseID a) (GreenhouseID b) &&
  String.eqb (GithubUsername a) (GithubUsername b).

Module GithubOrganizationReconciler.
Import GithubOrganization.

Definition statusFromOperations (s : GithubOrganizationStatus) : string :=
  let tmp := GithubOrganization.mk None None (mkSpec "" "" [] [] [] 0) s in
  if PendingOperationsFound tmp then GithubOrganizationStatePendingOperations
  else if FailedOperationsFound tmp then GithubOrganizationStateFailed
  else GithubOrganizationStateComplete.

(** The label gate of the organization's operations:
    [Labels != nil && Labels[key] != "true"]. *)
Definition notEnabled (githubOrganization : GithubOrganization.t) (key : string)
  : bool :=
  match Labels githubOrganization with
  | Some m => negb (String.eqb (default "" (m !! key)) "true")
  | None => false
  end.

(** Both labels of a class say ["false"]: the class is not compared. *)
Definition syncDisabled (githubOrganization : GithubOrganization.t)
    (addKey removeKey : string) : bool :=
  match Labels githubOrganization with
  | Some m => String.eqb (default "" (m !! addKey)) "false" &&
              String.eqb (default "" (m !! removeKey)) "false"
  | None => false
  end.

(** The state of the three operation loops. *)
Record LoopState := mkLoop {
  newStatus : GithubOrganizationStatus;
  statusChanged : bool;
  failed : bool;
  ownerChangeApplied : bool;
}.

Section Reconciler.
Context (env : Env).

(** [Status().Update] of the organization. *)
Definition statusUpdate (s : GithubOrganizationStatus) : R unit :=
  write env (OrganizationStatusUpdate s).

(** The recurring end of a path: record a state and an error with
    the time, write the status, and leave. *)
Definition leaveWith (g : GithubOrganization.t) (st e : string) (r : Result)
  : R GithubOrganization.t :=
  now <~ Now env ;;
  statusUpdate (setState (Status g) st e now) ;;;
  leave r.

(** [r.Get] of the object before an update of its status. *)
Definition getForUpdate : R unit :=
  got <~ ask (store_organization env) ;;
  match got with
  | Found _ => pure tt
  | IsNotFound e | GetFailed e => leave (failure e)
  end.

Definition rateLimitGate (githubOrganization : GithubOrganization.t)
  : R GithubOrganization.t :=
  if String.eqb (OrganizationStatus (Status githubOrganization))
       GithubOrganizationStateRateLimited
     && negb (String.eqb (OrganizationStatusError (Status githubOrganization)) "")
  then
    parsed <~ onClock (RateLimit.parseGitHubRateLimitReset (clock env)
                         (time_Parse env)
                         (OrganizationStatusError (Status githubOrganization))) ;;
    let resetAt := fst parsed in
    if snd parsed then
      now <~ Now env ;;
      if Time_After resetAt now
      then leave (requeueAfter (Time_Sub resetAt now))
      else
        let newStatus := setOrganizationStatusError (Status githubOrganization) "" in
        stamp <~ Now env ;;
        let newStatus :=
          setOrganizationStatusTimestamp
            (setOrganizationStatus newStatus (statusFromOperations newStatus))
            stamp in
        statusUpdate newStatus ;;;
        pure (withStatus githubOrganization newStatus)
    else pure githubOrganization
  else pure githubOrganization.

(** One of the two TTL clean-ups.  [clean] drops the operations.
    The clean-up of failed operations runs only when the status is
    failed ([onlyWhenFailed]); it also clears the stored error, and
    a stored error alone is reason enough to write ([clearError]). *)
Definition ttlCleanup (githubOrganization : GithubOrganization.t)
    (key : string) (onlyWhenFailed clearError : bool)
    (clean : GithubOrganization.t -> GithubOrganizationStatus * bool)
  : R unit :=
  let ttlStr := label githubOrganization key in
  if negb (String.eqb ttlStr "")
     && (negb onlyWhenFailed
         || String.eqb (OrganizationStatus (Status githubOrganization))
              GithubOrganizationStateFailed)
     && negb (Time_IsZero (OrganizationStatusTimestamp (Status githubOrganization)))
  then
    now <~ Now env ;;
    match ttlExpired (time_ParseDuration env) ttlStr
            (OrganizationStatusTimestamp (Status githubOrganization)) now with
    | Some true =>
        let (newStatus, changed) := clean githubOrganization in
        if changed
           || (clearError &&
               negb (String.eqb
                       (OrganizationStatusError (Status githubOrganization)) ""))
        then
          let newStatus :=
            if clearError then setOrganizationStatusError newStatus ""
            else newStatus in
          stamp <~ Now env ;;
          statusUpdate
            (setOrganizationStatusTimestamp
               (setOrganizationStatus newStatus (statusFromOperations newStatus))
               stamp) ;;;
          leave done
        else pure tt
    | _ => pure tt
    end
  else pure tt.

(** "TTL-based maintenance to keep status small and healthy" *)
Definition ttlMaintenance (githubOrganization : GithubOrganization.t) : R unit :=
  match Labels githubOrganization with
  | None => pure tt
  | Some _ =>
      ttlCleanup githubOrganization GITHUB_ORG_LABEL_FAILED_TTL true true
        CleanFailedOperations ;;;
      ttlCleanup githubOrganization GITHUB_ORG_LABEL_COMPLETED_TTL false false
        CleanCompletedOperations
  end.

(** "check for github and org data", the Github instance, the
    client and the four providers. *)
Definition validate (githubOrganization : GithubOrganization.t) : R unit :=
  let githubName := Github (Spec githubOrganization) in
  if String.eqb githubName "" then
    leaveWith githubOrganization GithubOrganizationStateFailed
      "github name not provided" done ;;; pure tt
  else if String.eqb (Organization (Spec githubOrganization)) "" then
    leaveWith githubOrganization GithubTeamStateFailed
      "organization name not provided" done ;;; pure tt
  else
    got <~ ask (fun w => store_github env w githubName) ;;
    match got with
    | IsNotFound _ =>
        leaveWith githubOrganization GithubOrganizationStateFailed
          "github not found" done ;;; pure tt
    | GetFailed e =>
        leaveWith githubOrganization GithubOrganizationStateFailed
          ("error during getting the github: " +:+ e) done ;;; pure tt
    | Found _ =>
        ok <~ ask (fun w => GithubClients env w githubName) ;;
        if negb ok then leave (requeueAfter Second) else
        forEachR (fun _ name =>
                    e <~ ask (fun w => newProvider env w name) ;;
                    match e with
                    | Some e => leave (failure e)
                    | None => pure tt
                    end)
          ["repository"; "organization"; "teams"; "users"] tt
    end.

(** A listing failed: a rate limit is recorded as such and awaited,
    anything else is a failure. *)
Definition fetchFailed (githubOrganization : GithubOrganization.t)
    (what e : string) : R GithubOrganization.t :=
  parsed <~ onClock (RateLimit.parseGitHubRateLimitReset (clock env)
                       (time_Parse env) e) ;;
  if snd parsed then
    now <~ Now env ;;
    let after := if Time_After (fst parsed) now
                 then Time_Sub (fst parsed) now else 0 in
    leaveWith githubOrganization GithubOrganizationStateRateLimited
      (what +:+ e) (requeueAfter after)
  else
    leaveWith githubOrganization GithubOrganizationStateFailed (what +:+ e) done.

(** "PART 1: organization owner comparison" *)
Definition compareOwners (githubOrganization : GithubOrganization.t) : R unit :=
  if syncDisabled githubOrganization GITHUB_ORG_LABEL_ADD_ORG_OWNER
       GITHUB_ORG_LABEL_REMOVE_ORG_OWNER
  then pure tt
  else
    owners <~ ask (store_ownersFromGithubTeams env) ;;
    match owners with
    | RetryLater => leave (requeueAfter (5 * Second))
    | OwnersFailed e =>
        leaveWith githubOrganization GithubOrganizationStateFailed
          ("error in getting owners: " +:+ e) done ;;; pure tt
    | Owners [] => leave (requeueAfter (5 * Second))
    | Owners ownersFromKubernetes =>
        changed <~ onClock (OwnerChangeCalculator (clock env) githubOrganization
                              ownersFromKubernetes) ;;
        if fst changed then
          getForUpdate ;;;
          statusUpdate (snd changed) ;;;
          leave done
        else pure tt
    end.

(** "Part 2: team comparison" *)
Definition compareTeams (githubOrganization : GithubOrganization.t) : R unit :=
  if syncDisabled githubOrganization GITHUB_ORG_LABEL_ADD_TEAM
       GITHUB_ORG_LABEL_REMOVE_TEAM
  then pure tt
  else
    teams <~ ask (store_teamsFromGithubTeams env) ;;
    match teams with
    | inr e =>
        leaveWith githubOrganization GithubOrganizationStateFailed e done ;;; pure tt
    | inl teamsFromKubernetes =>
        changed <~ onClock (TeamChangeCalculator (clock env) githubOrganization
                              teamsFromKubernetes) ;;
        if fst changed then
          statusUpdate (snd changed) ;;;
          leave done
        else pure tt
    end.

(** The status the repository comparison writes: the compact list of
    the repositories out of policy is set, the repository lists are
    dropped. *)
Definition compactStatus (newStatus : GithubOrganizationStatus)
  : GithubOrganizationStatus :=
  setRepositories
    (setOutOfPolicyRepositories newStatus
       (uniquePendingOrFailedRepoNames
          (RepositoryTeamOperations (Operations newStatus))))
    [] [].

(** "PART 3: repo comparison": the changes are computed on a copy that
    carries the lists just fetched. *)
Definition compareRepositories (githubOrganization : GithubOrganization.t)
    (publicRepos privateRepos : list GithubRepository.t) : R unit :=
  if syncDisabled githubOrganization GITHUB_ORG_LABEL_ADD_REPOSITORY_TEAM
       GITHUB_ORG_LABEL_REMOVE_REPOSITORY_TEAM
  then pure tt
  else
    exceptions <~ ask (store_teamRepositories env) ;;
    match exceptions with
    | inr e => leave (failure e)
    | inl githubTeamRepositoryListByOrganization =>
        let temp := withStatus githubOrganization
                      (setRepositories (Status githubOrganization)
                         publicRepos privateRepos) in
        changed <~ onClock (RepoChangeCalculator (clock env) temp
                              githubTeamRepositoryListByOrganization) ;;
        if fst changed then
          statusUpdate (compactStatus (snd changed)) ;;;
          leave done
        else pure tt
    end.

(** What follows the three listings: the repository lists of the status
    are cleared if present, owners and teams of the status are brought
    up to date, then the three comparisons, then the first-round
    status. *)
Definition compare (githubOrganization : GithubOrganization.t)
    (ownerList : list GithubMember) (teamsList : list string)
    (publicRepos privateRepos : list GithubRepository.t)
  : R GithubOrganization.t :=
  let cleared :=
    (0 <? List.length (PublicRepositories (Status githubOrganization)))%nat
    || (0 <? List.length (PrivateRepositories (Status githubOrganization)))%nat in
  let githubOrganization :=
    if cleared
    then withStatus githubOrganization
           (setRepositories (Status githubOrganization) [] [])
    else githubOrganization in
  ownerListExtended <~ ask (fun w => store_accountLinks env w ownerList) ;;
  match ownerListExtended with
  | inr e => leave (failure e)
  | inl ownerListExtended =>
  let ownersDiffer :=
    negb (elementsMatch Member_eqb
            (OrganizationOwners (Status githubOrganization)) ownerListExtended) in
  let githubOrganization :=
    if ownersDiffer
    then withStatus githubOrganization
           (setOrganizationOwners (Status githubOrganization) ownerListExtended)
    else githubOrganization in
  let teamsDiffer :=
    negb (elementsMatch String.eqb (Teams (Status githubOrganization)) teamsList) in
  let githubOrganization :=
    if teamsDiffer
    then withStatus githubOrganization
           (setTeams (Status githubOrganization) teamsList)
    else githubOrganization in
  if cleared || ownersDiffer || teamsDiffer then
    getForUpdate ;;;
    statusUpdate (Status githubOrganization) ;;;
    leave done
  else
    compareOwners githubOrganization ;;;
    compareTeams githubOrganization ;;;
    compareRepositories githubOrganization publicRepos privateRepos ;;;
    (* check for empty status in kubernetes resource (for the first run) *)
    if String.eqb (OrganizationStatus (Status githubOrganization)) "" then
      now <~ Now env ;;
      let s := setState (Status githubOrganization)
                 GithubOrganizationStateComplete "" now in
      statusUpdate s ;;;
      pure (withStatus githubOrganization s)
    else pure githubOrganization
  end.

(** "there are no pending operations, status check started": the three
    listings, then the comparison. *)
Definition statusCheck (githubOrganization : GithubOrganization.t)
  : R GithubOrganization.t :=
  ownerList <~ OwnersExtended env ;;
  match ownerList with
  | inr e => fetchFailed githubOrganization "error in getting organization owners: " e
  | inl ownerList =>
  teamsList <~ TeamsProvider_List env ;;
  match teamsList with
  | inr e => fetchFailed githubOrganization "error in getting teams: " e
  | inl teamsList =>
  repos <~ ExtendedList env ;;
  match repos with
  | inr e => fetchFailed githubOrganization "error in getting teams: " e
  | inl (publicRepos, privateRepos) =>
      compare githubOrganization ownerList teamsList publicRepos privateRepos
  end end end.

(** "dry run - do not take actions on github side" *)
Definition dryRun (githubOrganization : GithubOrganization.t)
  : R GithubOrganization.t :=
  match Labels githubOrganization with
  | None => pure githubOrganization
  | Some _ =>
      if String.eqb (label githubOrganization GITHUB_ORG_LABEL_DRY_RUN)
           GITHUB_ORG_LABEL_DRY_RUN_ENABLED_VALUE
      then
        if negb (String.eqb (OrganizationStatus (Status githubOrganization))
                   GithubOrganizationStateDryRun)
        then
          now <~ Now env ;;
          statusUpdate
            (setOrganizationStatusTimestamp
               (setOrganizationStatus (Status githubOrganization)
                  GithubOrganizationStateDryRun) now) ;;;
          leave requeue
        else pure githubOrganization
      else
        if String.eqb (OrganizationStatus (Status githubOrganization))
             GithubOrganizationStateDryRun
        then
          let s := Status githubOrganization in
          let s :=
            if PendingOperationsFound githubOrganization
            then setOrganizationStatus s GithubOrganizationStatePendingOperations
            else if FailedOperationsFound githubOrganization
            then setOrganizationStatus s GithubOrganizationStateFailed
            else setOrganizationStatusError
                   (setOrganizationStatus s GithubOrganizationStateComplete) "" in
          now <~ Now env ;;
          statusUpdate (setOrganizationStatusTimestamp s now) ;;;
          leave requeue
        else pure githubOrganization
  end.

(** "status is dry run: cleaning check starts" *)
Definition cleanOnLabel (githubOrganization : GithubOrganization.t)
    (clean : GithubOrganization.t -> GithubOrganizationStatus * bool)
  : R unit :=
  let (s, changed) := clean githubOrganization in
  if changed then
    now <~ Now env ;;
    statusUpdate (setOrganizationStatusTimestamp s now) ;;;
    leave done
  else
    write env (OrganizationUpdate
                 (delete GITHUB_ORG_LABEL_CLEAN_OPERATIONS
                    <$> Labels githubOrganization)) ;;;
    leave done.

Definition dryRunCleaning (githubOrganization : GithubOrganization.t) : R unit :=
  if String.eqb (OrganizationStatus (Status githubOrganization))
       GithubOrganizationStateDryRun
  then
    if String.eqb (label githubOrganization GITHUB_ORG_LABEL_CLEAN_OPERATIONS)
         GITHUB_ORG_LABEL_CLEAN_OPERATIONS_COMPLETE
    then cleanOnLabel githubOrganization CleanCompletedOperations
    else if String.eqb (label githubOrganization GITHUB_ORG_LABEL_CLEAN_OPERATIONS)
              GITHUB_ORG_LABEL_CLEAN_OPERATIONS_FAILED
    then cleanOnLabel githubOrganization CleanFailedOperations
    else leave done
  else pure tt.

(** *** The three operation loops *)

Definition settleOwner (st : LoopState) (i : nat) (op : GithubUserOperation.t)
    (s : string) (e : option string) (now : Time)
    (failed' applied' : bool) : LoopState :=
  mkLoop
    (setOwnerOperations (newStatus st)
       (<[i := GithubUserOperation.settle op s e now]>
          (OrganizationOwnerOperations (Operations (newStatus st)))))
    true failed' applied'.

(** "cannot demote the last admin" *)
Definition lastAdmin (e : string) : bool :=
  strings.Contains (strings.ToLower e) "last admin"
  || strings.Contains e "You can't demote the last admin to a member.".

Definition ownerOperationStep (githubOrganization : GithubOrganization.t)
    (st : LoopState) (i : nat) (organizationOwnerOperation : GithubUserOperation.t)
  : R LoopState :=
  let op := organizationOwnerOperation in
  if negb (String.eqb (GithubUserOperation.State op) GithubUserOperationStatePending)
  then pure st
  else
    st <~ (if String.eqb (GithubUserOperation.Operation op)
                GithubUserOperationTypeAdd
           then
             if notEnabled githubOrganization GITHUB_ORG_LABEL_ADD_ORG_OWNER
             then now <~ Now env ;;
                  pure (settleOwner st i op GithubUserOperationStateSkipped None now
                          false (ownerChangeApplied st))
             else
               e <~ ChangeToOwner env (GithubUserOperation.User op) ;;
               now <~ Now env ;;
               match e with
               | Some e =>
                   pure (settleOwner st i op GithubUserOperationStateFailed (Some e)
                           now true (ownerChangeApplied st))
               | None =>
                   pure (settleOwner st i op GithubUserOperationStateComplete None
                           now (failed st) true)
               end
           else pure st) ;;
    if String.eqb (GithubUserOperation.Operation op) GithubUserOperationTypeRemove
    then
      if notEnabled githubOrganization GITHUB_ORG_LABEL_REMOVE_ORG_OWNER
      then now <~ Now env ;;
           pure (settleOwner st i op GithubUserOperationStateSkipped None now
                   false (ownerChangeApplied st))
      else
        e <~ ChangeToMember env (GithubUserOperation.User op) ;;
        now <~ Now env ;;
        match e with
        | Some e =>
            if lastAdmin e
            then pure (settleOwner st i op GithubUserOperationStateSkipped (Some e)
                         now (failed st) (ownerChangeApplied st))
            else pure (settleOwner st i op GithubUserOperationStateFailed (Some e)
                         now true (ownerChangeApplied st))
        | None =>
            pure (settleOwner st i op GithubUserOperationStateComplete None
                    now (failed st) true)
        end
    else pure st.

Definition settleTeam (st : LoopState) (i : nat) (op : GithubTeamOperation.t)
    (s : string) (e : option string) (now : Time) (failed' : bool) : LoopState :=
  mkLoop
    (setTeamOperations (newStatus st)
       (<[i := GithubTeamOperation.settle op s e now]>
          (GithubTeamOperations (Operations (newStatus st)))))
    true failed' (ownerChangeApplied st).

Definition teamOperationStep (githubOrganization : GithubOrganization.t)
    (st : LoopState) (i : nat) (githubTeamOperation : GithubTeamOperation.t)
  : R LoopState :=
  let op := githubTeamOperation in
  if negb (String.eqb (GithubTeamOperation.State op) GithubTeamOperationStatePending)
  then pure st
  else
    st <~ (if String.eqb (GithubTeamOperation.Operation op)
                GithubTeamOperationTypeAdd
           then
             if notEnabled githubOrganization GITHUB_ORG_LABEL_ADD_TEAM
             then now <~ Now env ;;
                  pure (settleTeam st i op GithubTeamOperationStateSkipped None now false)
             else
               e <~ AddTeam env (GithubTeamOperation.Team op) ;;
               now <~ Now env ;;
               match e with
               | Some e =>
                   pure (settleTeam st i op GithubTeamStateFailed (Some e) now true)
               | None =>
                   pure (settleTeam st i op GithubTeamStateComplete None now
                           (failed st))
               end
           else pure st) ;;
    if String.eqb (GithubTeamOperation.Operation op) GithubTeamOperationTypeRemove
    then
      if notEnabled githubOrganization GITHUB_ORG_LABEL_REMOVE_TEAM
      then now <~ Now env ;;
           pure (settleTeam st i op GithubTeamOperationStateSkipped None now false)
      else
        e <~ RemoveTeam env (GithubTeamOperation.Team op) ;;
        now <~ Now env ;;
        match e with
        | Some e =>
            pure (settleTeam st i op GithubTeamOperationStateFailed (Some e) now true)
        | None =>
            pure (settleTeam st i op GithubTeamOperationStateComplete None now
                    (failed st))
        end
    else pure st.

Definition settleRepoTeam (st : LoopState) (i : nat)
    (op : GithubRepoTeamOperation.t)
    (s : string) (e : option string) (now : Time) (failed' : bool) : LoopState :=
  mkLoop
    (setRepositoryTeamOperations (newStatus st)
       (<[i := GithubRepoTeamOperation.settle op s e now]>
          (RepositoryTeamOperations (Operations (newStatus st)))))
    true failed' (ownerChangeApplied st).

Definition repositoryTeamOperationStep (githubOrganization : GithubOrganization.t)
    (st : LoopState) (i : nat)
    (repositoryTeamOperation : GithubRepoTeamOperation.t)
  : R LoopState :=
  let op := repositoryTeamOperation in
  if negb (String.eqb (GithubRepoTeamOperation.State op)
             GithubRepoTeamOperationStatePending)
  then pure st
  else
    st <~ (if String.eqb (GithubRepoTeamOperation.Operation op)
                GithubRepoTeamOperationTypeAdd
           then
             if notEnabled githubOrganization GITHUB_ORG_LABEL_ADD_REPOSITORY_TEAM
             then now <~ Now env ;;
                  pure (settleRepoTeam st i op GithubRepoTeamOperationStateSkipped
                          None now false)
             else
               e <~ RepositoryTeamAdd env (GithubRepoTeamOperation.Repo op)
                      (GithubRepoTeamOperation.Team op)
                      (GithubRepoTeamOperation.Permission op) ;;
               now <~ Now env ;;
               match e with
               | Some e =>
                   pure (settleRepoTeam st i op GithubRepoTeamOperationStateFailed
                           (Some e) now true)
               | None =>
                   pure (settleRepoTeam st i op GithubRepoTeamOperationStateComplete
                           None now (failed st))
               end
           else pure st) ;;
    if String.eqb (GithubRepoTeamOperation.Operation op)
         GithubRepoTeamOperationTypeRemove
    then
      if notEnabled githubOrganization GITHUB_ORG_LABEL_REMOVE_REPOSITORY_TEAM
      then now <~ Now env ;;
           pure (settleRepoTeam st i op GithubRepoTeamOperationStateSkipped
                   None now false)
      else
        e <~ RepositoryTeamRemove env (GithubRepoTeamOperation.Repo op)
               (GithubRepoTeamOperation.Team op) ;;
        now <~ Now env ;;
        match e with
        | Some e =>
            pure (settleRepoTeam st i op GithubRepoTeamOperationStateFailed
                    (Some e) now true)
        | None =>
            pure (settleRepoTeam st i op GithubRepoTeamOperationStateComplete
                    None now (failed st))
        end
    else pure st.

(** "if GithubOrganizationState is pending -- take actions on the
    Github side", to the end of [Reconcile]. *)
Definition executeOperations (githubOrganization : GithubOrganization.t)
  : R Result :=
  if String.eqb (OrganizationStatus (Status githubOrganization))
       GithubOrganizationStatePendingOperations
  then
    let s := Status githubOrganization in
    st <~ forRange (ownerOperationStep githubOrganization) 0
            (OrganizationOwnerOperations (Operations s))
            (mkLoop s false false false) ;;
    st <~ forRange (teamOperationStep githubOrganization) 0
            (GithubTeamOperations (Operations (newStatus st))) st ;;
    st <~ forRange (repositoryTeamOperationStep githubOrganization) 0
            (RepositoryTeamOperations (Operations (newStatus st))) st ;;
    if statusChanged st then
      let s :=
        if failed st
        then setOrganizationStatus (newStatus st) GithubOrganizationStateFailed
        else setOrganizationStatusError
               (setOrganizationStatus (newStatus st)
                  GithubOrganizationStateComplete) "" in
      now <~ Now env ;;
      getForUpdate ;;;
      statusUpdate (setOrganizationStatusTimestamp s now) ;;;
      if ownerChangeApplied st && negb (failed st)
      then pure (requeueAfter (5 * Second))
      else pure done
    else pure done
  else pure done.

Definition Reconcile : R Result :=
  got <~ ask (store_organization env) ;;
  match got with
  | IsNotFound _ => leave done
  | GetFailed e => leave (failure e)
  | Found githubOrganization =>
      githubOrganization <~ rateLimitGate githubOrganization ;;
      ttlMaintenance githubOrganization ;;;
      validate githubOrganization ;;;
      githubOrganization <~
        (if negb (String.eqb (OrganizationStatus (Status githubOrganization))
                    GithubOrganizationStatePendingOperations)
         then statusCheck githubOrganization
         else pure githubOrganization) ;;
      githubOrganization <~ dryRun githubOrganization ;;
      dryRunCleaning githubOrganization ;;;
      executeOperations githubOrganization
  end.

Definition run (w : World) : Result * World :=
  match Reconcile w with
  | (inl r, w') | (inr r, w') => (r, w')
  end.
End Reconciler.
End GithubOrganizationReconciler.

(* ================================================================== *)
(** ** What the execution of operations does to a queue *)





(* ================================================================== *)
(** ** The compact status of an organization *)

(** A status is compact when it carries neither list of repositories. *)
Definition compact (s : GithubOrganization.GithubOrganizationStatus) : bool :=
  match GithubOrganization.PublicRepositories s,
        GithubOrganization.PrivateRepositories s with
  | [], [] => true
  | _, _ => false
  end.

Definition compactWrite (x : StoreWrite) : bool :=
  match x with
  | OrganizationStatusUpdate s => compact s
  | _ => true
  end.

(** Every status of an organization written so far is compact. *)
Definition compactWrites (w : World) : bool := forallb compactWrite (writes w).

(** A computation keeps the writes compact, and hands on only values
    that satisfy [P]. *)
Definition keeps {A} (P : A -> Prop) (m : R A) : Prop :=
  forall w, compactWrites w = true ->
    compactWrites (snd (m w)) = true /\
    forall a, fst (m w) = inr a -> P a.

(** No request sent so far changes anything on the forge. *)
Definition readOnly (w : World) : bool :=
  forallb (fun c => negb (mutating c)) (requests w).

(** A computation maintains an invariant of the world, and hands on
    only values that satisfy [P]. *)
Definition maintains (inv : World -> bool) {A} (P : A -> Prop) (m : R A) : Prop :=
  forall w, inv w = true ->
    inv (snd (m w)) = true /\
    forall a, fst (m w) = inr a -> P a.

(** A repository has an operation waiting or failed. *)
Definition outOfPolicy (ops : list GithubRepoTeamOperation.t) (repo : string)
  : Prop :=
  repo <> EmptyString /\
  exists op, op ∈ ops /\ GithubRepoTeamOperation.Repo op = repo /\
    (GithubRepoTeamOperation.State op = GithubRepoTeamOperationStatePending \/
     GithubRepoTeamOperation.State op = GithubRepoTeamOperationStateFailed).

(* ================================================================== *)
(** ** Concrete surroundings, for the examples *)

Module Examples.

Definition digit (c : ascii) : option Z :=
  let n := Z.of_nat (nat_of_ascii c) in
  if (48 <=? n) && (n <=? 57) then Some (n - 48) else None.

(** A fixed number of decimal digits at the head of [s]. *)
Fixpoint digits (k : nat) (s : string) (acc : Z) : option (Z * string) :=
  match k with
  | O => Some (acc, s)
  | S k' =>
      match s with
      | String c r =>
          match digit c with
          | Some d => digits k' r (10 * acc + d)
          | None => None
          end
      | EmptyString => None
      end
  end.

Definition expect (c : ascii) (s : string) : option string :=
  match s with
  | String d r => if Ascii.eqb c d then Some r else None
  | EmptyString => None
  end.

Definition leapYear (y : Z) : bool :=
  ((y mod 4 =? 0) && negb (y mod 100 =? 0)) || (y mod 400 =? 0).

Definition daysIn (y m : Z) : Z :=
  if m =? 2 then (if leapYear y then 29 else 28)
  else if (m =? 4) || (m =? 6) || (m =? 9) || (m =? 11) then 30 else 31.

(** Days from 1970-01-01 to the given civil date. *)
Definition daysFromCivil (y m d : Z) : Z :=
  let y' := if m <=? 2 then y - 1 else y in
  let era := y' / 400 in
  let yoe := y' - era * 400 in
  let doy := (153 * (if 2 <? m then m - 3 else m + 9) + 2) / 5 + d - 1 in
  let doe := yoe * 365 + yoe / 4 - yoe / 100 + doy in
  era * 146097 + doe - 719468.

Definition isUpperZ (c : ascii) : bool := strings.isUpper c.

(** [time.Parse("2006-01-02 15:04:05 -0700 MST", s)] on the stamps Go
    itself prints: date, time of day, numeric offset, and a zone
    abbreviation of three capitals, with nothing before or after. *)
Definition parseStamp (s : string) : option Time :=
  '(y, s) ← digits 4 s 0; s ← expect "-" s;
  '(m, s) ← digits 2 s 0; s ← expect "-" s;
  '(d, s) ← digits 2 s 0; s ← expect " " s;
  '(hh, s) ← digits 2 s 0; s ← expect ":" s;
  '(mi, s) ← digits 2 s 0; s ← expect ":" s;
  '(ss, s) ← digits 2 s 0; s ← expect " " s;
  sign ← match s with
         | String "+" _ => Some 1
         | String "-" _ => Some (-1)
         | _ => None
         end;
  '(oh, s) ← digits 2 (match s with String _ r => r | _ => s end) 0;
  '(om, s) ← digits 2 s 0; s ← expect " " s;
  match s with
  | String a (String b (String c EmptyString)) =>
      if isUpperZ a && isUpperZ b && isUpperZ c
         && (1 <=? m) && (m <=? 12) && (1 <=? d) && (d <=? daysIn y m)
         && (hh <? 24) && (mi <? 60) && (ss <? 60) && (om <? 60)
      then Some ((daysFromCivil y m d * 86400 + hh * 3600 + mi * 60 + ss
                  - sign * (oh * 3600 + om * 60)) * 1000000000)
      else None
  | _ => None
  end.

Definition parseLayout (layout value : string) : option Time :=
  if String.eqb layout "2006-01-02 15:04:05 -0700 MST" then parseStamp value
  else None.

(** A forge that accepts every request, an empty store that accepts
    every write, and a clock that starts on 2026-01-01 00:00:00 UTC and
    advances a second per reading. *)
Definition newYear2026 : Time := 1767225600 * 1000000000.

Definition accept (c : ForgeCall) : ServiceReply :=
  match c with
  | CreateTeam _ => Response 201 None
  | DeleteTeamBySlug _ | RemoveTeamMembershipBySlug _ _
  | AddTeamRepoBySlug _ _ _ | RemoveTeamRepoBySlug _ _ => Response 204 None
  | _ => Response 200 None
  end.

Definition quiet (org : GetReply GithubOrganization.t)
    (team : GetReply GithubTeam.t) (forge : World -> ForgeCall -> ServiceReply)
  : Env :=
  mkEnv (fun n => newYear2026 + Z.of_nat n * Second)
    parseLayout (fun _ => None) (fun s => s)
    forge (fun _ => []) (fun _ => []) (fun _ => ([], []))
    (fun _ _ => None) (fun _ => org) (fun _ => team)
    (fun _ _ => Found tt) (fun _ _ => true) (fun _ _ => None)
    (fun _ _ => inl []) (fun _ => Owners []) (fun _ => inl []) (fun _ => inl []).

(** An organization whose spec lacks the default teams of private
    repositories. *)
Definition orgWithoutDefaults : GithubOrganization.t :=
  GithubOrganization.mk None None
    (GithubOrganization.mkSpec "github-com" "org1" ["owners"]
       [GithubTeamWithPermission.mk "team-a" "pull"] [] 1)
    (GithubOrganization.mkStatus [] [] [GithubRepository.mk "repo2" []] [] []
       "complete" "" 0 (GithubOrganization.mkOperations [] [] [])).




(** A forge that cannot be reached when a member is to be added. *)
Definition unreachable (w : World) (c : ForgeCall) : ServiceReply :=
  match c with
  | AddTeamMembershipBySlug _ _ =>
      NoResponse "dial tcp 140.82.121.6:443: connect: connection refused"
  | _ => accept c
  end.

Definition teamOf (labels : option (gmap string string)) (status : string)
    (operations : list GithubUserOperation.t) : GithubTeam.t :=
  GithubTeam.mk labels (GithubTeam.mkSpec "github-com" "org1" "eng" "eng")
    (GithubTeam.mkStatus status "" 0 operations []).

Definition pendingUser (kind user : string) : GithubUserOperation.t :=
  GithubUserOperation.mk kind user "pending" "" 0.


(** A forge that answers the addition of a member with a server
    error, and a team on which removals are switched off. *)
Definition serverError (w : World) (c : ForgeCall) : ServiceReply :=
  match c with
  | AddTeamMembershipBySlug _ _ =>
      Response 500 (Some "500 Internal Server Error")
  | _ => accept c
  end.

Definition removalsOff : option (gmap string string) :=
  Some {[ GITHUB_TEAMS_LABEL_REMOVE_USER := "false" ]}.

Definition teamAddThenRemove : GithubTeam.t :=
  teamOf removalsOff "pending"
    [pendingUser "add" "alice"; pendingUser "remove" "bob"].

(** Nothing happens between the gate and the execution. *)
Definition proceed {A} (a : A) : R A := pure a.


(** An organization without any label, with operations waiting. *)
Definition orgOf (labels : option (gmap string string)) (status : string)
    (pub priv : list GithubRepository.t)
    (operations : GithubOrganization.GithubOrganizationStatusOperations)
  : GithubOrganization.t :=
  GithubOrganization.mk labels None
    (GithubOrganization.mkSpec "github-com" "org1" ["owners"]
       [GithubTeamWithPermission.mk "team-a" "pull"]
       [GithubTeamWithPermission.mk "team-b" "push"] 1)
    (GithubOrganization.mkStatus [] pub priv [] [] status "" 0 operations).

Definition unlabelledOrg : GithubOrganization.t :=
  orgOf None "pending" [] []
    (GithubOrganization.mkOperations
       [pendingUser "add" "ownerlogin"; pendingUser "remove" "formerowner"] [] []).


(** An error text in which the word "until" occurs twice, the second
    time before a timestamp. *)
Definition untilTwice : string :=
  "secondary rate limit: wait until later; blocked until 2025-12-05 02:02:13 +0000 UTC".

(** The error text of a primary rate limit, as go-github words it. *)
Definition primaryLimit : string :=
  "API rate limit of 5000 still exceeded until 2099-01-01 00:00:00 +0000 UTC, not making remote request. [rate reset in 3m]".





(** A team that has bob and is to have alice. *)
Definition teamWithBob : GithubTeam.t :=
  GithubTeam.mk None (GithubTeam.mkSpec "github-com" "org1" "eng" "eng")
    (GithubTeam.mkStatus "complete" "" 0 [] [mkMember "U2" "bob"]).

Definition alice : Member := mkMember "U1" "Alice".

(** The label that lets owners be added. *)
Definition ownersOn : option (gmap string string) :=
  Some {[ GITHUB_ORG_LABEL_ADD_ORG_OWNER := "true" ]}.

Definition ownerWaiting : GithubOrganization.GithubOrganizationStatusOperations :=
  GithubOrganization.mkOperations [pendingUser "add" "ownerlogin"] [] [].

(** An organization whose status still carries a list of repositories
    written by an earlier version, with an owner waiting to be added;
    and the same organization without the list. *)
Definition legacyOrg : GithubOrganization.t :=
  orgOf ownersOn "pending" [GithubRepository.mk "repo1" []] [] ownerWaiting.

Definition compactOrg : GithubOrganization.t :=
  orgOf ownersOn "pending" [] [] ownerWaiting.


(** An organization one of whose public repositories grants a default
    team another permission than the configured one. *)
Definition driftedOrg : GithubOrganization.t :=
  orgOf None "complete"
    [GithubRepository.mk "repo1" [GithubTeamWithPermission.mk "team-a" "push"]]
    [] (GithubOrganization.mkOperations [] [] []).

(** An organization put on dry run while an owner waits to be added. *)
Definition dryRunOrg : GithubOrganization.t :=
  orgOf (Some {[ GITHUB_ORG_LABEL_DRY_RUN := "true";
                 GITHUB_ORG_LABEL_ADD_ORG_OWNER := "true" ]})
    "pending" [] [] ownerWaiting.

End Examples.

(* ================================================================== *)
(** * Properties *)

Import Examples.

(** ** Strings *)

Lemma eqb_true (a b : string) : String.eqb a b = true <-> a = b.
Proof. apply String.eqb_eq. Qed.

Lemma eqb_false (a b : string) : String.eqb a b = false <-> a <> b.
Proof. apply String.eqb_neq. Qed.

(** ** The repository change calculator *)

Section RepoCalculator.
Import GithubOrganization.
Context (clock : Clock).

(** Claim C9.  When the organization's spec has an empty list of
    default teams for private repositories, or an empty one for public
    repositories, [RepoChangeCalculator] reports a change and returns
    the status as "failed" with the error that names the empty list
    (the private one first), stamped with the time; the operations of
    the status are the ones it had, so nothing is enqueued. *)
Theorem RepoChangeCalculator_empty_defaults
    (g : GithubOrganization.t) (exceptions : list GithubTeamRepository.t) (n : nat) :
  DefaultPrivateRepositoryTeams (Spec g) = []
  \/ DefaultPublicRepositoryTeams (Spec g) = [] ->
  let r := RepoChangeCalculator clock g exceptions n in
  fst (fst r) = true /\
  OrganizationStatus (snd (fst r)) = GithubOrganizationStateFailed /\
  OrganizationStatusError (snd (fst r)) =
    match DefaultPrivateRepositoryTeams (Spec g) with
    | [] => "DefaultPrivateRepositoryTeams is empty"
    | _ :: _ => "DefaultPublicRepositoryTeams is empty"
    end /\
  OrganizationStatusTimestamp (snd (fst r)) = clock n /\
  Operations (snd (fst r)) = Operations (Status g).
Proof.
  intros H. unfold RepoChangeCalculator.
  destruct (DefaultPrivateRepositoryTeams (Spec g)) as [|p ps] eqn:Hpriv.
  - cbn. repeat split.
  - destruct H as [H|H]; [discriminate|]. rewrite H. cbn. repeat split.
Qed.
End RepoCalculator.

Lemma RepoChangeCalculator_empty_defaults_witness :
  GithubOrganization.RepoChangeCalculator (fun _ => 7) orgWithoutDefaults [] 0%nat
  = ((true,
      GithubOrganization.setState (GithubOrganization.Status orgWithoutDefaults)
        "failed" "DefaultPrivateRepositoryTeams is empty" 7), 1%nat)
  /\ GithubOrganization.OrganizationStatus
       (snd (fst (GithubOrganization.RepoChangeCalculator (fun _ => 7)
                    orgWithoutDefaults [] 0%nat))) = "failed".
Proof.
  split; [reflexivity|].
  apply (RepoChangeCalculator_empty_defaults (fun _ => 7) orgWithoutDefaults [] 0%nat).
  left. reflexivity.
Defined.

Section RepoCalculatorDuplicates.
Import GithubOrganization.
Context (clock : Clock).

(** Claim C4 (the code departs from it).  A repository whose only team
    is configured with another permission, with no operation recorded
    before: [repoChangeCalculator] enqueues the removal and the
    addition for that pair twice, once from the loop over the
    configured teams and once from the loop over the repository's
    teams, where the claim has exactly one of each. *)
Theorem repoChangeCalculator_enqueues_replacement_twice
    (repo team actual configured : string) (n : nat) :
  actual <> configured ->
  repoChangeCalculator clock
    [GithubTeamWithPermission.mk team configured]
    [GithubRepository.mk repo [GithubTeamWithPermission.mk team actual]]
    [] [] [] n
  = ([newRemove team repo (clock n);
      newAdd team repo configured (clock (S n));
      newRemove team repo (clock (S (S n)));
      newAdd team repo configured (clock (S (S (S n))))],
     S (S (S (S n)))).
Proof.
  intros Hne. apply eqb_false in Hne.
  unfold repoChangeCalculator, repoStep, effectiveConfig, matchTeam,
    replacePermission, enqueueRemove, enqueueAdd.
  cbn. rewrite !String.eqb_refl, !Hne. reflexivity.
Qed.
End RepoCalculatorDuplicates.

Lemma repoChangeCalculator_enqueues_replacement_twice_witness :
  "pull" <> "push" /\
  List.length
    (fst (GithubOrganization.repoChangeCalculator (fun n => Z.of_nat n)
            [GithubTeamWithPermission.mk "team-a" "push"]
            [GithubRepository.mk "repo1" [GithubTeamWithPermission.mk "team-a" "pull"]]
            [] [] [] 0%nat)) = 4%nat.
Proof.
  split; [discriminate|].
  rewrite (repoChangeCalculator_enqueues_replacement_twice (fun n => Z.of_nat n)
             "repo1" "team-a" "pull" "push" 0%nat); [reflexivity|discriminate].
Defined.

(** ** The providers *)

Section AddTeam.
Import GithubOrganization GithubOrganizationReconciler.
Context (env : Env).

End AddTeam.


(** ** The operation loop of the team reconciler *)

Section TeamAddUser.
Import GithubTeam GithubTeamReconciler.
Context (env : Env).

(** Claim C3 (the code departs from it).  When the request that adds
    a member fails without any HTTP response, [AddUser] reports the
    user as not found, and the reconciler marks the pending operation
    "notfound" with the error "user not found on GitHub", leaving the
    failure flag as it was; the claim has it marked "failed" with the
    error of the request. *)
Theorem AddUser_without_response_is_notfound
    (g : GithubTeam.t) (name user e error : string) (stamp : Time)
    (st : LoopState) (i : nat) (w : World) :
  let op := GithubUserOperation.mk GithubUserOperationTypeAdd user
              GithubUserOperationStatePending error stamp in
  let c := AddTeamMembershipBySlug (slug_Make env name) user in
  notEnabled g GITHUB_TEAMS_LABEL_ADD_USER = false ->
  forge env w c = NoResponse e ->
  AddUser env name user w
    = (inr (false, Some e), mkWorld (readings w) (requests w ++ [c]) (writes w))
  /\ operationStep env g name st i op w
     = (inr (mkLoop
               (<[i := GithubUserOperation.mk GithubUserOperationTypeAdd user
                         GithubUserOperationStateNotFound
                         "user not found on GitHub" (clock env (readings w))]>
                  (ops st))
               true (failed st)),
        afterRequest w c).
Proof.
  intros op c Hgate Hreply.
  assert (HA : AddUser env name user w
    = (inr (false, Some e), mkWorld (readings w) (requests w ++ [c]) (writes w))).
  { unfold AddUser, andThen, send. fold c. rewrite Hreply. reflexivity. }
  split; [exact HA|].
  unfold operationStep. subst op. cbn -[AddUser].
  rewrite Hgate. unfold andThen at 1 2. rewrite HA. reflexivity.
Qed.
End TeamAddUser.

Lemma AddUser_without_response_is_notfound_witness :
  GithubTeamReconciler.operationStep
    (quiet (IsNotFound "") (IsNotFound "") unreachable)
    (teamOf None "pending" [pendingUser "add" "alice"]) "eng"
    (GithubTeamReconciler.mkLoop [pendingUser "add" "alice"] false false)
    0 (pendingUser "add" "alice") initialWorld
  = (inr (GithubTeamReconciler.mkLoop
            [GithubUserOperation.mk "add" "alice" "notfound"
               "user not found on GitHub" newYear2026]
            true false),
     mkWorld 1 [AddTeamMembershipBySlug "eng" "alice"] []).
Proof.
  apply (AddUser_without_response_is_notfound
           (quiet (IsNotFound "") (IsNotFound "") unreachable)
           (teamOf None "pending" [pendingUser "add" "alice"])
           "eng" "alice"
           "dial tcp 140.82.121.6:443: connect: connection refused"
           "" 0 (GithubTeamReconciler.mkLoop [pendingUser "add" "alice"] false false)
           0%nat initialWorld); reflexivity.
Defined.

Section TeamStatusAfterLoop.
Import GithubTeam GithubTeamReconciler.

(** Claim C1 (the code departs from it).  A pending team with an
    addition followed by a removal, removals switched off by the
    label, on a forge that fails the addition: the first operation
    ends "failed", the second "skipped", and the skip resets the
    failure flag, so the status written after the loop is "complete"
    although a failed operation remains in the queue. *)
Theorem complete_written_with_failed_operation :
  let env := quiet (IsNotFound "") (Found teamAddThenRemove) serverError in
  let out := GithubTeamReconciler.run env proceed initialWorld in
  fst out = done /\
  requests (snd out) = [AddTeamMembershipBySlug "eng" "alice"] /\
  exists s,
    writes (snd out) = [TeamStatusUpdate s] /\
    TeamStatus s = GithubTeamStateComplete /\
    GithubUserOperation.State <$> Operations s
      = [GithubUserOperationStateFailed; GithubUserOperationStateSkipped] /\
    FailedOperationsFound (withStatus teamAddThenRemove s) = true /\
    statusFromOperations s = GithubTeamStateFailed.
Proof.
  vm_compute. repeat split. eexists. repeat split.
Qed.
End TeamStatusAfterLoop.

(** ** The operation loops of the organization reconciler *)

Section OwnerGate.
Import GithubOrganization GithubOrganizationReconciler.
Context (env : Env).

Lemma expectStatus_sends (c : ForgeCall) (expected : Z) (what : string) (w : World) :
  exists e, expectStatus env c expected what w
            = (inr e, mkWorld (readings w) (requests w ++ [c]) (writes w)).
Proof.
  unfold expectStatus, andThen, send.
  destruct (forge env w c) as [code [e|]|e]; cbn; eauto.
  destruct (code =? expected); eauto.
Qed.

(** Claim C2 (the code departs from it).  On an organization that
    carries no labels map at all, a pending addition of an owner sends
    the request that makes the user an admin, and a pending removal
    the request that makes the user a member: the gate is closed only
    by a labels map in which the label is not "true".  The claim has
    both operations skipped, with no request, when there is no labels
    map. *)
Theorem owner_gate_open_without_labels
    (g : GithubOrganization.t) (st : LoopState) (i : nat)
    (user error : string) (stamp : Time) (w : World) :
  Labels g = None ->
  (exists st',
     ownerOperationStep env g st i
       (GithubUserOperation.mk GithubUserOperationTypeAdd user
          GithubUserOperationStatePending error stamp) w
     = (inr st', afterRequest w (EditOrgMembership user "admin")))
  /\ (exists st',
     ownerOperationStep env g st i
       (GithubUserOperation.mk GithubUserOperationTypeRemove user
          GithubUserOperationStatePending error stamp) w
     = (inr st', afterRequest w (EditOrgMembership user "member"))).
Proof.
  intros Hl.
  assert (Hadd : notEnabled g GITHUB_ORG_LABEL_ADD_ORG_OWNER = false)
    by (unfold notEnabled; now rewrite Hl).
  assert (Hrem : notEnabled g GITHUB_ORG_LABEL_REMOVE_ORG_OWNER = false)
    by (unfold notEnabled; now rewrite Hl).
  split.
  - destruct (expectStatus_sends (EditOrgMembership user "admin") 200
                "changing user to organization owner" w) as [e He].
    unfold ownerOperationStep. cbn -[ChangeToOwner]. rewrite Hadd.
    unfold ChangeToOwner, changeRole, andThen at 1 2. rewrite He.
    destruct e; cbn; eauto.
  - destruct (expectStatus_sends (EditOrgMembership user "member") 200
                "changing user to organization owner" w) as [e He].
    unfold ownerOperationStep. cbn -[ChangeToMember]. rewrite Hrem.
    unfold ChangeToMember, changeRole, andThen at 1. rewrite He.
    destruct e as [e|]; cbn; [destruct (lastAdmin e)|]; cbn; eauto.
Qed.

(** Where the labels map exists, the gate is as the claim has it: any
    value of the label other than "true", the missing label included,
    marks the operation skipped and sends nothing. *)
Lemma owner_gate_closed_by_labels
    (g : GithubOrganization.t) (m : gmap string string) (st : LoopState) (i : nat)
    (user error : string) (stamp : Time) (w : World) :
  Labels g = Some m ->
  (m !! GITHUB_ORG_LABEL_ADD_ORG_OWNER <> Some "true" ->
   let op := GithubUserOperation.mk GithubUserOperationTypeAdd user
               GithubUserOperationStatePending error stamp in
   ownerOperationStep env g st i op w
   = (inr (settleOwner st i op GithubUserOperationStateSkipped None
             (clock env (readings w)) false (ownerChangeApplied st)),
      afterReading w))
  /\ (m !! GITHUB_ORG_LABEL_REMOVE_ORG_OWNER <> Some "true" ->
   let op := GithubUserOperation.mk GithubUserOperationTypeRemove user
               GithubUserOperationStatePending error stamp in
   ownerOperationStep env g st i op w
   = (inr (settleOwner st i op GithubUserOperationStateSkipped None
             (clock env (readings w)) false (ownerChangeApplied st)),
      afterReading w)).
Proof.
  intros Hl. split; intros Hne op.
  - assert (Hg : notEnabled g GITHUB_ORG_LABEL_ADD_ORG_OWNER = true).
    { unfold notEnabled. rewrite Hl.
      destruct (m !! GITHUB_ORG_LABEL_ADD_ORG_OWNER) as [v|] eqn:E; cbn; [|reflexivity].
      apply negb_true_iff, eqb_false. congruence. }
    unfold ownerOperationStep. subst op. cbn. rewrite Hg. reflexivity.
  - assert (Hg : notEnabled g GITHUB_ORG_LABEL_REMOVE_ORG_OWNER = true).
    { unfold notEnabled. rewrite Hl.
      destruct (m !! GITHUB_ORG_LABEL_REMOVE_ORG_OWNER) as [v|] eqn:E; cbn; [|reflexivity].
      apply negb_true_iff, eqb_false. congruence. }
    unfold ownerOperationStep. subst op. cbn. rewrite Hg. reflexivity.
Qed.
End OwnerGate.

Lemma owner_gate_open_without_labels_witness :
  requests (snd (GithubOrganizationReconciler.run
                   (quiet (Found unlabelledOrg) (IsNotFound "") (fun _ => accept))
                   initialWorld))
  = [EditOrgMembership "ownerlogin" "admin"; EditOrgMembership "formerowner" "member"]
  /\ exists st',
       GithubOrganizationReconciler.ownerOperationStep
         (quiet (Found unlabelledOrg) (IsNotFound "") (fun _ => accept))
         unlabelledOrg
         (GithubOrganizationReconciler.mkLoop
            (GithubOrganization.Status unlabelledOrg) false false false)
         0 (GithubUserOperation.mk "add" "ownerlogin" "pending" "" 0) initialWorld
       = (inr st', afterRequest initialWorld (EditOrgMembership "ownerlogin" "admin")).
Proof.
  split; [vm_compute; reflexivity|].
  apply (owner_gate_open_without_labels
           (quiet (Found unlabelledOrg) (IsNotFound "") (fun _ => accept))
           unlabelledOrg _ 0%nat "ownerlogin" "" 0 initialWorld eq_refl).
Defined.

(** ** The rate-limit parser *)

Section RateLimitParser.
Import RateLimit.

Lemma append_nil (s : string) : "" +:+ s = s.
Proof. reflexivity. Qed.

Lemma append_cons (c : ascii) (a b : string) :
  String c a +:+ b = String c (a +:+ b).
Proof. reflexivity. Qed.

Lemma HasPrefix_app (s p : string) :
  strings.HasPrefix s p = true <-> exists rest, s = p +:+ rest.
Proof.
  revert s. induction p as [|c p IH]; intros s; cbn.
  - split; [intros _; exists s; reflexivity | intros _; now destruct s].
  - destruct s as [|d s]; cbn.
    + split; [discriminate | intros [rest H]; discriminate].
    + rewrite andb_true_iff, IH. split.
      * intros [Hc [rest ->]]. apply Ascii.eqb_eq in Hc as ->.
        exists rest. reflexivity.
      * intros [rest H]. rewrite append_cons in H. injection H as -> ->.
        split; [apply Ascii.eqb_refl | eauto].
Qed.

Lemma Contains_app (s sub : string) :
  strings.Contains s sub = true <-> exists before rest, s = before +:+ sub +:+ rest.
Proof.
  induction s as [|c s IH].
  - cbn [strings.Contains]. rewrite orb_false_r, HasPrefix_app. split.
    + intros [rest H]. exists "", rest. exact H.
    + intros [[|b before] [rest H]]; [eauto | discriminate].
  - cbn [strings.Contains]. rewrite orb_true_iff, HasPrefix_app, IH. split.
    + intros [[rest H] | [before [rest ->]]].
      * exists "", rest. exact H.
      * exists (String c before), rest. reflexivity.
    + intros [[|b before] [rest H]].
      * left. eauto.
      * right. rewrite append_cons in H. injection H as -> ->. eauto.
Qed.

Lemma append_assoc (a b c : string) : (a +:+ b) +:+ c = a +:+ (b +:+ c).
Proof.
  induction a as [|x a IH]; [reflexivity|].
  now rewrite !append_cons, IH.
Qed.

Lemma Contains_suffix (s a b : string) :
  strings.Contains s (a +:+ b) = true -> strings.Contains s b = true.
Proof.
  rewrite !Contains_app. intros [before [rest ->]].
  exists (before +:+ a), rest. now rewrite !append_assoc.
Qed.

Lemma invitation_phrases (lowered : string) :
  strings.Contains lowered "organization invitation rate limit"
  || strings.Contains lowered "invitation rate limit"
  || strings.Contains lowered "exceeded the organization invitation rate limit"
  = strings.Contains lowered "organization invitation rate limit"
    || strings.Contains lowered "invitation rate limit".
Proof.
  destruct (strings.Contains lowered
              "exceeded the organization invitation rate limit") eqn:E.
  - apply (Contains_suffix lowered "exceeded the "
             "organization invitation rate limit") in E.
    rewrite E. reflexivity.
  - now rewrite orb_false_r.
Qed.

(** *** What the pattern captures *)

Lemma takeWhile_dropWhile (p : ascii -> bool) (s : string) :
  s = takeWhile p s +:+ dropWhile p s.
Proof.
  induction s as [|c s IH]; cbn; [reflexivity|].
  destruct (p c); [rewrite append_cons; congruence | reflexivity].
Qed.

Lemma takeWhile_idem (p : ascii -> bool) (s : string) :
  takeWhile p (takeWhile p s) = takeWhile p s.
Proof.
  induction s as [|c s IH]; cbn; [reflexivity|].
  destruct (p c) eqn:E; cbn; [rewrite E; congruence | reflexivity].
Qed.

Lemma takeWhile_dropWhile_empty (p : ascii -> bool) (s : string) :
  takeWhile p (dropWhile p s) = "".
Proof.
  induction s as [|c s IH]; cbn; [reflexivity|].
  destruct (p c) eqn:E; cbn; [exact IH | now rewrite E].
Qed.

Lemma reSpace_reField (c : ascii) : reSpace c = true -> reField c = true.
Proof.
  destruct c as [[] [] [] [] [] [] [] []]; vm_compute; congruence.
Qed.

(** A run of white space, cut before its last character. *)
Lemma split_last (ws : string) (a b : ascii) (r : string) :
  ws = String a (String b r) -> allOf reSpace ws ->
  exists init l,
    ws = init +:+ String l "" /\ lastChar ws = String l "" /\
    init <> "" /\ allOf reSpace init /\ reSpace l = true.
Proof.
  intros -> H. revert a b H.
  induction r as [|c r IH]; intros a b H.
  - exists (String a ""), b. unfold allOf in *. cbn in *.
    destruct (reSpace a) eqn:Ea; [|discriminate].
    destruct (reSpace b) eqn:Eb; [|discriminate]. repeat split; congruence.
  - unfold allOf in H. cbn in H.
    destruct (reSpace a) eqn:Ea; [|discriminate].
    injection H as H.
    destruct (IH b c) as (init & l & H1 & H2 & H3 & H4 & H5).
    { unfold allOf. cbn. exact H. }
    exists (String a init), l. repeat split.
    + rewrite append_cons. now rewrite <- H1.
    + exact H2.
    + discriminate.
    + unfold allOf. cbn. rewrite Ea. unfold allOf in H4. congruence.
    + exact H5.
Qed.

Lemma matchField_sound (s field : string) :
  matchField s = Some field -> capturedAfter "" field ("until" +:+ s).
Proof.
  unfold matchField, capturedAfter. intros H.
  pose proof (takeWhile_dropWhile reSpace s) as Hs.
  pose proof (takeWhile_idem reSpace s) as Hws.
  destruct (takeWhile reSpace s) as [|a ws'] eqn:Ews; [discriminate|].
  pose proof (takeWhile_dropWhile reField (dropWhile reSpace s)) as Hr.
  destruct (takeWhile reField (dropWhile reSpace s)) as [|f fs] eqn:Ef.
  - destruct ws' as [|b ws'']; [discriminate|].
    assert (field = lastChar (String a (String b ws''))) as -> by congruence.
    clear H.
    destruct (split_last _ a b ws'' eq_refl Hws) as (init & l & H1 & H2 & H3 & H4 & H5).
    exists init, (dropWhile reSpace s). rewrite H2. repeat split; try assumption.
    + rewrite append_nil. f_equal. rewrite Hs at 1. rewrite H1.
      now rewrite !append_assoc.
    + discriminate.
    + unfold allOf. cbn. now rewrite (reSpace_reField _ H5).
  - assert (field = String f fs) as -> by (destruct ws'; congruence).
    clear H.
    exists (String a ws'), (dropWhile reField (dropWhile reSpace s)).
    repeat split.
    + rewrite append_nil. f_equal. rewrite Hs at 1. f_equal. exact Hr.
    + discriminate.
    + exact Hws.
    + discriminate.
    + unfold allOf. rewrite <- Ef. apply takeWhile_idem.
    + apply takeWhile_dropWhile_empty.
Qed.

Lemma afterUntil_Some (s r : string) : afterUntil s = Some r -> s = "until" +:+ r.
Proof.
  unfold afterUntil. intros H.
  repeat match type of H with
         | match ?x with _ => _ end = _ => destruct x; try discriminate
         end.
  now injection H as ->.
Qed.

Lemma capturedAfter_cons (c : ascii) (before field s : string) :
  capturedAfter before field s -> capturedAfter (String c before) field (String c s).
Proof.
  intros (ws & rest & -> & H). exists ws, rest. split; [reflexivity | exact H].
Qed.

Lemma FindStringSubmatch_sound (s field : string) :
  FindStringSubmatch s = Some field -> exists before, capturedAfter before field s.
Proof.
  induction s as [|c s IH]; cbn [FindStringSubmatch].
  - cbn. discriminate.
  - destruct (afterUntil (String c s)) as [r|] eqn:Ea.
    + destruct (matchField r) as [f|] eqn:Em.
      * intros [= <-]. exists "". apply afterUntil_Some in Ea. rewrite Ea.
        now apply matchField_sound.
      * intros H. destruct (IH H) as [before Hb].
        exists (String c before). now apply capturedAfter_cons.
    + intros H. destruct (IH H) as [before Hb].
      exists (String c before). now apply capturedAfter_cons.
Qed.

Context (clock : Clock) (parse : string -> string -> option Time).

(** The parser as a decision on three tests. *)
Lemma parseGitHubRateLimitReset_unfolded (errStr : string) (n : nat) :
  parseGitHubRateLimitReset clock parse errStr n =
    if strings.Contains (strings.ToLower errStr) "organization invitation rate limit"
       || strings.Contains (strings.ToLower errStr) "invitation rate limit"
    then ((Time_Add (clock n) Hour, true), S n)
    else if strings.Contains (strings.ToLower errStr) "rate limit"
            && strings.Contains (strings.ToLower errStr) "until "
    then match FindStringSubmatch errStr with
         | Some field =>
             match parseAny parse layouts (strings.TrimSpace field) with
             | Some t => ((t, true), n)
             | None => ((zeroTime, false), n)
             end
         | None => ((zeroTime, false), n)
         end
    else ((zeroTime, false), n).
Proof.
  unfold parseGitHubRateLimitReset.
  destruct (String.eqb errStr "") eqn:E.
  - apply eqb_true in E. subst errStr. reflexivity.
  - rewrite invitation_phrases.
    destruct (strings.Contains (strings.ToLower errStr)
                "organization invitation rate limit"
              || strings.Contains (strings.ToLower errStr) "invitation rate limit");
      [reflexivity|].
    destruct (strings.Contains (strings.ToLower errStr) "rate limit");
      destruct (strings.Contains (strings.ToLower errStr) "until ");
      cbn [negb orb andb]; try reflexivity.
    destruct (FindStringSubmatch errStr) as [field|]; [|reflexivity].
    destruct (parseAny parse layouts (strings.TrimSpace field)); reflexivity.
Qed.

(** Claim C7, amended.  The parser reports a rate limit exactly when
    either (a) the text, in lower case, contains "invitation rate
    limit" (with or without "organization" before it), and then the
    reset is one hour after the clock reading it takes; or (b) the
    text, in lower case, contains "rate limit" and "until ", and the
    field captured by the first match of [until\s+([^,\]]+)] in
    the text as it is, trimmed, parses under one of the three layouts,
    and then the reset is that time.  In every other case it answers
    the zero time and false.  The captured field follows an "until"
    and white space, and runs up to a comma, a closing bracket or the
    end of the text. *)
Theorem parseGitHubRateLimitReset_recognises (errStr : string) (n : nat) :
  let lowered := strings.ToLower errStr in
  let r := parseGitHubRateLimitReset clock parse errStr n in
  let stamped t :=
    strings.Contains lowered "rate limit" = true /\
    strings.Contains lowered "until " = true /\
    exists field, FindStringSubmatch errStr = Some field /\
                  parseAny parse layouts (strings.TrimSpace field) = Some t in
  (snd (fst r) = true <-> namesInvitationLimit errStr \/ exists t, stamped t) /\
  (namesInvitationLimit errStr -> r = ((Time_Add (clock n) Hour, true), S n)) /\
  (~ namesInvitationLimit errStr -> forall t, stamped t -> r = ((t, true), n)) /\
  (snd (fst r) = false -> r = ((zeroTime, false), n)) /\
  (forall field, FindStringSubmatch errStr = Some field ->
     exists before, capturedAfter before field errStr).
Proof.
  intros lowered r stamped.
  assert (Hinv : namesInvitationLimit errStr <->
                 strings.Contains lowered "organization invitation rate limit"
                 || strings.Contains lowered "invitation rate limit" = true).
  { unfold namesInvitationLimit. fold lowered. now rewrite orb_true_iff. }
  assert (Hr : r = _) by apply parseGitHubRateLimitReset_unfolded.
  fold lowered in Hr.
  assert (Hst : forall t, stamped t ->
            strings.Contains lowered "rate limit"
            && strings.Contains lowered "until " = true /\
            exists field, FindStringSubmatch errStr = Some field /\
              parseAny parse layouts (strings.TrimSpace field) = Some t).
  { intros t (H1 & H2 & H3). rewrite H1, H2. auto. }
  repeat split.
  - rewrite Hr, Hinv.
    destruct (strings.Contains lowered "organization invitation rate limit"
              || strings.Contains lowered "invitation rate limit"); [auto|].
    destruct (strings.Contains lowered "rate limit") eqn:E1;
      destruct (strings.Contains lowered "until ") eqn:E2; cbn [andb fst snd];
      try (intros H; discriminate H).
    destruct (FindStringSubmatch errStr) as [field|] eqn:E3;
      [|intros H; discriminate H].
    destruct (parseAny parse layouts (strings.TrimSpace field)) as [t|] eqn:E4;
      [|intros H; discriminate H].
    intros _. right. exists t. subst stamped. cbn beta.
    repeat split; eauto.
  - rewrite Hr, Hinv. intros [H | [t Ht]]; [now rewrite H|].
    destruct (strings.Contains lowered "organization invitation rate limit"
              || strings.Contains lowered "invitation rate limit"); [reflexivity|].
    destruct (Hst t Ht) as [-> (field & -> & ->)]. reflexivity.
  - rewrite Hr, Hinv. now intros ->.
  - rewrite Hr, Hinv. intros Hn t Ht.
    destruct (strings.Contains lowered "organization invitation rate limit"
              || strings.Contains lowered "invitation rate limit");
      [now destruct Hn|].
    destruct (Hst t Ht) as [-> (field & -> & ->)]. reflexivity.
  - rewrite Hr.
    destruct (strings.Contains lowered "organization invitation rate limit"
              || strings.Contains lowered "invitation rate limit");
      [intros H; discriminate H|].
    destruct (strings.Contains lowered "rate limit"
              && strings.Contains lowered "until "); [|reflexivity].
    destruct (FindStringSubmatch errStr) as [field|]; [|reflexivity].
    destruct (parseAny parse layouts (strings.TrimSpace field));
      [intros H; discriminate H|].
    reflexivity.
  - apply FindStringSubmatch_sound.
Qed.
End RateLimitParser.

(** Claim C7, as stated, fails: the text names a rate limit and holds
    "until " followed by a timestamp that parses, yet the parser, which
    reads the field after the first "until", reports no rate limit. *)
Lemma second_until_not_recognised :
  (exists t, RateLimit.namesResetTime parseLayout untilTwice t) /\
  RateLimit.parseGitHubRateLimitReset (fun _ => newYear2026) parseLayout
    untilTwice 0%nat = ((zeroTime, false), 0%nat).
Proof.
  split; [|vm_compute; reflexivity].
  exists 1764900133000000000. split; [vm_compute; reflexivity|].
  exists "secondary rate limit: wait until later; blocked ",
         "2025-12-05 02:02:13 +0000 UTC", "".
  split; vm_compute; reflexivity.
Qed.

Lemma parseGitHubRateLimitReset_recognises_witness :
  RateLimit.parseGitHubRateLimitReset (fun _ => newYear2026) parseLayout
    primaryLimit 0%nat = ((4070908800000000000, true), 0%nat).
Proof.
  apply (proj1 (proj2 (proj2
           (parseGitHubRateLimitReset_recognises (fun _ => newYear2026) parseLayout
              primaryLimit 0%nat)))).
  - intros [H|H]; vm_compute in H; discriminate.
  - split; [vm_compute; reflexivity|].
    split; [vm_compute; reflexivity|].
    exists "2099-01-01 00:00:00 +0000 UTC".
    split; vm_compute; reflexivity.
Defined.

(** ** The rate-limit gate of the two reconcilers *)

Section RateLimitGate.
Context (env : Env).









End RateLimitGate.


(** ** The team's change calculator *)

Section TeamCalculator.
Import GithubTeam.
Context (clock : Clock).

Lemma EqualFold_sameUser (a b : string) :
  strings.EqualFold a b = true <-> sameUser a b.
Proof. unfold strings.EqualFold, sameUser. apply eqb_true. Qed.

Lemma EqualFold_refl (a : string) : strings.EqualFold a a = true.
Proof. now apply EqualFold_sameUser. Qed.

(** Everything the loops ask about a login depends on its lower-case
    form only. *)
Lemma EqualFold_same_r (a u v : string) :
  sameUser u v -> strings.EqualFold a u = strings.EqualFold a v.
Proof. unfold strings.EqualFold, sameUser. now intros ->. Qed.

Lemma operationExists_same (kind : string) (states : list string)
    (ops : list GithubUserOperation.t) (u v : string) :
  sameUser u v -> operationExists kind states ops u = operationExists kind states ops v.
Proof.
  intros H. unfold operationExists. induction ops as [|op ops IH]; [reflexivity|].
  cbn [existsb]. now rewrite IH, (EqualFold_same_r _ u v H).
Qed.

Lemma queued_same (kind : string) (ops : list GithubUserOperation.t) (u v : string) :
  sameUser u v -> queued kind u ops = queued kind v ops.
Proof.
  intros H. unfold queued. induction ops as [|op ops IH]; [reflexivity|].
  cbn [List.filter]. rewrite (EqualFold_same_r _ u v H).
  destruct (_ && _); cbn [List.length]; congruence.
Qed.

Lemma passed_same (seen : list Member) (u v : string) :
  sameUser u v -> passed seen u = passed seen v.
Proof.
  intros H. unfold passed. induction seen as [|d seen IH]; [reflexivity|].
  cbn [existsb]. now rewrite IH, (EqualFold_same_r _ u v H).
Qed.

Lemma operationExists_app (kind : string) (states : list string)
    (l1 l2 : list GithubUserOperation.t) (u : string) :
  operationExists kind states (l1 ++ l2) u
  = operationExists kind states l1 u || operationExists kind states l2 u.
Proof. unfold operationExists. apply existsb_app. Qed.

Lemma queued_app (kind u : string) (l1 l2 : list GithubUserOperation.t) :
  queued kind u (l1 ++ l2) = (queued kind u l1 + queued kind u l2)%nat.
Proof. unfold queued. now rewrite List.filter_app, length_app. Qed.

Lemma operationExists_pending (kind : string) (states : list string)
    (new : list GithubUserOperation.t) (u : string) :
  Forall (pendingOf kind) new ->
  existsb (String.eqb GithubUserOperationStatePending) states = true ->
  operationExists kind states new u = negb (queued kind u new =? 0)%nat.
Proof.
  intros Hall Hst. unfold operationExists, queued.
  induction Hall as [|op new [Hk [Hs He]] Hall IH]; [reflexivity|].
  cbn [existsb List.filter]. rewrite IH, Hk, Hs, Hst, String.eqb_refl.
  rewrite andb_true_r. cbn [andb].
  destruct (strings.EqualFold (GithubUserOperation.User op) u); reflexivity.
Qed.

Lemma operationExists_other_kind (kind kind' : string) (states : list string)
    (new : list GithubUserOperation.t) (u : string) :
  Forall (pendingOf kind') new -> kind' <> kind ->
  operationExists kind states new u = false.
Proof.
  intros Hall Hne. unfold operationExists.
  induction Hall as [|op new [Hk [Hs He]] Hall IH]; [reflexivity|].
  cbn [existsb]. rewrite IH, Hk. apply eqb_false in Hne. rewrite Hne.
  now rewrite andb_false_r.
Qed.

Lemma queued_other_kind (kind kind' u : string) (new : list GithubUserOperation.t) :
  Forall (pendingOf kind') new -> kind' <> kind -> queued kind u new = 0%nat.
Proof.
  intros Hall Hne. unfold queued.
  induction Hall as [|op new [Hk [Hs He]] Hall IH]; [reflexivity|].
  cbn [List.filter]. rewrite Hk. apply eqb_false in Hne. now rewrite Hne.
Qed.

Section Loop.
Context (kind : string) (states : list string) (skip : string -> bool)
  (base : list GithubUserOperation.t).
Hypothesis skip_same : forall u v, sameUser u v -> skip u = skip v.
Hypothesis pending_tracked :
  existsb (String.eqb GithubUserOperationStatePending) states = true.

Lemma eligible_same (u v : string) :
  sameUser u v -> eligible kind states skip base u = eligible kind states skip base v.
Proof.
  intros H. unfold eligible.
  now rewrite (skip_same u v H), (operationExists_same _ _ _ u v H).
Qed.

Local Abbreviation loopInvariant := (loopInvariant kind states skip base).

Lemma passed_snoc (seen : list Member) (d : Member) (u : string) :
  passed (seen ++ [d]) u = passed seen u || strings.EqualFold (GithubUsername d) u.
Proof. unfold passed. rewrite existsb_app. cbn. now rewrite orb_false_r. Qed.

Lemma diffStep_invariant (seen : list Member) (new : list GithubUserOperation.t)
    (flag : bool) (n : nat) (d : Member) :
  loopInvariant seen new ->
  exists ext flag' n',
    diffStep clock kind states skip (base ++ new, flag) d n
      = ((base ++ new ++ ext, flag'), n') /\
    loopInvariant (seen ++ [d]) (new ++ ext) /\
    flag' = flag || negb (List.length ext =? 0)%nat.
Proof.
  intros [Hall Hq]. set (u0 := GithubUsername d).
  assert (Hsame : forall u, strings.EqualFold u0 u = true -> sameUser u0 u)
    by (intros u; apply EqualFold_sameUser).
  unfold diffStep. fold u0. cbn [fst].
  destruct (skip u0) eqn:Hskip.
  { exists [], flag, n. rewrite !app_nil_r, orb_false_r.
    split; [reflexivity|]. split; [|reflexivity]. split; [exact Hall|].
    intros u. rewrite Hq, passed_snoc. fold u0.
    destruct (strings.EqualFold u0 u) eqn:E; [|now rewrite orb_false_r].
    unfold eligible. rewrite <- (skip_same u0 u (Hsame u E)), Hskip.
    cbn [negb andb]. now rewrite !andb_false_r. }
  rewrite operationExists_app.
  rewrite (operationExists_pending kind states new u0 Hall pending_tracked).
  destruct (operationExists kind states base u0) eqn:Hbase.
  { exists [], flag, n. rewrite !app_nil_r, orb_false_r.
    split; [reflexivity|]. split; [|reflexivity]. split; [exact Hall|].
    intros u. rewrite Hq, passed_snoc. fold u0.
    destruct (strings.EqualFold u0 u) eqn:E; [|now rewrite orb_false_r].
    unfold eligible.
    rewrite <- (operationExists_same kind states base u0 u (Hsame u E)), Hbase.
    cbn [negb]. now rewrite !andb_false_r. }
  cbn [orb].
  assert (Hel : eligible kind states skip base u0 = true)
    by (unfold eligible; now rewrite Hskip, Hbase).
  destruct (queued kind u0 new =? 0)%nat eqn:Hz; cbn [negb].
  - (* nothing queued for the login yet: append *)
    apply Nat.eqb_eq in Hz.
    assert (Hp : passed seen u0 = false).
    { specialize (Hq u0). rewrite Hz, Hel, andb_true_r in Hq.
      destruct (passed seen u0); [discriminate | reflexivity]. }
    unfold appendPending, bind, metav1_Now, ret. cbn [fst].
    eexists [_], true, (S n). rewrite <- app_assoc.
    split; [reflexivity|]. split; [|now rewrite orb_true_r].
    split.
    + apply Forall_app. split; [exact Hall|].
      constructor; [|constructor]. repeat split.
    + intros u. rewrite queued_app, passed_snoc. fold u0.
      unfold queued at 2. cbn [List.filter GithubUserOperation.Operation
                                GithubUserOperation.User].
      rewrite String.eqb_refl. cbn [andb].
      destruct (strings.EqualFold u0 u) eqn:E.
      * rewrite orb_true_r. cbn [andb].
        rewrite <- (eligible_same u0 u (Hsame u E)), Hel.
        rewrite <- (queued_same kind new u0 u (Hsame u E)), Hz. reflexivity.
      * rewrite orb_false_r, Hq. cbn [List.length]. lia.
  - (* an operation appended earlier tracks the login *)
    apply Nat.eqb_neq in Hz.
    assert (Hp : passed seen u0 = true).
    { specialize (Hq u0). destruct (passed seen u0); [reflexivity|].
      cbn [andb] in Hq. lia. }
    exists [], flag, n. rewrite !app_nil_r, orb_false_r.
    split; [reflexivity|]. split; [|reflexivity]. split; [exact Hall|].
    intros u. rewrite Hq, passed_snoc. fold u0.
    destruct (strings.EqualFold u0 u) eqn:E; [|now rewrite orb_false_r].
    rewrite <- (passed_same seen u0 u (Hsame u E)), Hp. reflexivity.
Qed.

Lemma diffLoop_invariant (rest : list Member) :
  forall (seen : list Member) (new : list GithubUserOperation.t)
         (flag : bool) (n : nat),
    loopInvariant seen new ->
    exists ext flag' n',
      forEach (diffStep clock kind states skip) rest (base ++ new, flag) n
        = ((base ++ new ++ ext, flag'), n') /\
      loopInvariant (seen ++ rest) (new ++ ext) /\
      flag' = flag || negb (List.length ext =? 0)%nat.
Proof.
  induction rest as [|d rest IH]; intros seen new flag n Hinv.
  - exists [], flag, n. rewrite !app_nil_r, orb_false_r. auto.
  - destruct (diffStep_invariant seen new flag n d Hinv)
      as (ext1 & flag1 & n1 & Hstep & Hinv1 & Hflag1).
    destruct (IH (seen ++ [d]) (new ++ ext1) flag1 n1 Hinv1)
      as (ext2 & flag2 & n2 & Hloop & Hinv2 & Hflag2).
    exists (ext1 ++ ext2), flag2, n2.
    cbn [forEach]. unfold bind at 1. rewrite Hstep.
    rewrite <- !app_assoc in *. rewrite Hloop.
    split; [reflexivity|]. split; [exact Hinv2|].
    rewrite Hflag2, Hflag1, length_app.
    destruct flag, ext1, ext2; reflexivity.
Qed.
End Loop.

(** *** The maps of the calculator *)

Lemma membersMap_lookup (members : list Member) (k : string) :
  isSome (membersMap members !! k) = true
  <-> exists m, m ∈ members /\ strings.ToLower (GithubUsername m) = k.
Proof.
  unfold membersMap.
  assert (H : forall (m0 : gmap string Member),
             is_Some (foldl (fun m x => <[strings.ToLower (GithubUsername x) := x]> m)
                        m0 members !! k)
             <-> is_Some (m0 !! k)
                 \/ exists m, m ∈ members /\ strings.ToLower (GithubUsername m) = k).
  { induction members as [|x members IH]; intros m0; cbn [foldl].
    - split; [auto | intros [H | (m & Hm & _)]; [exact H | inversion Hm]].
    - rewrite IH, lookup_insert_is_Some. split.
      + intros [[Hk | [_ Hs]] | (m & Hm & Hk)].
        * right. exists x. split; [left | exact Hk].
        * left. exact Hs.
        * right. exists m. split; [now right | exact Hk].
      + intros [Hs | (m & Hm & Hk)].
        * destruct (decide (strings.ToLower (GithubUsername x) = k)); auto.
        * apply elem_of_cons in Hm as [-> | Hm]; [auto | right; eauto]. }
  specialize (H ∅). rewrite lookup_empty in H.
  destruct (foldl _ ∅ members !! k) eqn:E; cbn [isSome].
  - split; [intros _ | reflexivity].
    destruct (proj1 H (mk_is_Some _ _ eq_refl)) as [[? Hx] | Hx];
      [discriminate | exact Hx].
  - split; [discriminate | intros Hx].
    destruct (proj2 H (or_intror Hx)) as [? Hy]. discriminate.
Qed.

Lemma not_among (members : list Member) (u : string) :
  isSome (membersMap members !! strings.ToLower u) = false
  <-> ~ amongMembers members u.
Proof.
  rewrite <- not_true_iff_false, membersMap_lookup. reflexivity.
Qed.

Lemma operationExists_tracked (kind : string) (states : list string)
    (ops : list GithubUserOperation.t) (u : string) :
  operationExists kind states ops u = true <-> tracked kind states ops u.
Proof.
  unfold operationExists, tracked. rewrite existsb_exists. split.
  - intros (op & Hin & H). apply andb_true_iff in H as [H Hs].
    apply andb_true_iff in H as [Hu Hk].
    apply existsb_exists in Hs as (s & Hs & Heq).
    apply eqb_true in Heq as <-.
    exists op. repeat split.
    + now apply list_elem_of_In.
    + now apply EqualFold_sameUser.
    + now apply eqb_true.
    + now apply list_elem_of_In.
  - intros (op & Hin & Hu & Hk & Hs). exists op. split; [now apply list_elem_of_In|].
    rewrite !andb_true_iff. repeat split.
    + now apply EqualFold_sameUser.
    + now apply eqb_true.
    + apply existsb_exists. exists (GithubUserOperation.State op).
      split; [now apply list_elem_of_In | apply String.eqb_refl].
Qed.

Lemma markedNotFound_snoc (ops : list GithubUserOperation.t)
    (op : GithubUserOperation.t) (u : string) :
  markedNotFound (ops ++ [op]) u
  <-> (sameUser (GithubUserOperation.User op) u /\
       GithubUserOperation.State op = GithubUserOperationStateNotFound)
      \/ (~ sameUser (GithubUserOperation.User op) u /\ markedNotFound ops u).
Proof.
  split.
  - intros (before & op0 & after & Heq & Hu & Hs & Hafter).
    destruct after as [|x after _] using rev_ind.
    + apply app_inj_tail in Heq as [_ <-]. left. auto.
    + rewrite app_comm_cons, app_assoc in Heq.
      apply app_inj_tail in Heq as [-> <-]. right. split.
      * apply Hafter. apply elem_of_app. right. now left.
      * exists before, op0, after. repeat split; auto.
        intros op' Hin. apply Hafter. apply elem_of_app. now left.
  - intros [[Hu Hs] | [Hn (before & op0 & after & -> & Hu & Hs & Hafter)]].
    + exists ops, op, []. repeat split; auto. intros op' Hin. inversion Hin.
    + exists before, op0, (after ++ [op]). rewrite <- app_assoc. repeat split; auto.
      intros op' Hin. apply elem_of_app in Hin as [Hin | Hin]; [now apply Hafter|].
      apply list_elem_of_singleton in Hin as ->. exact Hn.
Qed.

Lemma stateMap_marked (ops : list GithubUserOperation.t) (u : string) :
  String.eqb (default "" (buildUserOperationStateMap ops !! strings.ToLower u))
    GithubUserOperationStateNotFound = true
  <-> markedNotFound ops u.
Proof.
  induction ops as [|op ops IH] using rev_ind.
  - unfold buildUserOperationStateMap. cbn [foldl]. rewrite lookup_empty.
    split; [discriminate|].
    intros (before & op0 & after & Heq & _). now destruct before.
  - rewrite markedNotFound_snoc. unfold buildUserOperationStateMap in *.
    rewrite foldl_app. cbn [foldl]. rewrite lookup_insert. unfold sameUser.
    destruct (decide (strings.ToLower (GithubUserOperation.User op)
                      = strings.ToLower u)) as [Heq | Hne]; cbn [default].
    + rewrite eqb_true. split; [auto | intros [[_ H] | [H _]]; [exact H | contradiction]].
    + rewrite IH. split; [auto | intros [[H _] | [_ H]]; [contradiction | exact H]].
Qed.

(** *** The two loops are instances of the shared shape *)

Lemma forEach_ext {A B : Type} (f g : B -> A -> ST nat B) (l : list A) :
  (forall acc x n, f acc x n = g acc x n) ->
  forall acc n, forEach f l acc n = forEach g l acc n.
Proof.
  intros H. induction l as [|x l IH]; intros acc n; [reflexivity|].
  cbn [forEach]. unfold bind. rewrite H. destruct (g acc x n). apply IH.
Qed.

Lemma additionStep_diffStep (cm : gmap string Member) (um : gmap string string)
    (acc : list GithubUserOperation.t * bool) (d : Member) (n : nat) :
  additionStep clock cm um acc d n
  = diffStep clock GithubUserOperationTypeAdd addStates (skipAddition cm um) acc d n.
Proof.
  unfold additionStep, diffStep, skipAddition.
  destruct (String.eqb _ GithubUserOperationStateNotFound); [reflexivity|].
  cbn [orb]. destruct (cm !! _); reflexivity.
Qed.

Lemma removalStep_diffStep (dm : gmap string Member)
    (acc : list GithubUserOperation.t * bool) (m : Member) (n : nat) :
  removalStep clock dm acc m n
  = diffStep clock GithubUserOperationTypeRemove removeStates (skipRemoval dm) acc m n.
Proof.
  unfold removalStep, diffStep, skipRemoval. destruct (dm !! _); reflexivity.
Qed.

Lemma skipAddition_same (cm : gmap string Member) (um : gmap string string)
    (u v : string) :
  sameUser u v -> skipAddition cm um u = skipAddition cm um v.
Proof. unfold skipAddition, sameUser. now intros ->. Qed.

Lemma skipRemoval_same (dm : gmap string Member) (u v : string) :
  sameUser u v -> skipRemoval dm u = skipRemoval dm v.
Proof. unfold skipRemoval, sameUser. now intros ->. Qed.

Lemma passed_member (l : list Member) (d : Member) :
  d ∈ l -> passed l (GithubUsername d) = true.
Proof.
  intros Hin. unfold passed. apply existsb_exists. exists d.
  split; [now apply list_elem_of_In | apply EqualFold_refl].
Qed.

(** The calculator, as the operations it had followed by those of the
    two loops. *)
Lemma ChangeCalculator_loops (github : GithubTeam.t) (desiredMembers : list Member)
    (n : nat) :
  let operations := Operations (Status github) in
  let members := Members (Status github) in
  let skipA := skipAddition (membersMap members)
                 (buildUserOperationStateMap operations) in
  let skipR := skipRemoval (membersMap desiredMembers) in
  exists newA newR,
    Operations (snd (fst (ChangeCalculator clock github desiredMembers n)))
      = operations ++ newA ++ newR /\
    fst (fst (ChangeCalculator clock github desiredMembers n))
      = negb (List.length (newA ++ newR) =? 0)%nat /\
    loopInvariant GithubUserOperationTypeAdd addStates skipA operations
      desiredMembers newA /\
    loopInvariant GithubUserOperationTypeRemove removeStates skipR
      (operations ++ newA) members newR.
Proof.
  intros operations members skipA skipR.
  destruct (diffLoop_invariant GithubUserOperationTypeAdd addStates skipA operations
              (skipAddition_same _ _) eq_refl desiredMembers [] [] false n)
    as (newA & flagA & n1 & HloopA & HinvA & HflagA).
  { split; [constructor | intros u; reflexivity]. }
  destruct (diffLoop_invariant GithubUserOperationTypeRemove removeStates skipR
              (operations ++ newA) (skipRemoval_same _) eq_refl members [] []
              flagA n1)
    as (newR & flagR & n2 & HloopR & HinvR & HflagR).
  { split; [constructor | intros u; reflexivity]. }
  cbn [app] in *. rewrite app_nil_r in HloopA, HloopR.
  exists newA, newR.
  assert (Hcc : ChangeCalculator clock github desiredMembers n
    = if flagR
      then ((true, withTeamStatus
                     (withOperations (Status github) (operations ++ newA ++ newR))
                     GithubTeamStatePendingOperations (clock n2)), S n2)
      else ((false, withOperations (Status github) (operations ++ newA ++ newR)),
            n2)).
  { unfold ChangeCalculator. unfold bind at 1.
    rewrite (forEach_ext _ _ desiredMembers
               (additionStep_diffStep (membersMap members)
                  (buildUserOperationStateMap operations))).
    fold operations members skipA. rewrite HloopA.
    unfold bind at 1.
    rewrite (forEach_ext _ _ members
               (removalStep_diffStep (membersMap desiredMembers))).
    fold skipR. rewrite HloopR. cbn [fst snd].
    rewrite <- app_assoc. destruct flagR; reflexivity. }
  assert (Hflag : flagR = negb (List.length (newA ++ newR) =? 0)%nat).
  { rewrite HflagR, HflagA, length_app. destruct newA, newR; reflexivity. }
  rewrite Hcc, <- Hflag.
  destruct flagR; cbn [fst snd Operations withTeamStatus withOperations]; auto.
Qed.

(** Claim C5.  [ChangeCalculator] keeps the operations it finds and
    appends pending ones.  For a desired member who is not among the
    observed members it appends one "add" operation, unless an "add"
    operation for that login (case ignored) is in state pending,
    complete, skipped or notfound, or the login is marked not found; for
    an observed member who is not among the desired members it appends
    one "remove" operation, unless a "remove" operation for that login
    is in state pending, complete or skipped; and no "add" is queued for
    a login that is marked not found or has a notfound "add" operation.
    Where notfound is a state of "add" operations only, as the
    reconciler leaves it, the mark is itself a tracked "add". *)
Theorem ChangeCalculator_tracks_differences
    (github : GithubTeam.t) (desiredMembers : list Member) (n : nat) :
  let operations := Operations (Status github) in
  let members := Members (Status github) in
  let r := ChangeCalculator clock github desiredMembers n in
  let add := GithubUserOperationTypeAdd in
  let remove := GithubUserOperationTypeRemove in
  exists new,
    Operations (snd (fst r)) = operations ++ new /\
    Forall (fun op => pendingOf add op \/ pendingOf remove op) new /\
    (fst (fst r) = true <-> new <> []) /\
    (forall d, d ∈ desiredMembers ->
       ~ amongMembers members (GithubUsername d) ->
       (tracked add addStates operations (GithubUsername d)
        \/ markedNotFound operations (GithubUsername d) ->
        queued add (GithubUsername d) new = 0%nat) /\
       (~ tracked add addStates operations (GithubUsername d) ->
        ~ markedNotFound operations (GithubUsername d) ->
        queued add (GithubUsername d) new = 1%nat)) /\
    (forall m, m ∈ members ->
       ~ amongMembers desiredMembers (GithubUsername m) ->
       (tracked remove removeStates operations (GithubUsername m) ->
        queued remove (GithubUsername m) new = 0%nat) /\
       (~ tracked remove removeStates operations (GithubUsername m) ->
        queued remove (GithubUsername m) new = 1%nat)) /\
    (forall u,
       markedNotFound operations u
       \/ tracked add [GithubUserOperationStateNotFound] operations u ->
       queued add u new = 0%nat) /\
    ((forall op, op ∈ operations ->
        GithubUserOperation.State op = GithubUserOperationStateNotFound ->
        GithubUserOperation.Operation op = add) ->
     forall u, markedNotFound operations u -> tracked add addStates operations u).
Proof.
  intros operations members r add remove.
  subst add remove.
  destruct (ChangeCalculator_loops github desiredMembers n)
    as (newA & newR & Hops & Hflag & [HallA HqA] & [HallR HqR]).
  fold operations members in Hops, HqA, HqR. fold r in Hops, Hflag.
  set (skipA := skipAddition (membersMap members)
                  (buildUserOperationStateMap operations)) in *.
  set (skipR := skipRemoval (membersMap desiredMembers)) in *.
  assert (Hadd : forall u, queued GithubUserOperationTypeAdd u (newA ++ newR)
            = if passed desiredMembers u
                 && eligible GithubUserOperationTypeAdd addStates skipA operations u
              then 1%nat else 0%nat).
  { intros u. rewrite queued_app, HqA.
    rewrite (queued_other_kind GithubUserOperationTypeAdd GithubUserOperationTypeRemove u newR HallR); [apply Nat.add_0_r | discriminate]. }
  assert (Hrem : forall u, queued GithubUserOperationTypeRemove u (newA ++ newR)
            = if passed members u
                 && eligible GithubUserOperationTypeRemove removeStates skipR operations u
              then 1%nat else 0%nat).
  { intros u. rewrite queued_app, HqR.
    rewrite (queued_other_kind GithubUserOperationTypeRemove GithubUserOperationTypeAdd u newA HallA); [|discriminate].
    cbn [Nat.add]. unfold eligible. rewrite operationExists_app.
    rewrite (operationExists_other_kind GithubUserOperationTypeRemove GithubUserOperationTypeAdd removeStates newA u HallA);
      [|discriminate].
    now rewrite orb_false_r. }
  assert (Hmark : forall u, markedNotFound operations u -> skipA u = true).
  { intros u Hm. unfold skipA, skipAddition.
    apply stateMap_marked in Hm. now rewrite Hm. }
  exists (newA ++ newR). split; [exact Hops|]. split.
  { apply Forall_app. split; eapply Forall_impl; eauto. }
  split.
  { rewrite Hflag. destruct (newA ++ newR); cbn; split; congruence. }
  split.
  { intros d Hd Hnot. rewrite Hadd, (passed_member _ _ Hd). cbn [andb].
    apply not_among in Hnot. unfold eligible. split.
    - intros [Ht | Hm].
      + apply operationExists_tracked in Ht. rewrite Ht. now rewrite andb_false_r.
      + now rewrite (Hmark _ Hm).
    - intros Ht Hm.
      assert (operationExists GithubUserOperationTypeAdd addStates operations (GithubUsername d) = false) as ->.
      { apply not_true_iff_false. now rewrite operationExists_tracked. }
      assert (skipA (GithubUsername d) = false) as ->; [|reflexivity].
      unfold skipA, skipAddition. rewrite Hnot, orb_false_r.
      apply not_true_iff_false. now rewrite stateMap_marked. }
  split.
  { intros m Hm Hnot. rewrite Hrem, (passed_member _ _ Hm). cbn [andb].
    apply not_among in Hnot. unfold eligible, skipR, skipRemoval.
    rewrite Hnot. cbn [negb andb]. split.
    - intros Ht. apply operationExists_tracked in Ht. now rewrite Ht.
    - intros Ht.
      assert (operationExists GithubUserOperationTypeRemove removeStates operations (GithubUsername m)
              = false) as ->; [|reflexivity].
      apply not_true_iff_false. now rewrite operationExists_tracked. }
  split.
  { intros u [Hm | (op & Hin & Hu & Hk & Hs)]; rewrite Hadd; unfold eligible.
    - rewrite (Hmark _ Hm). cbn [negb andb]. now rewrite andb_false_r.
    - assert (operationExists GithubUserOperationTypeAdd addStates operations u = true) as ->.
      { apply operationExists_tracked. exists op. repeat split; auto.
        apply list_elem_of_singleton in Hs. rewrite Hs. unfold addStates.
        do 3 (apply elem_of_cons; right). now left. }
      now rewrite !andb_false_r. }
  intros Honly u (before & op & after & Heq & Hu & Hs & _).
  exists op. assert (Hin : op ∈ operations).
  { rewrite Heq. apply elem_of_app. right. now left. }
  repeat split; auto.
  rewrite Hs. unfold addStates. do 3 (apply elem_of_cons; right). now left.
Qed.
End TeamCalculator.

Lemma ChangeCalculator_tracks_differences_witness :
  exists new,
    GithubTeam.Operations
      (snd (fst (GithubTeam.ChangeCalculator (fun n => Z.of_nat n) teamWithBob
                   [alice] 0%nat))) = [] ++ new
    /\ queued GithubUserOperationTypeAdd "Alice" new = 1%nat.
Proof.
  destruct (ChangeCalculator_tracks_differences (fun n => Z.of_nat n) teamWithBob
              [alice] 0%nat) as (new & Hops & _ & _ & Hadd & _).
  exists new. split; [exact Hops|].
  apply (Hadd alice).
  - now left.
  - intros (m & Hm & Hsame). apply list_elem_of_singleton in Hm. subst m.
    vm_compute in Hsame. discriminate.
  - intros (op & Hin & _). inversion Hin.
  - intros (before & op & after & Heq & _). now destruct before.
Defined.

Section CompactStatus.
Import GithubOrganization GithubOrganizationReconciler.

Lemma compact_lists (s : GithubOrganizationStatus) :
  compact s = true <-> PublicRepositories s = [] /\ PrivateRepositories s = [].
Proof.
  unfold compact. destruct (PublicRepositories s), (PrivateRepositories s);
    split; intros H; try discriminate H; try (destruct H; discriminate); auto.
Qed.

Lemma compactWrites_snoc (w : World) (x : StoreWrite) :
  compactWrites w = true -> compactWrite x = true ->
  compactWrites (mkWorld (readings w) (requests w) (writes w ++ [x])) = true.
Proof.
  unfold compactWrites. cbn. rewrite forallb_app. intros -> Hx. cbn.
  rewrite Hx. reflexivity.
Qed.

(** *** The rules of [keeps] *)

Lemma keeps_pure {A} (P : A -> Prop) (a : A) : P a -> keeps P (pure a).
Proof. intros Ha w Hw. split; [exact Hw|]. cbn. intros b [= <-]. exact Ha. Qed.

Lemma keeps_leave {A} (P : A -> Prop) (r : Result) : keeps P (leave r).
Proof. intros w Hw. split; [exact Hw|]. cbn. intros b H. discriminate H. Qed.

Lemma keeps_andThen {A B} (Q : A -> Prop) (P : B -> Prop) (m : R A) (k : A -> R B) :
  keeps Q m -> (forall a, Q a -> keeps P (k a)) -> keeps P (andThen m k).
Proof.
  intros Hm Hk w Hw. unfold andThen. destruct (Hm w Hw) as [Hw' Ha].
  destruct (m w) as [[r|a] w']; cbn in *.
  - split; [assumption|]. intros b H. discriminate H.
  - apply Hk; auto.
Qed.

Lemma keeps_weaken {A} (P Q : A -> Prop) (m : R A) :
  keeps P m -> (forall a, P a -> Q a) -> keeps Q m.
Proof. intros Hm HPQ w Hw. destruct (Hm w Hw). split; auto. Qed.

Lemma keeps_then {A B} (P : B -> Prop) (m : R A) (k : A -> R B) :
  keeps (fun _ => True) m -> (forall a, keeps P (k a)) -> keeps P (andThen m k).
Proof. intros Hm Hk. apply keeps_andThen with (Q := fun _ => True); auto. Qed.

Lemma keeps_nested {A B C} (P : C -> Prop) (m : R A) (k : A -> R B) (h : B -> R C) :
  keeps P (andThen m (fun a => andThen (k a) h)) ->
  keeps P (andThen (andThen m k) h).
Proof.
  intros H w Hw. specialize (H w Hw). unfold andThen in *.
  destruct (m w) as [[r|a] w']; exact H.
Qed.

Lemma keeps_ask {A} (f : World -> A) : keeps (fun _ => True) (ask f).
Proof. intros w Hw. split; [exact Hw|auto]. Qed.

Lemma keeps_send (env : Env) (c : ForgeCall) : keeps (fun _ => True) (send env c).
Proof. intros w Hw. split; [exact Hw|auto]. Qed.

Lemma keeps_onClock {A} (P : A -> Prop) (c : ST nat A) :
  (forall n, P (fst (c n))) -> keeps P (onClock c).
Proof.
  intros Hc w Hw. unfold onClock. specialize (Hc (readings w)).
  destruct (c (readings w)) as [a n]. cbn in *. split; [exact Hw|].
  intros b [= <-]. exact Hc.
Qed.

Lemma keeps_onClock_then {A B} (P : B -> Prop) (c : ST nat A) (k : A -> R B) :
  (forall n, keeps P (k (fst (c n)))) -> keeps P (andThen (onClock c) k).
Proof.
  intros Hk. apply keeps_andThen with (Q := fun a => exists n, a = fst (c n)).
  - apply keeps_onClock. eauto.
  - intros a [n ->]. apply Hk.
Qed.

Lemma keeps_write (env : Env) (x : StoreWrite) :
  compactWrite x = true -> keeps (fun _ => True) (write env x).
Proof.
  intros Hx w Hw. unfold write.
  destruct (store_update env w x); cbn; (split; [|auto]);
    apply compactWrites_snoc; assumption.
Qed.

Lemma keeps_forRange {A B} (I : B -> Prop) (body : B -> nat -> A -> R B)
    (l : list A) :
  (forall acc i x, I acc -> keeps I (body acc i x)) ->
  forall i acc, I acc -> keeps I (forRange body i l acc).
Proof.
  intros Hbody. induction l as [|x l IH]; intros i acc Hacc; cbn [forRange].
  - apply keeps_pure, Hacc.
  - apply keeps_andThen with (Q := I); auto.
Qed.

Lemma keeps_forEachR {A B} (I : B -> Prop) (body : B -> A -> R B) (l : list A) :
  (forall acc x, I acc -> keeps I (body acc x)) ->
  forall acc, I acc -> keeps I (forEachR body l acc).
Proof.
  intros Hbody. induction l as [|x l IH]; intros acc Hacc; cbn [forEachR].
  - apply keeps_pure, Hacc.
  - apply keeps_andThen with (Q := I); auto.
Qed.

Ltac keeping :=
  repeat match goal with
  | |- keeps _ (pure _) => apply keeps_pure
  | |- keeps _ (leave _) => apply keeps_leave
  | |- keeps _ (andThen (andThen _ _) _) => apply keeps_nested
  | |- keeps _ (andThen (ask _) _) => apply keeps_then; [apply keeps_ask|intros ?]
  | |- keeps _ (andThen (send _ _) _) => apply keeps_then; [apply keeps_send|intros ?]
  | |- keeps _ (andThen (onClock _) _) => apply keeps_onClock_then; intros ?
  | |- keeps _ (andThen (write _ _) _) =>
      apply keeps_then; [apply keeps_write; cbn [compactWrite]|intros ?]
  | |- keeps _ (andThen (pure _) _) =>
      apply keeps_andThen with (Q := fun _ => True);
      [apply keeps_pure; exact I|intros ? _]
  | |- keeps _ (andThen (leave _) _) =>
      apply keeps_andThen with (Q := fun _ => True);
      [apply keeps_leave|intros ? _]
  | |- keeps _ (if ?b then _ else _) => destruct b eqn:?
  | |- keeps _ (match ?x with _ => _ end) => destruct x eqn:?
  end.

(** *** The field updates and the calculators leave the lists alone *)

Lemma compact_setState (s : GithubOrganizationStatus) (st e : string) (now : Time) :
  compact (setState s st e now) = compact s.
Proof. reflexivity. Qed.

Lemma compact_cleanOperations (st : string) (g : GithubOrganization.t) :
  compact (fst (cleanOperations st g)) = compact (Status g).
Proof. reflexivity. Qed.

Lemma compact_OwnerChangeCalculator (clock : Clock) (g : GithubOrganization.t)
    (owners : list Member) (n : nat) :
  compact (snd (fst (OwnerChangeCalculator clock g owners n))) = compact (Status g).
Proof.
  unfold OwnerChangeCalculator, bind.
  destruct (forEach _ owners _ n) as [acc n1].
  destruct (forEach _ (OrganizationOwners (Status g)) acc n1) as [acc2 n2].
  destruct (snd acc2); reflexivity.
Qed.

Lemma compact_TeamChangeCalculator (clock : Clock) (g : GithubOrganization.t)
    (teams : list string) (n : nat) :
  compact (snd (fst (TeamChangeCalculator clock g teams n))) = compact (Status g).
Proof.
  unfold TeamChangeCalculator, bind.
  destruct (forEach _ teams _ n) as [acc n1].
  destruct (forEach _ (Teams (Status g)) acc n1) as [acc2 n2].
  destruct (snd acc2); reflexivity.
Qed.

Lemma compact_compactStatus (s : GithubOrganizationStatus) :
  compact (compactStatus s) = true.
Proof. reflexivity. Qed.

Context (env : Env).

Local Abbreviation compactOrganization :=
  (fun g : GithubOrganization.t => compact (Status g) = true).

(** *** The steps of the reconcile, one by one *)

Lemma keeps_statusUpdate (s : GithubOrganizationStatus) :
  compact s = true -> keeps (fun _ => True) (statusUpdate env s).
Proof. intros Hs. apply keeps_write. exact Hs. Qed.

Lemma keeps_getForUpdate : keeps (fun _ => True) (getForUpdate env).
Proof. unfold getForUpdate. keeping; exact I. Qed.

Lemma keeps_leaveWith (P : GithubOrganization.t -> Prop) (g : GithubOrganization.t)
    (st e : string) (r : Result) :
  compact (Status g) = true -> keeps P (leaveWith env g st e r).
Proof.
  intros Hg. unfold leaveWith, Now, statusUpdate. keeping. exact Hg.
Qed.

Lemma keeps_rateLimitGate (g : GithubOrganization.t) :
  compact (Status g) = true -> keeps compactOrganization (rateLimitGate env g).
Proof.
  intros Hg. unfold rateLimitGate, Now, statusUpdate. keeping; exact Hg.
Qed.

Lemma keeps_ttlCleanup (g : GithubOrganization.t) (key st : string)
    (onlyWhenFailed clearError : bool) :
  compact (Status g) = true ->
  keeps (fun _ => True) (ttlCleanup env g key onlyWhenFailed clearError
                           (cleanOperations st)).
Proof.
  intros Hg. unfold ttlCleanup, Now, statusUpdate.
  pose proof (compact_cleanOperations st g) as Hc.
  destruct (cleanOperations st g) as [s changed]. cbn [fst] in Hc.
  rewrite Hg in Hc.
  keeping; try exact I. destruct clearError; exact Hc.
Qed.

Lemma keeps_ttlMaintenance (g : GithubOrganization.t) :
  compact (Status g) = true -> keeps (fun _ => True) (ttlMaintenance env g).
Proof.
  intros Hg. unfold ttlMaintenance. destruct (Labels g); [|keeping; exact I].
  apply keeps_then; [|intros _]; apply keeps_ttlCleanup; exact Hg.
Qed.

Lemma keeps_validate (g : GithubOrganization.t) :
  compact (Status g) = true -> keeps (fun _ => True) (validate env g).
Proof.
  intros Hg. unfold validate.
  repeat match goal with
  | |- keeps _ (andThen (leaveWith _ _ _ _ _) _) =>
      apply keeps_then; [apply keeps_leaveWith; exact Hg|intros ?]
  | |- keeps _ (forEachR _ _ _) =>
      apply keeps_forEachR; [intros ? ? _|exact I]
  | _ => progress keeping
  end; exact I.
Qed.

Lemma keeps_fetchFailed (P : GithubOrganization.t -> Prop)
    (g : GithubOrganization.t) (what e : string) :
  compact (Status g) = true -> keeps P (fetchFailed env g what e).
Proof.
  intros Hg. unfold fetchFailed, Now. keeping; apply keeps_leaveWith; exact Hg.
Qed.

Lemma keeps_listing {A} (c : ForgeCall) (payload : World -> A) :
  keeps (fun _ => True) (listing env c payload).
Proof. unfold listing. keeping; exact I. Qed.

Lemma keeps_expectStatus (c : ForgeCall) (expected : Z) (what : string) :
  keeps (fun _ => True) (expectStatus env c expected what).
Proof. unfold expectStatus. keeping; exact I. Qed.

Lemma keeps_AddTeam (team : string) : keeps (fun _ => True) (AddTeam env team).
Proof. unfold AddTeam. keeping; exact I. Qed.

Lemma keeps_compareOwners (g : GithubOrganization.t) :
  compact (Status g) = true -> keeps (fun _ => True) (compareOwners env g).
Proof.
  intros Hg. unfold compareOwners, statusUpdate.
  repeat match goal with
  | |- keeps _ (andThen (leaveWith _ _ _ _ _) _) =>
      apply keeps_then; [apply keeps_leaveWith; exact Hg|intros ?]
  | |- keeps _ (andThen (getForUpdate _) _) =>
      apply keeps_then; [apply keeps_getForUpdate|intros ?]
  | _ => progress keeping
  end; try exact I.
  rewrite compact_OwnerChangeCalculator. exact Hg.
Qed.

Lemma keeps_compareTeams (g : GithubOrganization.t) :
  compact (Status g) = true -> keeps (fun _ => True) (compareTeams env g).
Proof.
  intros Hg. unfold compareTeams, statusUpdate.
  repeat match goal with
  | |- keeps _ (andThen (leaveWith _ _ _ _ _) _) =>
      apply keeps_then; [apply keeps_leaveWith; exact Hg|intros ?]
  | _ => progress keeping
  end; try exact I.
  rewrite compact_TeamChangeCalculator. exact Hg.
Qed.

(** The repository comparison writes a compact status whatever the
    lists it compares. *)
Lemma keeps_compareRepositories (g : GithubOrganization.t)
    (publicRepos privateRepos : list GithubRepository.t) :
  keeps (fun _ => True) (compareRepositories env g publicRepos privateRepos).
Proof.
  unfold compareRepositories, statusUpdate. keeping; try exact I.
  apply compact_compactStatus.
Qed.

(** What the clearing step hands on. *)
Lemma cleared_compact (g : GithubOrganization.t) :
  compact
    (Status
       (if (0 <? List.length (PublicRepositories (Status g)))%nat
           || (0 <? List.length (PrivateRepositories (Status g)))%nat
        then withStatus g (setRepositories (Status g) [] [])
        else g)) = true.
Proof.
  unfold compact.
  destruct (PublicRepositories (Status g)) eqn:Hpub;
    destruct (PrivateRepositories (Status g)) eqn:Hpriv; cbn;
    try rewrite Hpub; try rewrite Hpriv; reflexivity.
Qed.

(** From the clearing step on, the status check writes compact
    statuses only, and hands on a compact organization. *)
Lemma keeps_compare (g : GithubOrganization.t) (ownerList : list GithubMember)
    (teamsList : list string) (publicRepos privateRepos : list GithubRepository.t) :
  keeps compactOrganization
    (compare env g ownerList teamsList publicRepos privateRepos).
Proof.
  unfold compare. cbv zeta.
  pose proof (cleared_compact g) as H1.
  set (cleared := ((0 <? List.length (PublicRepositories (Status g)))%nat
                   || (0 <? List.length (PrivateRepositories (Status g)))%nat)) in *.
  set (g1 := if cleared then withStatus g (setRepositories (Status g) [] []) else g) in *.
  apply keeps_then; [apply keeps_ask|intros links].
  destruct links as [links|e]; [|apply keeps_leave].
  set (ownersDiffer := negb (elementsMatch Member_eqb
                               (OrganizationOwners (Status g1)) links)).
  set (g2 := if ownersDiffer
             then withStatus g1 (setOrganizationOwners (Status g1) links)
             else g1).
  assert (H2 : compact (Status g2) = true)
    by (subst g2; destruct ownersDiffer; exact H1).
  set (teamsDiffer := negb (elementsMatch String.eqb (Teams (Status g2)) teamsList)).
  set (g3 := if teamsDiffer
             then withStatus g2 (setTeams (Status g2) teamsList)
             else g2).
  assert (H3 : compact (Status g3) = true)
    by (subst g3; destruct teamsDiffer; exact H2).
  clearbody g3. clear H1 H2.
  destruct (cleared || ownersDiffer || teamsDiffer).
  - apply keeps_then; [apply keeps_getForUpdate|intros _].
    apply keeps_then; [apply keeps_statusUpdate; exact H3|intros _].
    apply keeps_leave.
  - apply keeps_then; [apply keeps_compareOwners; exact H3|intros _].
    apply keeps_then; [apply keeps_compareTeams; exact H3|intros _].
    apply keeps_then; [apply keeps_compareRepositories|intros _].
    unfold Now, statusUpdate. keeping; exact H3.
Qed.

Lemma keeps_statusCheck (g : GithubOrganization.t) :
  compact (Status g) = true -> keeps compactOrganization (statusCheck env g).
Proof.
  intros Hg. unfold statusCheck, OwnersExtended, TeamsProvider_List, ExtendedList.
  apply keeps_then; [apply keeps_listing|intros [ownerList|e]];
    [|apply keeps_fetchFailed; exact Hg].
  apply keeps_then; [apply keeps_listing|intros [teamsList|e]];
    [|apply keeps_fetchFailed; exact Hg].
  apply keeps_then; [apply keeps_listing|intros [[pub priv]|e]];
    [|apply keeps_fetchFailed; exact Hg].
  apply keeps_compare.
Qed.

Lemma keeps_dryRun (g : GithubOrganization.t) :
  compact (Status g) = true -> keeps compactOrganization (dryRun env g).
Proof.
  intros Hg. unfold dryRun, Now, statusUpdate. keeping; try exact Hg.
  destruct (PendingOperationsFound g); [exact Hg|].
  destruct (FailedOperationsFound g); exact Hg.
Qed.

Lemma keeps_cleanOnLabel (g : GithubOrganization.t) (st : string) :
  compact (Status g) = true ->
  keeps (fun _ => True) (cleanOnLabel env g (cleanOperations st)).
Proof.
  intros Hg. unfold cleanOnLabel, Now, statusUpdate.
  pose proof (compact_cleanOperations st g) as Hc.
  destruct (cleanOperations st g) as [s changed]. cbn [fst] in Hc.
  rewrite Hg in Hc. keeping; try reflexivity. exact Hc.
Qed.

Lemma keeps_dryRunCleaning (g : GithubOrganization.t) :
  compact (Status g) = true -> keeps (fun _ => True) (dryRunCleaning env g).
Proof.
  intros Hg. unfold dryRunCleaning.
  keeping; try exact I; apply keeps_cleanOnLabel; exact Hg.
Qed.

(** *** The three operation loops *)

Local Abbreviation compactLoop :=
  (fun st : LoopState => compact (newStatus st) = true).

Ltac stepping Hst :=
  repeat match goal with
  | |- keeps _ (andThen (if _ then _ else _) _) =>
      apply keeps_andThen with (Q := compactLoop); [|intros ? ?]
  | |- keeps _ (andThen (expectStatus _ _ _ _) _) =>
      apply keeps_then; [apply keeps_expectStatus|intros ?]
  | |- keeps _ (andThen (AddTeam _ _) _) =>
      apply keeps_then; [apply keeps_AddTeam|intros ?]
  | _ => progress keeping
  end.

Lemma keeps_ownerOperationStep (g : GithubOrganization.t) (st : LoopState)
    (i : nat) (op : GithubUserOperation.t) :
  compact (newStatus st) = true ->
  keeps compactLoop (ownerOperationStep env g st i op).
Proof.
  intros Hst.
  unfold ownerOperationStep, ChangeToOwner, ChangeToMember, changeRole, Now.
  stepping Hst; assumption.
Qed.

Lemma keeps_teamOperationStep (g : GithubOrganization.t) (st : LoopState)
    (i : nat) (op : GithubTeamOperation.t) :
  compact (newStatus st) = true ->
  keeps compactLoop (teamOperationStep env g st i op).
Proof.
  intros Hst. unfold teamOperationStep, RemoveTeam, Now.
  stepping Hst; assumption.
Qed.

Lemma keeps_repositoryTeamOperationStep (g : GithubOrganization.t)
    (st : LoopState) (i : nat) (op : GithubRepoTeamOperation.t) :
  compact (newStatus st) = true ->
  keeps compactLoop (repositoryTeamOperationStep env g st i op).
Proof.
  intros Hst.
  unfold repositoryTeamOperationStep, RepositoryTeamAdd, RepositoryTeamRemove, Now.
  stepping Hst; assumption.
Qed.

Lemma keeps_executeOperations (g : GithubOrganization.t) :
  compact (Status g) = true -> keeps (fun _ => True) (executeOperations env g).
Proof.
  intros Hg. unfold executeOperations, Now, statusUpdate.
  destruct (String.eqb _ _); [|apply keeps_pure; exact I].
  apply keeps_andThen with (Q := compactLoop).
  { apply keeps_forRange; [|exact Hg].
    intros; apply keeps_ownerOperationStep; assumption. }
  intros st1 H1. apply keeps_andThen with (Q := compactLoop).
  { apply keeps_forRange; [|exact H1].
    intros; apply keeps_teamOperationStep; assumption. }
  intros st2 H2. apply keeps_andThen with (Q := compactLoop).
  { apply keeps_forRange; [|exact H2].
    intros; apply keeps_repositoryTeamOperationStep; assumption. }
  intros st3 H3.
  repeat match goal with
  | |- keeps _ (andThen (getForUpdate _) _) =>
      apply keeps_then; [apply keeps_getForUpdate|intros ?]
  | _ => progress keeping
  end; try exact I. destruct (failed st3); exact H3.
Qed.

(** One reconcile of an organization that is compact when read. *)
Lemma keeps_reconcile (g : GithubOrganization.t) :
  compact (Status g) = true ->
  keeps (fun _ => True)
    (g <~ rateLimitGate env g ;;
     ttlMaintenance env g ;;;
     validate env g ;;;
     g <~ (if negb (String.eqb (OrganizationStatus (Status g))
                      GithubOrganizationStatePendingOperations)
           then statusCheck env g
           else pure g) ;;
     g <~ dryRun env g ;;
     dryRunCleaning env g ;;;
     executeOperations env g).
Proof.
  intros Hg.
  apply keeps_andThen with (Q := compactOrganization);
    [apply keeps_rateLimitGate; exact Hg|clear g Hg; intros g Hg].
  apply keeps_then; [apply keeps_ttlMaintenance; exact Hg|intros _].
  apply keeps_then; [apply keeps_validate; exact Hg|intros _].
  apply keeps_andThen with (Q := compactOrganization).
  { destruct (negb _); [apply keeps_statusCheck|apply keeps_pure]; exact Hg. }
  clear g Hg; intros g Hg.
  apply keeps_andThen with (Q := compactOrganization);
    [apply keeps_dryRun; exact Hg|clear g Hg; intros g Hg].
  apply keeps_then; [apply keeps_dryRunCleaning; exact Hg|intros _].
  apply keeps_executeOperations; exact Hg.
Qed.

(** Property X1.  One reconcile of an organization keeps the stored
    status free of repository lists: if the organization it reads has
    neither publicRepositories nor privateRepositories in its status,
    and every status written before had neither, then every status
    written up to the end of the reconcile has neither, on every path
    (rate-limit gate, TTL clean-ups, validation, status check, dry run,
    execution of the operations) and whatever the forge and the store
    answer. *)
Theorem reconcile_keeps_status_compact (w : World) (g : GithubOrganization.t) :
  store_organization env w = Found g ->
  compact (Status g) = true ->
  compactWrites w = true ->
  compactWrites (snd (run env w)) = true.
Proof.
  intros Hread Hg Hw. unfold run, Reconcile.
  unfold andThen at 1. unfold ask at 1. cbn beta iota. rewrite Hread.
  destruct (keeps_reconcile g Hg w Hw) as [H _].
  destruct (andThen _ _ w) as [[r|r] w']; exact H.
Qed.

(** Property X2.  From the step of the status check that follows the
    three listings, no repository list reaches the store, whatever the
    status read carried and whatever lists were fetched: every status
    written is without publicRepositories and privateRepositories, and
    so is the status of the organization handed on to the rest of the
    reconcile. *)
Theorem status_check_writes_no_repository_lists
    (g : GithubOrganization.t) (ownerList : list GithubMember)
    (teamsList : list string) (publicRepos privateRepos : list GithubRepository.t)
    (w : World) :
  compactWrites w = true ->
  let r := compare env g ownerList teamsList publicRepos privateRepos w in
  compactWrites (snd r) = true /\
  (forall g', fst r = inr g' -> compact (Status g') = true).
Proof.
  intros Hw r.
  destruct (keeps_compare g ownerList teamsList publicRepos privateRepos w Hw)
    as [Hwrites Hres].
  split; [exact Hwrites|]. intros g' Hg'. apply Hres, Hg'.
Qed.

(** Property X3.  An organization whose status still carries a
    repository list is cleaned before anything is compared: once the
    listings and the account links are at hand and the object can be
    read for the update, the status check writes one status, without
    the lists and with operations, state, error and timestamp as read,
    and ends the reconcile there, with the error of the write if there
    is one. *)
Theorem carried_lists_are_cleared_first
    (g : GithubOrganization.t) (ownerList : list GithubMember)
    (links : list Member) (teamsList : list string)
    (publicRepos privateRepos : list GithubRepository.t)
    (current : GithubOrganization.t) (w : World) :
  PublicRepositories (Status g) <> [] \/ PrivateRepositories (Status g) <> [] ->
  store_accountLinks env w ownerList = inl links ->
  store_organization env w = Found current ->
  exists s,
    compare env g ownerList teamsList publicRepos privateRepos w
    = (inl (match store_update env w (OrganizationStatusUpdate s) with
            | Some e => failure e
            | None => done
            end),
       mkWorld (readings w) (requests w)
         (writes w ++ [OrganizationStatusUpdate s])) /\
    PublicRepositories s = [] /\ PrivateRepositories s = [] /\
    Operations s = Operations (Status g) /\
    OutOfPolicyRepositories s = OutOfPolicyRepositories (Status g) /\
    OrganizationStatus s = OrganizationStatus (Status g) /\
    OrganizationStatusError s = OrganizationStatusError (Status g) /\
    OrganizationStatusTimestamp s = OrganizationStatusTimestamp (Status g).
Proof.
  intros Hlists Hlinks Hget.
  assert (Hc : ((0 <? List.length (PublicRepositories (Status g)))%nat
                || (0 <? List.length (PrivateRepositories (Status g)))%nat) = true).
  { destruct (PublicRepositories (Status g)); [|reflexivity].
    destruct (PrivateRepositories (Status g)); [|reflexivity].
    destruct Hlists as [H|H]; contradiction H; reflexivity. }
  set (g1 := withStatus g (setRepositories (Status g) [] [])).
  set (g2 := if negb (elementsMatch Member_eqb
                        (OrganizationOwners (Status g1)) links)
             then withStatus g1 (setOrganizationOwners (Status g1) links)
             else g1).
  set (g3 := if negb (elementsMatch String.eqb (Teams (Status g2)) teamsList)
             then withStatus g2 (setTeams (Status g2) teamsList)
             else g2).
  exists (Status g3). split.
  - unfold compare. cbv zeta. rewrite Hc. cbn [orb].
    unfold andThen at 1. unfold ask at 1. rewrite Hlinks.
    unfold getForUpdate, statusUpdate, write, andThen, ask, leave, pure, ret.
    rewrite Hget. cbn [readings requests writes].
    fold g1. fold g2. fold g3.
    destruct (store_update env _ _); reflexivity.
  - subst g3 g2 g1.
    destruct (negb (elementsMatch Member_eqb _ links));
      destruct (negb (elementsMatch String.eqb _ teamsList));
      cbn; repeat split; reflexivity.
Qed.

Lemma outOfPolicy_cons (op : GithubRepoTeamOperation.t)
    (ops : list GithubRepoTeamOperation.t) (repo : string) :
  outOfPolicy (op :: ops) repo <->
  ((String.eqb (GithubRepoTeamOperation.State op)
      GithubRepoTeamOperationStatePending
    || String.eqb (GithubRepoTeamOperation.State op)
         GithubRepoTeamOperationStateFailed)
   && negb (String.eqb (GithubRepoTeamOperation.Repo op) "") = true
   /\ GithubRepoTeamOperation.Repo op = repo)
  \/ outOfPolicy ops repo.
Proof.
  unfold outOfPolicy.
  rewrite andb_true_iff, orb_true_iff, negb_true_iff, !String.eqb_eq,
    String.eqb_neq.
  split.
  - intros (Hne & op' & Hin & Hr & Hs). apply elem_of_cons in Hin as [->|Hin].
    + left. subst repo. auto.
    + right. eauto.
  - intros [((Hs & Hne) & <-)|(Hne & op' & Hin & Hr & Hs)].
    + split; [exact Hne|]. exists op. split; [apply list_elem_of_here|auto].
    + split; [exact Hne|]. exists op'.
      split; [apply list_elem_of_further, Hin|auto].
Qed.

Lemma outOfPolicy_fold (ops : list GithubRepoTeamOperation.t) :
  forall (acc : gset string) (repo : string),
    repo ∈ foldl (fun (m : gset string) op =>
              if (String.eqb (GithubRepoTeamOperation.State op)
                    GithubRepoTeamOperationStatePending
                  || String.eqb (GithubRepoTeamOperation.State op)
                       GithubRepoTeamOperationStateFailed)
                 && negb (String.eqb (GithubRepoTeamOperation.Repo op) "")
              then {[GithubRepoTeamOperation.Repo op]} ∪ m
              else m) acc ops
    <-> repo ∈ acc \/ outOfPolicy ops repo.
Proof.
  induction ops as [|op ops IH]; intros acc repo; cbn [foldl].
  - split; [auto|]. intros [H|[_ (op & Hin & _)]]; [exact H|].
    apply elem_of_nil in Hin. contradiction.
  - rewrite IH, outOfPolicy_cons.
    destruct (_ && _).
    + rewrite elem_of_union, elem_of_singleton. split.
      * intros [[->|H]|H]; auto.
      * intros [H|[[_ <-]|H]]; auto.
    + split; [intros [H|H]; auto|].
      intros [H|[[H _]|H]]; [auto|discriminate H|auto].
Qed.

(** Property X4.  uniquePendingOrFailedRepoNames lists every
    repository once: a name is in the result exactly when it is not
    the empty name and some operation on that repository is pending or
    failed; operations in any other state (complete, skipped) add
    nothing. *)
Theorem uniquePendingOrFailedRepoNames_spec
    (ops : list GithubRepoTeamOperation.t) :
  NoDup (uniquePendingOrFailedRepoNames ops) /\
  forall repo, repo ∈ uniquePendingOrFailedRepoNames ops <-> outOfPolicy ops repo.
Proof.
  unfold uniquePendingOrFailedRepoNames. split; [apply NoDup_elements|].
  intros repo. rewrite elem_of_elements, outOfPolicy_fold.
  split; [intros [H|H]; [|exact H]|auto].
  apply elem_of_empty in H. contradiction.
Qed.

(** Property X5.  The repository comparison writes at most one status,
    and a status it writes is consistent in itself: it has no
    repository lists, and its outOfPolicyRepositories are, each once,
    exactly the non-empty repository names with a pending or failed
    operation among the repository-team operations of that same
    status, the ones just enqueued included. *)
Theorem repository_comparison_stores_out_of_policy_names
    (g : GithubOrganization.t)
    (publicRepos privateRepos : list GithubRepository.t) (w : World) :
  exists new,
    writes (snd (compareRepositories env g publicRepos privateRepos w))
    = writes w ++ new /\
    (List.length new <= 1)%nat /\
    forall s, OrganizationStatusUpdate s ∈ new ->
      PublicRepositories s = [] /\ PrivateRepositories s = [] /\
      NoDup (OutOfPolicyRepositories s) /\
      forall repo, repo ∈ OutOfPolicyRepositories s <->
                   outOfPolicy (RepositoryTeamOperations (Operations s)) repo.
Proof.
  assert (Hnone : forall l : list StoreWrite,
            exists new : list StoreWrite, l = l ++ new /\
              (List.length new <= 1)%nat /\
              forall s, OrganizationStatusUpdate s ∈ new ->
                PublicRepositories s = [] /\ PrivateRepositories s = [] /\
                NoDup (OutOfPolicyRepositories s) /\
                forall repo, repo ∈ OutOfPolicyRepositories s <->
                  outOfPolicy (RepositoryTeamOperations (Operations s)) repo).
  { intros l. exists []. split; [symmetry; apply app_nil_r|].
    split; [cbn; lia|]. intros s Hs. apply elem_of_nil in Hs. contradiction. }
  unfold compareRepositories.
  destruct (syncDisabled g _ _); [apply Hnone|].
  unfold andThen at 1. unfold ask at 1.
  destruct (store_teamRepositories env w) as [exceptions|e]; [|apply Hnone].
  unfold andThen at 1. unfold onClock.
  destruct (RepoChangeCalculator _ _ exceptions (readings w)) as [[changed s'] n].
  cbn [fst snd]. destruct changed; [|apply Hnone].
  exists [OrganizationStatusUpdate (compactStatus s')]. split.
  - unfold andThen, statusUpdate, write, leave, ret. cbn [readings requests writes].
    destruct (store_update env _ _); reflexivity.
  - split; [cbn; lia|]. intros s Hs.
    apply list_elem_of_singleton in Hs. injection Hs as ->.
    split; [reflexivity|]. split; [reflexivity|].
    cbn [compactStatus OutOfPolicyRepositories Operations setRepositories
         setOutOfPolicyRepositories RepositoryTeamOperations].
    unfold uniquePendingOrFailedRepoNames. split; [apply NoDup_elements|].
    intros repo. rewrite elem_of_elements, outOfPolicy_fold.
    split; [intros [H|H]; [|exact H]|auto].
    apply elem_of_empty in H. contradiction.
Qed.

End CompactStatus.

Lemma reconcile_keeps_status_compact_witness :
  compactWrites
    (snd (GithubOrganizationReconciler.run
            (quiet (Found compactOrg) (IsNotFound "") (fun _ => accept))
            initialWorld)) = true.
Proof.
  apply (reconcile_keeps_status_compact
           (quiet (Found compactOrg) (IsNotFound "") (fun _ => accept))
           initialWorld compactOrg); reflexivity.
Defined.

Lemma status_check_writes_no_repository_lists_witness :
  compactWrites
    (snd (GithubOrganizationReconciler.compare
            (quiet (Found legacyOrg) (IsNotFound "") (fun _ => accept))
            legacyOrg [] [] [GithubRepository.mk "repo1" []] [] initialWorld))
  = true.
Proof.
  apply (fun H => proj1 (status_check_writes_no_repository_lists
           (quiet (Found legacyOrg) (IsNotFound "") (fun _ => accept))
           legacyOrg [] [] [GithubRepository.mk "repo1" []] [] initialWorld H)).
  reflexivity.
Defined.

Lemma carried_lists_are_cleared_first_witness :
  exists s,
    GithubOrganizationReconciler.compare
      (quiet (Found legacyOrg) (IsNotFound "") (fun _ => accept))
      legacyOrg [] [] [GithubRepository.mk "repo1" []] [] initialWorld
    = (inl done, mkWorld 0 [] [OrganizationStatusUpdate s]) /\
    GithubOrganization.PublicRepositories s = [] /\
    GithubOrganization.PrivateRepositories s = [] /\
    GithubOrganization.Operations s
    = GithubOrganization.Operations (GithubOrganization.Status legacyOrg) /\
    GithubOrganization.OutOfPolicyRepositories s
    = GithubOrganization.OutOfPolicyRepositories (GithubOrganization.Status legacyOrg) /\
    GithubOrganization.OrganizationStatus s
    = GithubOrganization.OrganizationStatus (GithubOrganization.Status legacyOrg) /\
    GithubOrganization.OrganizationStatusError s
    = GithubOrganization.OrganizationStatusError (GithubOrganization.Status legacyOrg) /\
    GithubOrganization.OrganizationStatusTimestamp s
    = GithubOrganization.OrganizationStatusTimestamp (GithubOrganization.Status legacyOrg).
Proof.
  apply (carried_lists_are_cleared_first
           (quiet (Found legacyOrg) (IsNotFound "") (fun _ => accept))
           legacyOrg [] [] [] [GithubRepository.mk "repo1" []] [] legacyOrg
           initialWorld).
  - left. vm_compute. intros H. discriminate H.
  - reflexivity.
  - reflexivity.
Defined.

Section Cleaning.
Import GithubOrganization.

Lemma filter_keeps_order {A} (keep : A -> bool) (l : list A) :
  sublist (List.filter keep l) l.
Proof.
  induction l as [|x l IH]; cbn; [constructor|].
  destruct (keep x); [apply sublist_skip|apply sublist_cons]; exact IH.
Qed.

Lemma filter_unchanged {A} (keep : A -> bool) (l : list A) :
  forallb keep l = true -> List.filter keep l = l.
Proof.
  induction l as [|x l IH]; cbn; [reflexivity|].
  destruct (keep x); cbn; [|discriminate]. intros H. rewrite IH; auto.
Qed.

Lemma existsb_filter_out {A} (sel : A -> bool) (l : list A) :
  existsb sel (List.filter (fun x => negb (sel x)) l) = false.
Proof.
  induction l as [|x l IH]; cbn; [reflexivity|].
  destruct (sel x) eqn:Hx; cbn; [exact IH|]. rewrite Hx. exact IH.
Qed.

Lemma existsb_filter_other {A} (sel other : A -> bool) (l : list A) :
  (forall x, other x = true -> sel x = false) ->
  existsb other (List.filter (fun x => negb (sel x)) l) = existsb other l.
Proof.
  intros Hd. induction l as [|x l IH]; cbn; [reflexivity|].
  destruct (sel x) eqn:Hx; cbn; rewrite IH; [|reflexivity].
  destruct (other x) eqn:Ho; [|reflexivity].
  rewrite (Hd x Ho) in Hx. discriminate Hx.
Qed.

Lemma negb_forallb_negb {A} (sel : A -> bool) (l : list A) :
  negb (forallb (fun x => negb (sel x)) l) = existsb sel l.
Proof.
  induction l as [|x l IH]; cbn; [reflexivity|].
  rewrite <- IH. destruct (sel x); reflexivity.
Qed.

(** Property X6.  CleanFailedOperations drops exactly the failed
    operations of the three queues: afterwards no operation is failed,
    the operations kept are those that were not failed, in their
    order, the pending ones all among them; the flag says whether a
    failed operation was there; without one the status comes back as
    it was; and nothing but the queues is touched. *)
Theorem CleanFailedOperations_drops_failed (g : GithubOrganization.t) :
  let s := fst (CleanFailedOperations g) in
  let cleaned := snd (CleanFailedOperations g) in
  FailedOperationsFound (withStatus g s) = false /\
  PendingOperationsFound (withStatus g s) = PendingOperationsFound g /\
  cleaned = FailedOperationsFound g /\
  (cleaned = false -> s = Status g) /\
  setOperations s (Operations (Status g)) = Status g /\
  sublist (OrganizationOwnerOperations (Operations s))
          (OrganizationOwnerOperations (Operations (Status g))) /\
  sublist (GithubTeamOperations (Operations s))
          (GithubTeamOperations (Operations (Status g))) /\
  sublist (RepositoryTeamOperations (Operations s))
          (RepositoryTeamOperations (Operations (Status g))) /\
  (forall op, op ∈ OrganizationOwnerOperations (Operations (Status g)) ->
     GithubUserOperation.State op <> GithubUserOperationStateFailed ->
     op ∈ OrganizationOwnerOperations (Operations s)) /\
  (forall op, op ∈ GithubTeamOperations (Operations (Status g)) ->
     GithubTeamOperation.State op <> GithubTeamOperationStateFailed ->
     op ∈ GithubTeamOperations (Operations s)) /\
  (forall op, op ∈ RepositoryTeamOperations (Operations (Status g)) ->
     GithubRepoTeamOperation.State op <> GithubRepoTeamOperationStateFailed ->
     op ∈ RepositoryTeamOperations (Operations s)).
Proof.
  destruct g as [labels annotations spec [teams pub priv owners out st e ts [u t r]]].
  cbn -[String.eqb].
  split.
  { unfold FailedOperationsFound. cbn -[String.eqb].
    rewrite !existsb_filter_out. reflexivity. }
  split.
  { unfold PendingOperationsFound. cbn -[String.eqb].
    rewrite !existsb_filter_other; [reflexivity|..];
      intros x Hx; apply String.eqb_eq in Hx; rewrite Hx; reflexivity. }
  split.
  { unfold FailedOperationsFound. cbn -[String.eqb].
    rewrite !negb_forallb_negb. reflexivity. }
  split.
  { intros H. apply orb_false_iff in H as [H Ht].
    apply orb_false_iff in H as [Hu Hr].
    apply negb_false_iff in Hu, Hr, Ht.
    rewrite !filter_unchanged by assumption. reflexivity. }
  split; [reflexivity|].
  split; [apply filter_keeps_order|].
  split; [apply filter_keeps_order|].
  split; [apply filter_keeps_order|].
  split; [|split]; intros op Hin Hst;
    apply list_elem_of_In, filter_In; (split; [apply list_elem_of_In, Hin|]);
    apply negb_true_iff, String.eqb_neq, Hst.
Qed.


End Cleaning.

(** *** The loops of the organization's owner and team calculators

    Both calculators run two loops of one shape: an item is passed over
    when it is found on the other side or when an operation not yet
    complete waits for its name; otherwise a pending operation for the
    name is appended, stamped with the time. *)

Section DiffLoops.
Context {Op X : Type} (clock : Clock).
Context (name : X -> string) (skip : X -> bool).
Context (hit : string -> Op -> bool) (mkop : string -> Time -> Op).
Context (body : list Op * bool -> X -> ST nat (list Op * bool)).
Hypothesis hit_mkop : forall u t, hit u (mkop u t) = true.
Hypothesis body_spec : forall acc x n,
  body acc x n
  = if skip x || existsb (hit (name x)) (fst acc) then (acc, n)
    else ((fst acc ++ [mkop (name x) (clock n)], true), S n).

Lemma diffLoops_run (l : list X) :
  forall (ops : list Op) (flag : bool) (n : nat),
  exists ext,
    forEach body l (ops, flag) n
    = ((ops ++ ext, flag || negb (List.length ext =? 0)%nat),
       (n + List.length ext)%nat) /\
    Forall (fun op => exists x t, x ∈ l /\ skip x = false /\
                        existsb (hit (name x)) ops = false /\
                        op = mkop (name x) t) ext /\
    (forall x, x ∈ l -> skip x = false ->
               existsb (hit (name x)) (ops ++ ext) = true).
Proof.
  induction l as [|x l IH]; intros ops flag n; cbn [forEach].
  - exists []. rewrite app_nil_r, orb_false_r, Nat.add_0_r.
    split; [reflexivity|]. split; [constructor|].
    intros x Hx. apply elem_of_nil in Hx. contradiction.
  - unfold bind. rewrite body_spec. cbn [fst].
    destruct (skip x || existsb (hit (name x)) ops) eqn:Hx.
    + destruct (IH ops flag n) as (ext & Hrun & Hsound & Hcomplete).
      exists ext. split; [exact Hrun|]. split.
      * eapply Forall_impl; [exact Hsound|].
        intros op (y & t & Hy & Hs & Hf & ->). exists y, t.
        split; [apply list_elem_of_further, Hy|auto].
      * intros y Hy Hs. apply elem_of_cons in Hy as [->|Hy]; [|auto].
        rewrite Hs in Hx. cbn in Hx. rewrite existsb_app, Hx. reflexivity.
    + apply orb_false_iff in Hx as [Hs Hf].
      destruct (IH (ops ++ [mkop (name x) (clock n)]) true (S n))
        as (ext & Hrun & Hsound & Hcomplete).
      exists (mkop (name x) (clock n) :: ext).
      rewrite Hrun, <- app_assoc. cbn [app List.length Nat.eqb negb].
      rewrite orb_true_r, Nat.add_succ_r. split; [reflexivity|]. split.
      * constructor.
        { exists x, (clock n). split; [apply list_elem_of_here|auto]. }
        eapply Forall_impl; [exact Hsound|].
        intros op (y & t & Hy & Hsy & Hfy & ->). exists y, t.
        split; [apply list_elem_of_further, Hy|]. split; [exact Hsy|].
        split; [|reflexivity].
        rewrite existsb_app in Hfy. apply orb_false_iff in Hfy as [Hfy _].
        exact Hfy.
      * intros y Hy Hsy. apply elem_of_cons in Hy as [->|Hy].
        { rewrite existsb_app. cbn [existsb]. rewrite hit_mkop.
          apply orb_true_r. }
        specialize (Hcomplete y Hy Hsy).
        rewrite <- app_assoc in Hcomplete. exact Hcomplete.
Qed.

(** Nothing is appended when every item is passed over. *)
Lemma diffLoops_settled (l : list X) (ops : list Op) (flag : bool) (n : nat) :
  (forall x, x ∈ l -> skip x = false -> existsb (hit (name x)) ops = true) ->
  forEach body l (ops, flag) n = ((ops, flag), n).
Proof.
  induction l as [|x l IH]; intros H; cbn [forEach]; [reflexivity|].
  unfold bind. rewrite body_spec. cbn [fst].
  destruct (skip x) eqn:Hs; cbn [orb].
  - apply IH. intros y Hy. apply H, list_elem_of_further, Hy.
  - rewrite (H x (list_elem_of_here _ _) Hs).
    apply IH. intros y Hy. apply H, list_elem_of_further, Hy.
Qed.
End DiffLoops.

Section OwnerCalculator.
Import GithubOrganization.
Context (clock : Clock).

Local Abbreviation ownerSeen := (fun (others : list Member) (m : Member) =>
  existsb (fun o => strings.EqualFold (GithubUsername o) (GithubUsername m))
    others).

Local Abbreviation newOwnerOperation := (fun (kind user : string) (t : Time) =>
  GithubUserOperation.mk kind user GithubUserOperationStatePending "" t).

Lemma ownerSeen_among (others : list Member) (m : Member) :
  ownerSeen others m = true <-> amongMembers others (GithubUsername m).
Proof.
  unfold amongMembers. rewrite existsb_exists. split.
  - intros (o & Hin & He). exists o.
    split; [apply list_elem_of_In, Hin|apply EqualFold_sameUser, He].
  - intros (o & Hin & He). exists o.
    split; [apply list_elem_of_In, Hin|apply EqualFold_sameUser, He].
Qed.

Lemma ownerOperationFound_app (a b : list GithubUserOperation.t)
    (user kind : string) :
  ownerOperationFound (a ++ b) user kind
  = ownerOperationFound a user kind || ownerOperationFound b user kind.
Proof. apply existsb_app. Qed.

(** The two loops of [OwnerChangeCalculator], run. *)
Lemma OwnerChangeCalculator_loops (g : GithubOrganization.t)
    (ownersFromKubernetes : list Member) (n : nat) :
  let old := OrganizationOwnerOperations (Operations (Status g)) in
  let current := OrganizationOwners (Status g) in
  exists adds removes,
    OwnerChangeCalculator clock g ownersFromKubernetes n
    = (if negb (List.length (adds ++ removes) =? 0)%nat
       then ((true,
              setState (setOwnerOperations (Status g) (old ++ adds ++ removes))
                GithubOrganizationStatePendingOperations ""
                (clock (n + List.length (adds ++ removes))%nat)),
             S (n + List.length (adds ++ removes)))
       else ((false, setOwnerOperations (Status g) (old ++ adds ++ removes)), n)) /\
    Forall (fun op => exists k t,
              k ∈ ownersFromKubernetes /\ ownerSeen current k = false /\
              ownerOperationFound old (GithubUsername k)
                GithubUserOperationTypeAdd = false /\
              op = newOwnerOperation GithubUserOperationTypeAdd
                     (GithubUsername k) t) adds /\
    Forall (fun op => exists o t,
              o ∈ current /\ ownerSeen ownersFromKubernetes o = false /\
              ownerOperationFound (old ++ adds) (GithubUsername o)
                GithubUserOperationTypeRemove = false /\
              op = newOwnerOperation GithubUserOperationTypeRemove
                     (GithubUsername o) t) removes /\
    (forall k, k ∈ ownersFromKubernetes -> ownerSeen current k = false ->
       ownerOperationFound (old ++ adds) (GithubUsername k)
         GithubUserOperationTypeAdd = true) /\
    (forall o, o ∈ current -> ownerSeen ownersFromKubernetes o = false ->
       ownerOperationFound ((old ++ adds) ++ removes) (GithubUsername o)
         GithubUserOperationTypeRemove = true).
Proof.
  intros old current. unfold OwnerChangeCalculator. fold old. fold current.
  match goal with
  | |- context [bind (forEach ?b ownersFromKubernetes _) _] =>
      destruct (diffLoops_run clock GithubUsername (ownerSeen current)
                  (fun u op => strings.EqualFold (GithubUserOperation.User op) u &&
                     String.eqb (GithubUserOperation.Operation op)
                       GithubUserOperationTypeAdd &&
                     negb (String.eqb (GithubUserOperation.State op)
                             GithubUserOperationStateComplete))
                  (newOwnerOperation GithubUserOperationTypeAdd) b)
        with (l := ownersFromKubernetes) (ops := old) (flag := false) (n := n)
        as (adds & Hrun1 & Hsound1 & Hcomplete1)
  end.
  { intros u t. cbv beta.
    cbn [GithubUserOperation.User GithubUserOperation.Operation
         GithubUserOperation.State].
    rewrite EqualFold_refl. reflexivity. }
  { intros acc x m. unfold ownerOperationFound.
    destruct (existsb _ current); [reflexivity|]. cbn [orb].
    destruct (existsb _ (fst acc)); reflexivity. }
  match goal with
  | |- context [forEach ?b current] =>
      destruct (diffLoops_run clock GithubUsername (ownerSeen ownersFromKubernetes)
                  (fun u op => strings.EqualFold (GithubUserOperation.User op) u &&
                     String.eqb (GithubUserOperation.Operation op)
                       GithubUserOperationTypeRemove &&
                     negb (String.eqb (GithubUserOperation.State op)
                             GithubUserOperationStateComplete))
                  (newOwnerOperation GithubUserOperationTypeRemove) b)
        with (l := current) (ops := old ++ adds)
             (flag := false || negb (List.length adds =? 0)%nat)
             (n := (n + List.length adds)%nat)
        as (removes & Hrun2 & Hsound2 & Hcomplete2)
  end.
  { intros u t. cbv beta.
    cbn [GithubUserOperation.User GithubUserOperation.Operation
         GithubUserOperation.State].
    rewrite EqualFold_refl. reflexivity. }
  { intros acc x m. unfold ownerOperationFound.
    destruct (existsb _ ownersFromKubernetes); [reflexivity|]. cbn [orb].
    destruct (existsb _ (fst acc)); reflexivity. }
  exists adds, removes.
  split; [|split; [exact Hsound1|split; [exact Hsound2|split; assumption]]].
  unfold bind at 1. rewrite Hrun1. unfold bind at 1. rewrite Hrun2.
  cbn [fst snd orb]. rewrite <- app_assoc, length_app.
  destruct adds, removes; cbn [List.length Nat.add Nat.eqb negb orb app];
    rewrite ?Nat.add_0_r, ?Nat.add_succ_r, ?Nat.add_assoc; reflexivity.
Qed.

Lemma Forall_absurd {A} (P : A -> Prop) (l : list A) :
  Forall P l -> (forall x, P x -> False) -> l = [].
Proof. intros H Hno. destruct H as [|x l Hx _]; [reflexivity|]. destruct (Hno x Hx). Qed.

Lemma not_ownerSeen (others : list Member) (m : Member) :
  ownerSeen others m = false <-> ~ amongMembers others (GithubUsername m).
Proof.
  rewrite <- ownerSeen_among. destruct (ownerSeen others m); split; intros H;
    try reflexivity; try discriminate H; try (intros H'; discriminate H').
  contradiction H. reflexivity.
Qed.

(** Property X8.  OwnerChangeCalculator only appends to the owner
    queue, and what it appends are pending operations without error:
    an addition for a login of the desired owners that is not among the
    owners in the status, a removal for a login of the owners in the
    status that is not desired (logins compared without regard to
    case), and none for a login for which an operation of that kind,
    not yet complete, was already queued.  The flag tells whether
    anything was appended; if not, the status comes back as it was and
    the clock is not read; if so, the state is "pending", the error is
    cleared, and the clock has been read once per operation and once
    more for the timestamp.  No other field changes. *)
Theorem OwnerChangeCalculator_enqueues_differences
    (g : GithubOrganization.t) (ownersFromKubernetes : list Member) (n : nat) :
  let old := OrganizationOwnerOperations (Operations (Status g)) in
  let current := OrganizationOwners (Status g) in
  let r := OwnerChangeCalculator clock g ownersFromKubernetes n in
  let changed := fst (fst r) in
  let newStatus := snd (fst r) in
  exists new,
    OrganizationOwnerOperations (Operations newStatus) = old ++ new /\
    Forall (fun op =>
      GithubUserOperation.State op = GithubUserOperationStatePending /\
      GithubUserOperation.Error op = "" /\
      ((GithubUserOperation.Operation op = GithubUserOperationTypeAdd /\
        (exists k, k ∈ ownersFromKubernetes /\
                   GithubUserOperation.User op = GithubUsername k) /\
        ~ amongMembers current (GithubUserOperation.User op) /\
        ownerOperationFound old (GithubUserOperation.User op)
          GithubUserOperationTypeAdd = false)
       \/
       (GithubUserOperation.Operation op = GithubUserOperationTypeRemove /\
        (exists o, o ∈ current /\
                   GithubUserOperation.User op = GithubUsername o) /\
        ~ amongMembers ownersFromKubernetes (GithubUserOperation.User op) /\
        ownerOperationFound old (GithubUserOperation.User op)
          GithubUserOperationTypeRemove = false))) new /\
    (changed = true <-> new <> []) /\
    (changed = false -> newStatus = Status g /\ snd r = n) /\
    (changed = true ->
       OrganizationStatus newStatus = GithubOrganizationStatePendingOperations /\
       OrganizationStatusError newStatus = "" /\
       OrganizationStatusTimestamp newStatus = clock (n + List.length new)%nat /\
       snd r = S (n + List.length new)) /\
    setState (setOwnerOperations newStatus old)
      (OrganizationStatus (Status g)) (OrganizationStatusError (Status g))
      (OrganizationStatusTimestamp (Status g)) = Status g.
Proof.
  intros old current r changed newStatus.
  destruct (OwnerChangeCalculator_loops g ownersFromKubernetes n)
    as (adds & removes & Hrun & Hadds & Hremoves & _ & _).
  fold old current in Hrun, Hadds, Hremoves.
  exists (adds ++ removes).
  subst changed newStatus r. rewrite Hrun. clear Hrun.
  split.
  { destruct (negb _); reflexivity. }
  split.
  { apply Forall_app. split.
    - eapply Forall_impl; [exact Hadds|].
      intros op (k & t & Hk & Hseen & Hfound & ->).
      cbn [GithubUserOperation.State GithubUserOperation.Error
           GithubUserOperation.Operation GithubUserOperation.User].
      split; [reflexivity|]. split; [reflexivity|]. left.
      split; [reflexivity|]. split; [exists k; auto|].
      split; [apply not_ownerSeen, Hseen|exact Hfound].
    - eapply Forall_impl; [exact Hremoves|].
      intros op (o & t & Ho & Hseen & Hfound & ->).
      cbn [GithubUserOperation.State GithubUserOperation.Error
           GithubUserOperation.Operation GithubUserOperation.User].
      split; [reflexivity|]. split; [reflexivity|]. right.
      split; [reflexivity|]. split; [exists o; auto|].
      split; [apply not_ownerSeen, Hseen|].
      rewrite ownerOperationFound_app in Hfound.
      apply orb_false_iff in Hfound as [Hfound _]. exact Hfound. }
  destruct (adds ++ removes) as [|op new] eqn:Hnew.
  - cbn [List.length Nat.eqb negb fst snd]. rewrite app_nil_r.
    split; [split; [intros H; discriminate H|intros H; contradiction H; reflexivity]|].
    split.
    { intros _. split; [|reflexivity].
      subst old. destruct (Status g) as [? ? ? ? ? ? ? ? []]. reflexivity. }
    split; [intros H; discriminate H|].
    subst old. destruct (Status g) as [? ? ? ? ? ? ? ? []]. reflexivity.
  - cbn [List.length Nat.eqb negb fst snd].
    split; [split; [intros _ H; discriminate H|reflexivity]|].
    split; [intros H; discriminate H|].
    split; [intros _; repeat split; reflexivity|].
    subst old. destruct (Status g) as [? ? ? ? ? ? ? ? []]. reflexivity.
Qed.

(** Property X9.  OwnerChangeCalculator leaves nothing undone and does
    nothing twice: in the queue it returns, every desired owner who is
    not among the owners in the status has an addition that is not yet
    complete, every owner in the status who is not desired has such a
    removal, and the calculator run again on the status it returned,
    with the same desired owners, appends nothing, reports no change
    and does not read the clock. *)
Theorem OwnerChangeCalculator_settles
    (g : GithubOrganization.t) (ownersFromKubernetes : list Member) (n : nat) :
  let current := OrganizationOwners (Status g) in
  let newStatus := snd (fst (OwnerChangeCalculator clock g ownersFromKubernetes n)) in
  let queue := OrganizationOwnerOperations (Operations newStatus) in
  (forall k, k ∈ ownersFromKubernetes ->
     ~ amongMembers current (GithubUsername k) ->
     ownerOperationFound queue (GithubUsername k)
       GithubUserOperationTypeAdd = true) /\
  (forall o, o ∈ current ->
     ~ amongMembers ownersFromKubernetes (GithubUsername o) ->
     ownerOperationFound queue (GithubUsername o)
       GithubUserOperationTypeRemove = true) /\
  forall n', OwnerChangeCalculator clock (withStatus g newStatus)
               ownersFromKubernetes n'
             = ((false, newStatus), n').
Proof.
  intros current newStatus queue.
  destruct (OwnerChangeCalculator_loops g ownersFromKubernetes n)
    as (adds & removes & Hrun & _ & _ & Hcomplete1 & Hcomplete2).
  fold current in Hcomplete1, Hcomplete2.
  set (old := OrganizationOwnerOperations (Operations (Status g))) in *.
  assert (Hqueue : queue = old ++ adds ++ removes).
  { subst queue newStatus. rewrite Hrun. destruct (negb _); reflexivity. }
  assert (Hcurrent : OrganizationOwners newStatus = current).
  { subst newStatus. rewrite Hrun. destruct (negb _); reflexivity. }
  assert (Hadd : forall k, k ∈ ownersFromKubernetes ->
            ownerSeen current k = false ->
            ownerOperationFound queue (GithubUsername k)
              GithubUserOperationTypeAdd = true).
  { intros k Hk Hseen. rewrite Hqueue, app_assoc, ownerOperationFound_app.
    rewrite (Hcomplete1 k Hk Hseen). reflexivity. }
  assert (Hremove : forall o, o ∈ current ->
            ownerSeen ownersFromKubernetes o = false ->
            ownerOperationFound queue (GithubUsername o)
              GithubUserOperationTypeRemove = true).
  { intros o Ho Hseen. rewrite Hqueue, app_assoc. apply Hcomplete2; assumption. }
  split; [intros k Hk Hno; apply Hadd; [exact Hk|apply not_ownerSeen, Hno]|].
  split; [intros o Ho Hno; apply Hremove; [exact Ho|apply not_ownerSeen, Hno]|].
  intros n'.
  destruct (OwnerChangeCalculator_loops (withStatus g newStatus)
              ownersFromKubernetes n')
    as (adds' & removes' & Hrun' & Hadds' & Hremoves' & _ & _).
  cbn [Status withStatus] in Hrun', Hadds', Hremoves'.
  fold queue in Hrun', Hadds', Hremoves'. rewrite Hcurrent in Hadds', Hremoves'.
  assert (adds' = []) as ->.
  { apply (Forall_absurd _ _ Hadds').
    intros op (k & t & Hk & Hseen & Hfound & _).
    rewrite (Hadd k Hk Hseen) in Hfound. discriminate Hfound. }
  assert (removes' = []) as ->.
  { apply (Forall_absurd _ _ Hremoves').
    intros op (o & t & Ho & Hseen & Hfound & _).
    rewrite app_nil_r, (Hremove o Ho Hseen) in Hfound. discriminate Hfound. }
  rewrite Hrun'. cbn [app List.length Nat.eqb negb]. rewrite app_nil_r.
  subst queue. destruct newStatus as [? ? ? ? ? ? ? ? []]. reflexivity.
Qed.

End OwnerCalculator.

Section TeamsCalculator.
Import GithubOrganization.
Context (clock : Clock).

Local Abbreviation teamSeen := (fun (others : list string) (team : string) =>
  existsb (fun o => strings.EqualFold o team) others).

Local Abbreviation newTeamOperation := (fun (kind team : string) (t : Time) =>
  GithubTeamOperation.mk kind team GithubTeamOperationStatePending "" t).

Lemma not_teamSeen (others : list string) (team : string) :
  teamSeen others team = false <-> ~ amongNames others team.
Proof.
  unfold amongNames. split.
  - intros H (o & Hin & He).
    assert (teamSeen others team = true) as H'; [|rewrite H' in H; discriminate H].
    apply existsb_exists. exists o.
    split; [apply list_elem_of_In, Hin|apply EqualFold_sameUser, He].
  - intros H. destruct (teamSeen others team) eqn:Hs; [|reflexivity].
    contradiction H. apply existsb_exists in Hs as (o & Hin & He). exists o.
    split; [apply list_elem_of_In, Hin|apply EqualFold_sameUser, He].
Qed.

Lemma teamOperationFound_app (a b : list GithubTeamOperation.t)
    (team kind : string) :
  teamOperationFound (a ++ b) team kind
  = teamOperationFound a team kind || teamOperationFound b team kind.
Proof. apply existsb_app. Qed.

(** The two loops of [TeamChangeCalculator], run. *)
Lemma TeamChangeCalculator_loops (g : GithubOrganization.t)
    (teamsFromKubernetes : list string) (n : nat) :
  let old := GithubTeamOperations (Operations (Status g)) in
  let current := Teams (Status g) in
  exists adds removes,
    TeamChangeCalculator clock g teamsFromKubernetes n
    = (if negb (List.length (adds ++ removes) =? 0)%nat
       then ((true,
              setState (setTeamOperations (Status g) (old ++ adds ++ removes))
                GithubOrganizationStatePendingOperations ""
                (clock (n + List.length (adds ++ removes))%nat)),
             S (n + List.length (adds ++ removes)))
       else ((false, setTeamOperations (Status g) (old ++ adds ++ removes)), n)) /\
    Forall (fun op => exists k t,
              k ∈ teamsFromKubernetes /\ teamSeen current k = false /\
              teamOperationFound old k GithubTeamOperationTypeAdd = false /\
              op = newTeamOperation GithubTeamOperationTypeAdd k t) adds /\
    Forall (fun op => exists o t,
              o ∈ current /\ teamSeen teamsFromKubernetes o = false /\
              teamOperationFound (old ++ adds) o
                GithubTeamOperationTypeRemove = false /\
              op = newTeamOperation GithubTeamOperationTypeRemove o t) removes /\
    (forall k, k ∈ teamsFromKubernetes -> teamSeen current k = false ->
       teamOperationFound (old ++ adds) k GithubTeamOperationTypeAdd = true) /\
    (forall o, o ∈ current -> teamSeen teamsFromKubernetes o = false ->
       teamOperationFound ((old ++ adds) ++ removes) o
         GithubTeamOperationTypeRemove = true).
Proof.
  intros old current. unfold TeamChangeCalculator. fold old. fold current.
  match goal with
  | |- context [bind (forEach ?b teamsFromKubernetes _) _] =>
      destruct (diffLoops_run clock (fun team : string => team) (teamSeen current)
                  (fun u op => strings.EqualFold (GithubTeamOperation.Team op) u &&
                     String.eqb (GithubTeamOperation.Operation op)
                       GithubTeamOperationTypeAdd &&
                     negb (String.eqb (GithubTeamOperation.State op)
                             GithubTeamOperationStateComplete))
                  (newTeamOperation GithubTeamOperationTypeAdd) b)
        with (l := teamsFromKubernetes) (ops := old) (flag := false) (n := n)
        as (adds & Hrun1 & Hsound1 & Hcomplete1)
  end.
  { intros u t. cbv beta.
    cbn [GithubTeamOperation.Team GithubTeamOperation.Operation
         GithubTeamOperation.State].
    rewrite EqualFold_refl. reflexivity. }
  { intros acc x m. unfold teamOperationFound.
    destruct (existsb _ current); [reflexivity|]. cbn [orb].
    destruct (existsb _ (fst acc)); reflexivity. }
  match goal with
  | |- context [forEach ?b current] =>
      destruct (diffLoops_run clock (fun team : string => team)
                  (teamSeen teamsFromKubernetes)
                  (fun u op => strings.EqualFold (GithubTeamOperation.Team op) u &&
                     String.eqb (GithubTeamOperation.Operation op)
                       GithubTeamOperationTypeRemove &&
                     negb (String.eqb (GithubTeamOperation.State op)
                             GithubTeamOperationStateComplete))
                  (newTeamOperation GithubTeamOperationTypeRemove) b)
        with (l := current) (ops := old ++ adds)
             (flag := false || negb (List.length adds =? 0)%nat)
             (n := (n + List.length adds)%nat)
        as (removes & Hrun2 & Hsound2 & Hcomplete2)
  end.
  { intros u t. cbv beta.
    cbn [GithubTeamOperation.Team GithubTeamOperation.Operation
         GithubTeamOperation.State].
    rewrite EqualFold_refl. reflexivity. }
  { intros acc x m. unfold teamOperationFound.
    destruct (existsb _ teamsFromKubernetes); [reflexivity|]. cbn [orb].
    destruct (existsb _ (fst acc)); reflexivity. }
  exists adds, removes.
  split; [|split; [exact Hsound1|split; [exact Hsound2|split; assumption]]].
  unfold bind at 1. rewrite Hrun1. unfold bind at 1. rewrite Hrun2.
  cbn [fst snd orb]. rewrite <- app_assoc, length_app.
  destruct adds, removes; cbn [List.length Nat.add Nat.eqb negb orb app];
    rewrite ?Nat.add_0_r, ?Nat.add_succ_r, ?Nat.add_assoc; reflexivity.
Qed.

(** Property X10.  TeamChangeCalculator only appends to the team queue,
    and what it appends are pending operations without error: an
    addition for a desired team that is not among the teams in the
    status, a removal for a team in the status that is not desired
    (names compared without regard to case), and none for a name for
    which an operation of that kind, not yet complete, was already
    queued.  The flag tells whether anything was appended; if not, the
    status comes back as it was and the clock is not read; if so, the
    state is "pending", the error is cleared, and the clock has been
    read once per operation and once more for the timestamp.  No other
    field changes. *)
Theorem TeamChangeCalculator_enqueues_differences
    (g : GithubOrganization.t) (teamsFromKubernetes : list string) (n : nat) :
  let old := GithubTeamOperations (Operations (Status g)) in
  let current := Teams (Status g) in
  let r := TeamChangeCalculator clock g teamsFromKubernetes n in
  let changed := fst (fst r) in
  let newStatus := snd (fst r) in
  exists new,
    GithubTeamOperations (Operations newStatus) = old ++ new /\
    Forall (fun op =>
      GithubTeamOperation.State op = GithubTeamOperationStatePending /\
      GithubTeamOperation.Error op = "" /\
      ((GithubTeamOperation.Operation op = GithubTeamOperationTypeAdd /\
        GithubTeamOperation.Team op ∈ teamsFromKubernetes /\
        ~ amongNames current (GithubTeamOperation.Team op) /\
        teamOperationFound old (GithubTeamOperation.Team op)
          GithubTeamOperationTypeAdd = false)
       \/
       (GithubTeamOperation.Operation op = GithubTeamOperationTypeRemove /\
        GithubTeamOperation.Team op ∈ current /\
        ~ amongNames teamsFromKubernetes (GithubTeamOperation.Team op) /\
        teamOperationFound old (GithubTeamOperation.Team op)
          GithubTeamOperationTypeRemove = false))) new /\
    (changed = true <-> new <> []) /\
    (changed = false -> newStatus = Status g /\ snd r = n) /\
    (changed = true ->
       OrganizationStatus newStatus = GithubOrganizationStatePendingOperations /\
       OrganizationStatusError newStatus = "" /\
       OrganizationStatusTimestamp newStatus = clock (n + List.length new)%nat /\
       snd r = S (n + List.length new)) /\
    setState (setTeamOperations newStatus old)
      (OrganizationStatus (Status g)) (OrganizationStatusError (Status g))
      (OrganizationStatusTimestamp (Status g)) = Status g.
Proof.
  intros old current r changed newStatus.
  destruct (TeamChangeCalculator_loops g teamsFromKubernetes n)
    as (adds & removes & Hrun & Hadds & Hremoves & _ & _).
  fold old current in Hrun, Hadds, Hremoves.
  exists (adds ++ removes).
  subst changed newStatus r. rewrite Hrun. clear Hrun.
  split.
  { destruct (negb _); reflexivity. }
  split.
  { apply Forall_app. split.
    - eapply Forall_impl; [exact Hadds|].
      intros op (k & t & Hk & Hseen & Hfound & ->).
      cbn [GithubTeamOperation.State GithubTeamOperation.Error
           GithubTeamOperation.Operation GithubTeamOperation.Team].
      split; [reflexivity|]. split; [reflexivity|]. left.
      split; [reflexivity|]. split; [exact Hk|].
      split; [apply not_teamSeen, Hseen|exact Hfound].
    - eapply Forall_impl; [exact Hremoves|].
      intros op (o & t & Ho & Hseen & Hfound & ->).
      cbn [GithubTeamOperation.State GithubTeamOperation.Error
           GithubTeamOperation.Operation GithubTeamOperation.Team].
      split; [reflexivity|]. split; [reflexivity|]. right.
      split; [reflexivity|]. split; [exact Ho|].
      split; [apply not_teamSeen, Hseen|].
      rewrite teamOperationFound_app in Hfound.
      apply orb_false_iff in Hfound as [Hfound _]. exact Hfound. }
  destruct (adds ++ removes) as [|op new] eqn:Hnew.
  - cbn [List.length Nat.eqb negb fst snd]. rewrite app_nil_r.
    split; [split; [intros H; discriminate H|intros H; contradiction H; reflexivity]|].
    split.
    { intros _. split; [|reflexivity].
      subst old. destruct (Status g) as [? ? ? ? ? ? ? ? []]. reflexivity. }
    split; [intros H; discriminate H|].
    subst old. destruct (Status g) as [? ? ? ? ? ? ? ? []]. reflexivity.
  - cbn [List.length Nat.eqb negb fst snd].
    split; [split; [intros _ H; discriminate H|reflexivity]|].
    split; [intros H; discriminate H|].
    split; [intros _; repeat split; reflexivity|].
    subst old. destruct (Status g) as [? ? ? ? ? ? ? ? []]. reflexivity.
Qed.

(** Property X11.  TeamChangeCalculator leaves nothing undone and does
    nothing twice: in the queue it returns, every desired team that is
    not among the teams in the status has an addition that is not yet
    complete, every team in the status that is not desired has such a
    removal, and the calculator run again on the status it returned,
    with the same desired teams, appends nothing, reports no change
    and does not read the clock. *)
Theorem TeamChangeCalculator_settles
    (g : GithubOrganization.t) (teamsFromKubernetes : list string) (n : nat) :
  let current := Teams (Status g) in
  let newStatus := snd (fst (TeamChangeCalculator clock g teamsFromKubernetes n)) in
  let queue := GithubTeamOperations (Operations newStatus) in
  (forall k, k ∈ teamsFromKubernetes -> ~ amongNames current k ->
     teamOperationFound queue k GithubTeamOperationTypeAdd = true) /\
  (forall o, o ∈ current -> ~ amongNames teamsFromKubernetes o ->
     teamOperationFound queue o GithubTeamOperationTypeRemove = true) /\
  forall n', TeamChangeCalculator clock (withStatus g newStatus)
               teamsFromKubernetes n'
             = ((false, newStatus), n').
Proof.
  intros current newStatus queue.
  destruct (TeamChangeCalculator_loops g teamsFromKubernetes n)
    as (adds & removes & Hrun & _ & _ & Hcomplete1 & Hcomplete2).
  fold current in Hcomplete1, Hcomplete2.
  set (old := GithubTeamOperations (Operations (Status g))) in *.
  assert (Hqueue : queue = old ++ adds ++ removes).
  { subst queue newStatus. rewrite Hrun. destruct (negb _); reflexivity. }
  assert (Hcurrent : Teams newStatus = current).
  { subst newStatus. rewrite Hrun. destruct (negb _); reflexivity. }
  assert (Hadd : forall k, k ∈ teamsFromKubernetes ->
            teamSeen current k = false ->
            teamOperationFound queue k GithubTeamOperationTypeAdd = true).
  { intros k Hk Hseen. rewrite Hqueue, app_assoc, teamOperationFound_app.
    rewrite (Hcomplete1 k Hk Hseen). reflexivity. }
  assert (Hremove : forall o, o ∈ current ->
            teamSeen teamsFromKubernetes o = false ->
            teamOperationFound queue o GithubTeamOperationTypeRemove = true).
  { intros o Ho Hseen. rewrite Hqueue, app_assoc. apply Hcomplete2; assumption. }
  split; [intros k Hk Hno; apply Hadd; [exact Hk|apply not_teamSeen, Hno]|].
  split; [intros o Ho Hno; apply Hremove; [exact Ho|apply not_teamSeen, Hno]|].
  intros n'.
  destruct (TeamChangeCalculator_loops (withStatus g newStatus)
              teamsFromKubernetes n')
    as (adds' & removes' & Hrun' & Hadds' & Hremoves' & _ & _).
  cbn [Status withStatus] in Hrun', Hadds', Hremoves'.
  fold queue in Hrun', Hadds', Hremoves'. rewrite Hcurrent in Hadds', Hremoves'.
  assert (adds' = []) as ->.
  { apply (Forall_absurd _ _ Hadds').
    intros op (k & t & Hk & Hseen & Hfound & _).
    rewrite (Hadd k Hk Hseen) in Hfound. discriminate Hfound. }
  assert (removes' = []) as ->.
  { apply (Forall_absurd _ _ Hremoves').
    intros op (o & t & Ho & Hseen & Hfound & _).
    rewrite app_nil_r, (Hremove o Ho Hseen) in Hfound. discriminate Hfound. }
  rewrite Hrun'. cbn [app List.length Nat.eqb negb]. rewrite app_nil_r.
  subst queue. destruct newStatus as [? ? ? ? ? ? ? ? []]. reflexivity.
Qed.

End TeamsCalculator.

Section RepoPolicy.
Import GithubOrganization.
Context (clock : Clock) (operations : list GithubRepoTeamOperation.t).

Lemma enqueueRemove_run (team repo : string)
    (newOperations : list GithubRepoTeamOperation.t) (n : nat) :
  enqueueRemove clock operations team repo newOperations n
  = if repoTeamOperationFound operations team repo
         GithubRepoTeamOperationTypeRemove
    then (newOperations, n)
    else (newOperations ++ [newRemove team repo (clock n)], S n).
Proof. unfold enqueueRemove. destruct (repoTeamOperationFound _ _ _ _); reflexivity. Qed.

Lemma enqueueAdd_run (waiting team repo permission : string)
    (newOperations : list GithubRepoTeamOperation.t) (n : nat) :
  enqueueAdd clock operations waiting team repo permission newOperations n
  = if repoTeamOperationFound operations waiting repo
         GithubRepoTeamOperationTypeAdd
    then (newOperations, n)
    else (newOperations ++ [newAdd team repo permission (clock n)], S n).
Proof. unfold enqueueAdd. destruct (repoTeamOperationFound _ _ _ _); reflexivity. Qed.

Section OneRepository.
Context (config : list GithubTeamWithPermission.t) (repo : GithubRepository.t).

Local Abbreviation allowed := (policyOperation operations config repo).

Lemma replacePermission_sound (team c : GithubTeamWithPermission.t)
    (newOperations : list GithubRepoTeamOperation.t) (n : nat) :
  team ∈ GithubRepository.Teams repo -> c ∈ config ->
  GithubTeamWithPermission.Team team = GithubTeamWithPermission.Team c ->
  GithubTeamWithPermission.Permission team
  <> GithubTeamWithPermission.Permission c ->
  exists ext,
    replacePermission clock operations repo team c newOperations n
    = (newOperations ++ ext, (n + List.length ext)%nat) /\
    Forall allowed ext.
Proof.
  intros Hteam Hc Hname Hperm. unfold replacePermission, bind.
  rewrite enqueueRemove_run.
  assert (Hremove : forall t,
            repoTeamOperationFound operations (GithubTeamWithPermission.Team team)
              (GithubRepository.Name repo) GithubRepoTeamOperationTypeRemove = false ->
            allowed (newRemove (GithubTeamWithPermission.Team team)
                       (GithubRepository.Name repo) t)).
  { intros t Hf. repeat (split; [first [reflexivity|exact Hf]|]).
    right. split; [reflexivity|]. split; [reflexivity|].
    exists team. split; [exact Hteam|]. split; [reflexivity|].
    right. exists c. auto. }
  assert (Hadd : forall t,
            repoTeamOperationFound operations (GithubTeamWithPermission.Team team)
              (GithubRepository.Name repo) GithubRepoTeamOperationTypeAdd = false ->
            allowed (newAdd (GithubTeamWithPermission.Team c)
                       (GithubRepository.Name repo)
                       (GithubTeamWithPermission.Permission c) t)).
  { intros t Hf. split; [reflexivity|]. split; [reflexivity|].
    split; [reflexivity|]. split.
    { cbn [newAdd GithubRepoTeamOperation.Team GithubRepoTeamOperation.Repo
           GithubRepoTeamOperation.Operation]. rewrite <- Hname. exact Hf. }
    left. split; [reflexivity|]. exists c. split; [exact Hc|].
    split; [reflexivity|]. split; [reflexivity|]. right. exists team. auto. }
  destruct (repoTeamOperationFound operations _ _ GithubRepoTeamOperationTypeRemove)
    eqn:Hr; rewrite enqueueAdd_run;
    destruct (repoTeamOperationFound operations _ _ GithubRepoTeamOperationTypeAdd)
      eqn:Ha.
  - exists []. rewrite app_nil_r, Nat.add_0_r. split; [reflexivity|constructor].
  - eexists [_]. cbn [List.length]. rewrite Nat.add_1_r.
    split; [reflexivity|]. constructor; [apply Hadd; reflexivity|constructor].
  - eexists [_]. cbn [List.length]. rewrite Nat.add_1_r.
    split; [reflexivity|]. constructor; [apply Hremove; reflexivity|constructor].
  - eexists [_; _]. cbn [List.length]. rewrite <- app_assoc.
    replace (n + 2)%nat with (S (S n)) by lia.
    split; [reflexivity|].
    constructor; [apply Hremove; reflexivity|].
    constructor; [apply Hadd; reflexivity|constructor].
Qed.

Lemma matchTeam_sound (team c : GithubTeamWithPermission.t)
    (acc : list GithubRepoTeamOperation.t * bool) (n : nat) :
  team ∈ GithubRepository.Teams repo -> c ∈ config ->
  exists ext,
    matchTeam clock operations repo team c acc n
    = ((fst acc ++ ext,
        snd acc || String.eqb (GithubTeamWithPermission.Team team)
                     (GithubTeamWithPermission.Team c)),
       (n + List.length ext)%nat) /\
    Forall allowed ext.
Proof.
  intros Hteam Hc. unfold matchTeam.
  destruct (String.eqb_spec (GithubTeamWithPermission.Team team)
              (GithubTeamWithPermission.Team c)) as [Hname|Hname].
  - rewrite orb_true_r.
    destruct (String.eqb_spec (GithubTeamWithPermission.Permission team)
                (GithubTeamWithPermission.Permission c)) as [Hperm|Hperm].
    + exists []. rewrite app_nil_r, Nat.add_0_r. split; [reflexivity|constructor].
    + destruct (replacePermission_sound team c (fst acc) n Hteam Hc Hname Hperm)
        as (ext & Hrun & Hext).
      exists ext. unfold bind. rewrite Hrun. split; [reflexivity|exact Hext].
  - exists []. rewrite app_nil_r, Nat.add_0_r, orb_false_r.
    destruct acc; split; [reflexivity|constructor].
Qed.

(** The inner loop over the teams of the repository, for one
    configured team. *)
Lemma configTeam_loop (c : GithubTeamWithPermission.t) (teams : list GithubTeamWithPermission.t) :
  c ∈ config -> (forall t, t ∈ teams -> t ∈ GithubRepository.Teams repo) ->
  forall (acc : list GithubRepoTeamOperation.t * bool) (n : nat),
  exists ext,
    forEach (fun acc team => matchTeam clock operations repo team c acc) teams acc n
    = ((fst acc ++ ext,
        snd acc || existsb (fun t => String.eqb (GithubTeamWithPermission.Team t)
                                       (GithubTeamWithPermission.Team c)) teams),
       (n + List.length ext)%nat) /\
    Forall allowed ext.
Proof.
  intros Hc. induction teams as [|t teams IH]; intros Hteams acc n; cbn [forEach existsb].
  - exists []. rewrite app_nil_r, Nat.add_0_r, orb_false_r.
    destruct acc; split; [reflexivity|constructor].
  - destruct (matchTeam_sound t c acc n) as (e1 & Hrun1 & He1);
      [apply Hteams, list_elem_of_here|exact Hc|].
    unfold bind. rewrite Hrun1.
    destruct (IH (fun t' Ht' => Hteams t' (list_elem_of_further _ _ _ Ht'))
                (fst acc ++ e1,
                 snd acc || String.eqb (GithubTeamWithPermission.Team t)
                              (GithubTeamWithPermission.Team c))
                (n + List.length e1)%nat)
      as (e2 & Hrun2 & He2).
    exists (e1 ++ e2). rewrite Hrun2. cbn [fst snd].
    rewrite length_app, <- app_assoc, Nat.add_assoc, orb_assoc.
    split; [reflexivity|apply Forall_app; auto].
Qed.

(** The inner loop over the configured teams, for one team of the
    repository. *)
Lemma repoTeam_loop (t : GithubTeamWithPermission.t) (cs : list GithubTeamWithPermission.t) :
  t ∈ GithubRepository.Teams repo -> (forall c, c ∈ cs -> c ∈ config) ->
  forall (acc : list GithubRepoTeamOperation.t * bool) (n : nat),
  exists ext,
    forEach (fun acc c => matchTeam clock operations repo t c acc) cs acc n
    = ((fst acc ++ ext,
        snd acc || existsb (fun c => String.eqb (GithubTeamWithPermission.Team t)
                                       (GithubTeamWithPermission.Team c)) cs),
       (n + List.length ext)%nat) /\
    Forall allowed ext.
Proof.
  intros Ht. induction cs as [|c cs IH]; intros Hcs acc n; cbn [forEach existsb].
  - exists []. rewrite app_nil_r, Nat.add_0_r, orb_false_r.
    destruct acc; split; [reflexivity|constructor].
  - destruct (matchTeam_sound t c acc n) as (e1 & Hrun1 & He1);
      [exact Ht|apply Hcs, list_elem_of_here|].
    unfold bind. rewrite Hrun1.
    destruct (IH (fun c' Hc' => Hcs c' (list_elem_of_further _ _ _ Hc'))
                (fst acc ++ e1,
                 snd acc || String.eqb (GithubTeamWithPermission.Team t)
                              (GithubTeamWithPermission.Team c))
                (n + List.length e1)%nat)
      as (e2 & Hrun2 & He2).
    exists (e1 ++ e2). rewrite Hrun2. cbn [fst snd].
    rewrite length_app, <- app_assoc, Nat.add_assoc, orb_assoc.
    split; [reflexivity|apply Forall_app; auto].
Qed.

Lemma existsb_none {A} (f : A -> bool) (l : list A) :
  existsb f l = false -> forall x, x ∈ l -> f x = false.
Proof.
  intros H x Hx. destruct (f x) eqn:Hf; [|reflexivity].
  assert (existsb f l = true) as H'; [|rewrite H' in H; discriminate H].
  apply existsb_exists. exists x. split; [apply list_elem_of_In, Hx|exact Hf].
Qed.

(** "ensure that default teams are assigned" *)
Lemma assign_loop (cs : list GithubTeamWithPermission.t) :
  (forall c, c ∈ cs -> c ∈ config) ->
  forall (newOperations : list GithubRepoTeamOperation.t) (n : nat),
  exists ext,
    forEach (fun newOperations configTeam =>
      acc <- forEach (fun acc team => matchTeam clock operations repo team configTeam acc)
               (GithubRepository.Teams repo) (newOperations, false) ;;
      if snd acc then ret (fst acc)
      else enqueueAdd clock operations (GithubTeamWithPermission.Team configTeam)
             (GithubTeamWithPermission.Team configTeam)
             (GithubRepository.Name repo)
             (GithubTeamWithPermission.Permission configTeam) (fst acc))
      cs newOperations n
    = (newOperations ++ ext, (n + List.length ext)%nat) /\
    Forall allowed ext.
Proof.
  match goal with |- context [forEach ?b cs] => set (body := b) end.
  induction cs as [|c cs IH]; intros Hcs newOperations n; cbn [forEach].
  - exists []. rewrite app_nil_r, Nat.add_0_r. split; [reflexivity|constructor].
  - assert (Hc : c ∈ config) by apply Hcs, list_elem_of_here.
    destruct (configTeam_loop c (GithubRepository.Teams repo) Hc (fun t Ht => Ht)
                (newOperations, false) n) as (e1 & Hrun1 & He1).
    unfold bind at 1. unfold body at 1. unfold bind at 1.
    rewrite Hrun1. cbn [fst snd orb].
    destruct (existsb _ (GithubRepository.Teams repo)) eqn:Hfound.
    + destruct (IH (fun c' Hc' => Hcs c' (list_elem_of_further _ _ _ Hc'))
                  (newOperations ++ e1) (n + List.length e1)%nat)
        as (e2 & Hrun2 & He2).
      exists (e1 ++ e2). unfold ret. cbv beta iota. rewrite Hrun2.
      rewrite length_app, <- app_assoc, Nat.add_assoc.
      split; [reflexivity|apply Forall_app; auto].
    + rewrite enqueueAdd_run.
      destruct (repoTeamOperationFound operations _ _ _) eqn:Hwaiting.
      * destruct (IH (fun c' Hc' => Hcs c' (list_elem_of_further _ _ _ Hc'))
                    (newOperations ++ e1) (n + List.length e1)%nat)
          as (e2 & Hrun2 & He2).
        exists (e1 ++ e2). cbv beta iota. rewrite Hrun2.
        rewrite length_app, <- app_assoc, Nat.add_assoc.
        split; [reflexivity|apply Forall_app; auto].
      * match goal with
        | |- context [(newOperations ++ e1) ++ [?o]] =>
            destruct (IH (fun c' Hc' => Hcs c' (list_elem_of_further _ _ _ Hc'))
                        ((newOperations ++ e1) ++ [o]) (S (n + List.length e1)))
              as (e2 & Hrun2 & He2);
            exists (e1 ++ o :: e2)
        end.
        cbv beta iota. rewrite Hrun2. rewrite length_app. cbn [List.length].
        rewrite <- !app_assoc. cbn [app].
        replace (S (n + List.length e1) + List.length e2)%nat
          with (n + (List.length e1 + S (List.length e2)))%nat by lia.
        split; [reflexivity|]. apply Forall_app. split; [exact He1|].
        constructor; [|exact He2].
        split; [reflexivity|]. split; [reflexivity|]. split; [reflexivity|].
        split; [exact Hwaiting|]. left. split; [reflexivity|].
        exists c. split; [exact Hc|]. split; [reflexivity|]. split; [reflexivity|].
        left. intros t Ht. apply String.eqb_neq.
        apply (existsb_none _ _ Hfound t Ht).
Qed.

(** "iterate over the teams in the repo" *)
Lemma teams_loop (ts : list GithubTeamWithPermission.t) :
  (forall t, t ∈ ts -> t ∈ GithubRepository.Teams repo) ->
  forall (newOperations : list GithubRepoTeamOperation.t) (n : nat),
  exists ext,
    forEach (fun newOperations team =>
      acc <- forEach (fun acc configTeam => matchTeam clock operations repo team configTeam acc)
               config (newOperations, false) ;;
      if snd acc then ret (fst acc)
      else enqueueRemove clock operations (GithubTeamWithPermission.Team team)
             (GithubRepository.Name repo) (fst acc))
      ts newOperations n
    = (newOperations ++ ext, (n + List.length ext)%nat) /\
    Forall allowed ext.
Proof.
  match goal with |- context [forEach ?b ts] => set (body := b) end.
  induction ts as [|t ts IH]; intros Hts newOperations n; cbn [forEach].
  - exists []. rewrite app_nil_r, Nat.add_0_r. split; [reflexivity|constructor].
  - assert (Ht : t ∈ GithubRepository.Teams repo) by apply Hts, list_elem_of_here.
    destruct (repoTeam_loop t config Ht (fun c Hc => Hc)
                (newOperations, false) n) as (e1 & Hrun1 & He1).
    unfold bind at 1. unfold body at 1. unfold bind at 1.
    rewrite Hrun1. cbn [fst snd orb].
    destruct (existsb _ config) eqn:Hfound.
    + destruct (IH (fun t' Ht' => Hts t' (list_elem_of_further _ _ _ Ht'))
                  (newOperations ++ e1) (n + List.length e1)%nat)
        as (e2 & Hrun2 & He2).
      exists (e1 ++ e2). unfold ret. cbv beta iota. rewrite Hrun2.
      rewrite length_app, <- app_assoc, Nat.add_assoc.
      split; [reflexivity|apply Forall_app; auto].
    + rewrite enqueueRemove_run.
      destruct (repoTeamOperationFound operations _ _ _) eqn:Hwaiting.
      * destruct (IH (fun t' Ht' => Hts t' (list_elem_of_further _ _ _ Ht'))
                    (newOperations ++ e1) (n + List.length e1)%nat)
          as (e2 & Hrun2 & He2).
        exists (e1 ++ e2). cbv beta iota. rewrite Hrun2.
        rewrite length_app, <- app_assoc, Nat.add_assoc.
        split; [reflexivity|apply Forall_app; auto].
      * match goal with
        | |- context [(newOperations ++ e1) ++ [?o]] =>
            destruct (IH (fun t' Ht' => Hts t' (list_elem_of_further _ _ _ Ht'))
                        ((newOperations ++ e1) ++ [o]) (S (n + List.length e1)))
              as (e2 & Hrun2 & He2);
            exists (e1 ++ o :: e2)
        end.
        cbv beta iota. rewrite Hrun2. rewrite length_app. cbn [List.length].
        rewrite <- !app_assoc. cbn [app].
        replace (S (n + List.length e1) + List.length e2)%nat
          with (n + (List.length e1 + S (List.length e2)))%nat by lia.
        split; [reflexivity|]. apply Forall_app. split; [exact He1|].
        constructor; [|exact He2].
        split; [reflexivity|]. split; [reflexivity|]. split; [reflexivity|].
        split; [exact Hwaiting|]. right. split; [reflexivity|].
        split; [reflexivity|].
        exists t. split; [exact Ht|]. split; [reflexivity|].
        left. intros c Hc. apply String.eqb_neq.
        apply (existsb_none _ _ Hfound c Hc).
Qed.
End OneRepository.

Lemma repoStep_sound (defaultConfig : list GithubTeamWithPermission.t)
    (exceptions : list GithubTeamRepository.t) (skip : list string)
    (newOperations : list GithubRepoTeamOperation.t) (repo : GithubRepository.t)
    (n : nat) :
  exists ext,
    repoStep clock defaultConfig exceptions skip operations newOperations repo n
    = (newOperations ++ ext, (n + List.length ext)%nat) /\
    Forall (policyOperation operations
              (effectiveConfig defaultConfig exceptions skip repo) repo) ext.
Proof.
  unfold repoStep. cbv zeta.
  set (config := effectiveConfig defaultConfig exceptions skip repo).
  destruct (assign_loop config repo config (fun c Hc => Hc) newOperations n)
    as (e1 & Hrun1 & He1).
  unfold bind at 1. rewrite Hrun1.
  destruct (teams_loop config repo (GithubRepository.Teams repo) (fun t Ht => Ht)
              (newOperations ++ e1) (n + List.length e1)%nat)
    as (e2 & Hrun2 & He2).
  exists (e1 ++ e2). rewrite Hrun2, length_app, <- app_assoc, Nat.add_assoc.
  split; [reflexivity|apply Forall_app; auto].
Qed.

Lemma repoChangeCalculator_sound (defaultConfig : list GithubTeamWithPermission.t)
    (actual : list GithubRepository.t)
    (exceptions : list GithubTeamRepository.t) (skip : list string) (n : nat) :
  exists new,
    repoChangeCalculator clock defaultConfig actual exceptions skip operations n
    = (new, (n + List.length new)%nat) /\
    Forall (fun op => exists repo, repo ∈ actual /\
              policyOperation operations
                (effectiveConfig defaultConfig exceptions skip repo) repo op) new.
Proof.
  unfold repoChangeCalculator.
  assert (H : forall (rest : list GithubRepository.t),
            (forall repo, repo ∈ rest -> repo ∈ actual) ->
            forall (acc : list GithubRepoTeamOperation.t) (m : nat),
            exists ext,
              forEach (repoStep clock defaultConfig exceptions skip operations)
                rest acc m
              = (acc ++ ext, (m + List.length ext)%nat) /\
              Forall (fun op => exists repo, repo ∈ actual /\
                        policyOperation operations
                          (effectiveConfig defaultConfig exceptions skip repo)
                          repo op) ext).
  { induction rest as [|repo rest IH]; intros Hrest acc m; cbn [forEach].
    - exists []. rewrite app_nil_r, Nat.add_0_r. split; [reflexivity|constructor].
    - destruct (repoStep_sound defaultConfig exceptions skip acc repo m)
        as (e1 & Hrun1 & He1).
      unfold bind. rewrite Hrun1.
      destruct (IH (fun r Hr => Hrest r (list_elem_of_further _ _ _ Hr))
                  (acc ++ e1) (m + List.length e1)%nat) as (e2 & Hrun2 & He2).
      exists (e1 ++ e2). rewrite Hrun2, length_app, <- app_assoc, Nat.add_assoc.
      split; [reflexivity|]. apply Forall_app. split; [|exact He2].
      eapply Forall_impl; [exact He1|]. intros op Hop. exists repo.
      split; [apply Hrest, list_elem_of_here|exact Hop]. }
  destruct (H actual (fun r Hr => Hr) [] n) as (new & Hrun & Hnew).
  exists new. split; [exact Hrun|exact Hnew].
Qed.

End RepoPolicy.

Section RepoCalculatorPolicy.
Import GithubOrganization.
Context (clock : Clock).

(** The two runs of [repoChangeCalculator] inside
    [RepoChangeCalculator], when both default lists are there. *)
Lemma RepoChangeCalculator_runs (g : GithubOrganization.t)
    (exceptions : list GithubTeamRepository.t) (n : nat) :
  DefaultPrivateRepositoryTeams (Spec g) <> [] ->
  DefaultPublicRepositoryTeams (Spec g) <> [] ->
  let old := RepositoryTeamOperations (Operations (Status g)) in
  let private :=
    fst (repoChangeCalculator clock (DefaultPrivateRepositoryTeams (Spec g))
           (PrivateRepositories (Status g)) exceptions (skipList g) old n) in
  let public :=
    fst (repoChangeCalculator clock (DefaultPublicRepositoryTeams (Spec g))
           (PublicRepositories (Status g)) exceptions (skipList g) old
           (n + List.length private)%nat) in
  RepoChangeCalculator clock g exceptions n
  = (if negb (List.length (private ++ public) =? 0)%nat
     then ((true,
            setState (setRepositoryTeamOperations (Status g)
                        (old ++ private ++ public))
              GithubOrganizationStatePendingOperations ""
              (clock (n + List.length (private ++ public))%nat)),
           S (n + List.length (private ++ public)))
     else ((false, setRepositoryTeamOperations (Status g)
                     (old ++ private ++ public)), n)).
Proof.
  intros Hpriv Hpub old private public.
  unfold RepoChangeCalculator.
  destruct (DefaultPrivateRepositoryTeams (Spec g)) as [|c1 cs1] eqn:H1;
    [contradiction Hpriv; reflexivity|].
  destruct (DefaultPublicRepositoryTeams (Spec g)) as [|c2 cs2] eqn:H2;
    [contradiction Hpub; reflexivity|].
  cbv zeta. fold (skipList g). fold old.
  destruct (repoChangeCalculator_sound clock old (c1 :: cs1)
              (PrivateRepositories (Status g)) exceptions (skipList g) n)
    as (new1 & Hrun1 & _).
  assert (private = new1) as Hp by (subst private; rewrite Hrun1; reflexivity).
  destruct (repoChangeCalculator_sound clock old (c2 :: cs2)
              (PublicRepositories (Status g)) exceptions (skipList g)
              (n + List.length new1)%nat)
    as (new2 & Hrun2 & _).
  assert (public = new2) as Hq
    by (subst public; rewrite Hp, Hrun2; reflexivity).
  rewrite Hp, Hq. clear Hp Hq private public.
  unfold bind at 1. rewrite Hrun1. unfold bind at 1.
  cbn [setRepositoryTeamOperations setOperations Operations
       RepositoryTeamOperations OrganizationOwnerOperations GithubTeamOperations].
  fold old. rewrite Hrun2. rewrite length_app, <- app_assoc.
  destruct new1, new2; cbn [List.length Nat.add Nat.eqb negb orb app Nat.ltb Nat.leb];
    unfold bind, metav1_Now, ret; rewrite ?app_nil_r, ?Nat.add_0_r, ?Nat.add_succ_r,
      ?Nat.add_assoc; reflexivity.
Qed.

(** Property X12.  With both default lists there, RepoChangeCalculator
    only appends to the repository-team queue: first what the private
    repositories need, then what the public ones need.  Each operation
    appended is pending, without error, for a repository of the list,
    and is either the addition of a team configured for the repository
    (default, unless the repository is on the skip list, or exception)
    that the repository lacks or has with another permission, with the
    configured permission, or the removal of a team of the repository
    that is not configured or is configured with another permission;
    and none is appended when an operation of that kind for the team
    and the repository, not yet complete, was already queued.  The flag
    tells whether anything was appended; if not, the status comes back
    as it was and the clock is not read; if so, the state is
    "pending" and the error is cleared. *)
Theorem RepoChangeCalculator_enqueues_policy_operations
    (g : GithubOrganization.t) (exceptions : list GithubTeamRepository.t)
    (n : nat) :
  DefaultPrivateRepositoryTeams (Spec g) <> [] ->
  DefaultPublicRepositoryTeams (Spec g) <> [] ->
  let old := RepositoryTeamOperations (Operations (Status g)) in
  let r := RepoChangeCalculator clock g exceptions n in
  let changed := fst (fst r) in
  let newStatus := snd (fst r) in
  exists private public,
    RepositoryTeamOperations (Operations newStatus) = old ++ private ++ public /\
    Forall (fun op => exists repo,
              repo ∈ PrivateRepositories (Status g) /\
              policyOperation old
                (effectiveConfig (DefaultPrivateRepositoryTeams (Spec g))
                   exceptions (skipList g) repo) repo op) private /\
    Forall (fun op => exists repo,
              repo ∈ PublicRepositories (Status g) /\
              policyOperation old
                (effectiveConfig (DefaultPublicRepositoryTeams (Spec g))
                   exceptions (skipList g) repo) repo op) public /\
    (changed = true <-> private ++ public <> []) /\
    (changed = false -> newStatus = Status g /\ snd r = n) /\
    (changed = true ->
       OrganizationStatus newStatus = GithubOrganizationStatePendingOperations /\
       OrganizationStatusError newStatus = "" /\
       OrganizationStatusTimestamp newStatus
       = clock (n + List.length (private ++ public))%nat /\
       snd r = S (n + List.length (private ++ public))) /\
    setState (setRepositoryTeamOperations newStatus old)
      (OrganizationStatus (Status g)) (OrganizationStatusError (Status g))
      (OrganizationStatusTimestamp (Status g)) = Status g.
Proof.
  intros Hpriv Hpub old r changed newStatus.
  pose proof (RepoChangeCalculator_runs g exceptions n Hpriv Hpub) as Hrun.
  cbv zeta in Hrun. fold old in Hrun.
  destruct (repoChangeCalculator_sound clock old
              (DefaultPrivateRepositoryTeams (Spec g))
              (PrivateRepositories (Status g)) exceptions (skipList g) n)
    as (private & Hrun1 & Hprivate).
  rewrite Hrun1 in Hrun. cbn [fst] in Hrun.
  destruct (repoChangeCalculator_sound clock old
              (DefaultPublicRepositoryTeams (Spec g))
              (PublicRepositories (Status g)) exceptions (skipList g)
              (n + List.length private)%nat)
    as (public & Hrun2 & Hpublic).
  rewrite Hrun2 in Hrun. cbn [fst] in Hrun.
  exists private, public.
  subst changed newStatus r. rewrite Hrun. clear Hrun Hrun1 Hrun2.
  split; [destruct (negb _); reflexivity|].
  split; [exact Hprivate|]. split; [exact Hpublic|].
  destruct (private ++ public) as [|op new] eqn:Hnew.
  - cbn [List.length Nat.eqb negb fst snd].
    split; [split; [intros H; discriminate H|intros H; contradiction H; reflexivity]|].
    split.
    { intros _. split; [|reflexivity]. rewrite app_nil_r.
      subst old. destruct (Status g) as [? ? ? ? ? ? ? ? []]. reflexivity. }
    split; [intros H; discriminate H|].
    subst old. destruct (Status g) as [? ? ? ? ? ? ? ? []]. reflexivity.
  - cbn [List.length Nat.eqb negb fst snd].
    split; [split; [intros _ H; discriminate H|reflexivity]|].
    split; [intros H; discriminate H|].
    split; [intros _; repeat split; reflexivity|].
    subst old. destruct (Status g) as [? ? ? ? ? ? ? ? []]. reflexivity.
Qed.

End RepoCalculatorPolicy.

(** *** A second run of the repository calculator

    The calculator asks of the queue only whether an operation of a
    kind for a team and a repository waits there.  On a queue that has
    whatever a first run found or appended, a second run over the same
    repositories and configuration appends nothing. *)

Section RepoSecondRun.
Import GithubOrganization.
Context (clock : Clock).
Context (operations later : list GithubRepoTeamOperation.t).
Hypothesis later_has : forall team repo kind,
  repoTeamOperationFound operations team repo kind = true ->
  repoTeamOperationFound later team repo kind = true.

Local Abbreviation waits := (fun op : GithubRepoTeamOperation.t =>
  repoTeamOperationFound later (GithubRepoTeamOperation.Team op)
    (GithubRepoTeamOperation.Repo op) (GithubRepoTeamOperation.Operation op)
  = true).

Lemma waits_last (l : list GithubRepoTeamOperation.t)
    (op : GithubRepoTeamOperation.t) :
  Forall waits (l ++ [op]) -> waits op.
Proof.
  intros H. apply Forall_app in H as [_ H]. inversion H; assumption.
Qed.

Lemma waits_front (l ext : list GithubRepoTeamOperation.t) :
  Forall waits (l ++ ext) -> Forall waits l.
Proof. intros H. apply Forall_app in H as [H _]. exact H. Qed.

Lemma enqueueRemove_again (team repo : string)
    (acc1 acc2 : list GithubRepoTeamOperation.t) (n1 n2 : nat) :
  Forall waits (fst (enqueueRemove clock operations team repo acc1 n1)) ->
  enqueueRemove clock later team repo acc2 n2 = (acc2, n2).
Proof.
  rewrite !enqueueRemove_run.
  destruct (repoTeamOperationFound operations team repo _) eqn:H.
  - rewrite (later_has _ _ _ H). reflexivity.
  - cbn [fst]. intros Hw. apply waits_last in Hw.
    cbn [newRemove GithubRepoTeamOperation.Team GithubRepoTeamOperation.Repo
         GithubRepoTeamOperation.Operation] in Hw.
    rewrite Hw. reflexivity.
Qed.

Lemma enqueueAdd_again (team repo permission : string)
    (acc1 acc2 : list GithubRepoTeamOperation.t) (n1 n2 : nat) :
  Forall waits (fst (enqueueAdd clock operations team team repo permission acc1 n1)) ->
  enqueueAdd clock later team team repo permission acc2 n2 = (acc2, n2).
Proof.
  rewrite !enqueueAdd_run.
  destruct (repoTeamOperationFound operations team repo _) eqn:H.
  - rewrite (later_has _ _ _ H). reflexivity.
  - cbn [fst]. intros Hw. apply waits_last in Hw.
    cbn [newAdd GithubRepoTeamOperation.Team GithubRepoTeamOperation.Repo
         GithubRepoTeamOperation.Operation] in Hw.
    rewrite Hw. reflexivity.
Qed.

Section OneRepository.
Context (config : list GithubTeamWithPermission.t) (repo : GithubRepository.t).

Lemma replacePermission_again (team c : GithubTeamWithPermission.t)
    (acc1 acc2 : list GithubRepoTeamOperation.t) (n1 n2 : nat) :
  GithubTeamWithPermission.Team team = GithubTeamWithPermission.Team c ->
  Forall waits (fst (replacePermission clock operations repo team c acc1 n1)) ->
  replacePermission clock later repo team c acc2 n2 = (acc2, n2).
Proof.
  intros Hname. unfold replacePermission, bind. rewrite <- Hname.
  destruct (enqueueRemove clock operations _ _ acc1 n1) as [a m] eqn:Hrem.
  intros Hw.
  assert (Ha : Forall waits a).
  { rewrite enqueueAdd_run in Hw.
    destruct (repoTeamOperationFound operations _ _ _); cbn [fst] in Hw;
      [exact Hw|exact (waits_front _ _ Hw)]. }
  rewrite (enqueueRemove_again _ _ acc1 acc2 n1 n2) by (rewrite Hrem; exact Ha).
  apply (enqueueAdd_again _ _ _ a acc2 m n2). exact Hw.
Qed.

Lemma matchTeam_again (team c : GithubTeamWithPermission.t)
    (acc1 acc2 : list GithubRepoTeamOperation.t * bool) (n1 n2 : nat) :
  Forall waits (fst (fst (matchTeam clock operations repo team c acc1 n1))) ->
  matchTeam clock later repo team c acc2 n2
  = ((fst acc2,
      snd acc2 || String.eqb (GithubTeamWithPermission.Team team)
                    (GithubTeamWithPermission.Team c)), n2).
Proof.
  unfold matchTeam.
  destruct (String.eqb_spec (GithubTeamWithPermission.Team team)
              (GithubTeamWithPermission.Team c)) as [Hname|Hname].
  - rewrite orb_true_r.
    destruct (String.eqb (GithubTeamWithPermission.Permission team)
                (GithubTeamWithPermission.Permission c)); [reflexivity|].
    unfold bind.
    destruct (replacePermission clock operations repo team c (fst acc1) n1)
      as [a m] eqn:Hrep.
    cbn [ret fst]. intros Hw.
    rewrite (replacePermission_again team c (fst acc1) (fst acc2) n1 n2 Hname)
      by (rewrite Hrep; exact Hw).
    reflexivity.
  - intros _. rewrite orb_false_r. destruct acc2; reflexivity.
Qed.

Lemma configTeam_loop_again (c : GithubTeamWithPermission.t)
    (teams : list GithubTeamWithPermission.t) :
  c ∈ config -> (forall t, t ∈ teams -> t ∈ GithubRepository.Teams repo) ->
  forall (acc1 acc2 : list GithubRepoTeamOperation.t * bool) (n1 n2 : nat),
  Forall waits
    (fst (fst (forEach (fun acc team => matchTeam clock operations repo team c acc)
                 teams acc1 n1))) ->
  forEach (fun acc team => matchTeam clock later repo team c acc) teams acc2 n2
  = ((fst acc2,
      snd acc2 || existsb (fun t => String.eqb (GithubTeamWithPermission.Team t)
                                     (GithubTeamWithPermission.Team c)) teams),
     n2).
Proof.
  intros Hc. induction teams as [|t teams IH]; intros Hteams acc1 acc2 n1 n2;
    cbn [forEach existsb].
  - intros _. rewrite orb_false_r. destruct acc2; reflexivity.
  - unfold bind.
    destruct (matchTeam_sound clock operations config repo t c acc1 n1)
      as (e1 & Hrun1 & _); [apply Hteams, list_elem_of_here|exact Hc|].
    rewrite Hrun1. intros Hw.
    assert (Hfront : Forall waits (fst acc1 ++ e1)).
    { destruct (configTeam_loop clock operations config repo c teams Hc
                  (fun t' Ht' => Hteams t' (list_elem_of_further _ _ _ Ht'))
                  (fst acc1 ++ e1,
                   snd acc1 || String.eqb (GithubTeamWithPermission.Team t)
                                 (GithubTeamWithPermission.Team c))
                  (n1 + List.length e1)%nat) as (e2 & Hrun2 & _).
      rewrite Hrun2 in Hw. cbn [fst] in Hw. exact (waits_front _ _ Hw). }
    rewrite (matchTeam_again t c acc1 acc2 n1 n2)
      by (rewrite Hrun1; exact Hfront).
    rewrite (IH (fun t' Ht' => Hteams t' (list_elem_of_further _ _ _ Ht'))
               _ _ _ _ Hw).
    cbn [fst snd]. rewrite orb_assoc. reflexivity.
Qed.

Lemma repoTeam_loop_again (t : GithubTeamWithPermission.t)
    (cs : list GithubTeamWithPermission.t) :
  t ∈ GithubRepository.Teams repo -> (forall c, c ∈ cs -> c ∈ config) ->
  forall (acc1 acc2 : list GithubRepoTeamOperation.t * bool) (n1 n2 : nat),
  Forall waits
    (fst (fst (forEach (fun acc c => matchTeam clock operations repo t c acc)
                 cs acc1 n1))) ->
  forEach (fun acc c => matchTeam clock later repo t c acc) cs acc2 n2
  = ((fst acc2,
      snd acc2 || existsb (fun c => String.eqb (GithubTeamWithPermission.Team t)
                                     (GithubTeamWithPermission.Team c)) cs),
     n2).
Proof.
  intros Ht. induction cs as [|c cs IH]; intros Hcs acc1 acc2 n1 n2;
    cbn [forEach existsb].
  - intros _. rewrite orb_false_r. destruct acc2; reflexivity.
  - unfold bind.
    destruct (matchTeam_sound clock operations config repo t c acc1 n1)
      as (e1 & Hrun1 & _); [exact Ht|apply Hcs, list_elem_of_here|].
    rewrite Hrun1. intros Hw.
    assert (Hfront : Forall waits (fst acc1 ++ e1)).
    { destruct (repoTeam_loop clock operations config repo t cs Ht
                  (fun c' Hc' => Hcs c' (list_elem_of_further _ _ _ Hc'))
                  (fst acc1 ++ e1,
                   snd acc1 || String.eqb (GithubTeamWithPermission.Team t)
                                 (GithubTeamWithPermission.Team c))
                  (n1 + List.length e1)%nat) as (e2 & Hrun2 & _).
      rewrite Hrun2 in Hw. cbn [fst] in Hw. exact (waits_front _ _ Hw). }
    rewrite (matchTeam_again t c acc1 acc2 n1 n2)
      by (rewrite Hrun1; exact Hfront).
    rewrite (IH (fun c' Hc' => Hcs c' (list_elem_of_further _ _ _ Hc'))
               _ _ _ _ Hw).
    cbn [fst snd]. rewrite orb_assoc. reflexivity.
Qed.

Lemma assign_loop_again (cs : list GithubTeamWithPermission.t) :
  (forall c, c ∈ cs -> c ∈ config) ->
  forall (acc1 acc2 : list GithubRepoTeamOperation.t) (n1 n2 : nat),
  Forall waits
    (fst (forEach (fun newOperations configTeam =>
            acc <- forEach (fun acc team =>
                              matchTeam clock operations repo team configTeam acc)
                     (GithubRepository.Teams repo) (newOperations, false) ;;
            if snd acc then ret (fst acc)
            else enqueueAdd clock operations
                   (GithubTeamWithPermission.Team configTeam)
                   (GithubTeamWithPermission.Team configTeam)
                   (GithubRepository.Name repo)
                   (GithubTeamWithPermission.Permission configTeam) (fst acc))
            cs acc1 n1)) ->
  forEach (fun newOperations configTeam =>
    acc <- forEach (fun acc team => matchTeam clock later repo team configTeam acc)
             (GithubRepository.Teams repo) (newOperations, false) ;;
    if snd acc then ret (fst acc)
    else enqueueAdd clock later (GithubTeamWithPermission.Team configTeam)
           (GithubTeamWithPermission.Team configTeam)
           (GithubRepository.Name repo)
           (GithubTeamWithPermission.Permission configTeam) (fst acc))
    cs acc2 n2
  = (acc2, n2).
Proof.
  match goal with
  | |- _ -> forall _ _ _ _, Forall _ (fst (forEach ?b1 cs _ _)) ->
            forEach ?b2 cs _ _ = _ =>
      set (body1 := b1); set (body2 := b2)
  end.
  induction cs as [|c cs IH]; intros Hcs acc1 acc2 n1 n2; cbn [forEach];
    [reflexivity|].
  assert (Hc : c ∈ config) by apply Hcs, list_elem_of_here.
  assert (Hrest : forall c', c' ∈ cs -> c' ∈ config)
    by (intros c' Hc'; apply Hcs, list_elem_of_further, Hc').
  unfold bind at 1. intros Hw.
  destruct (body1 acc1 c n1) as [r1 m1] eqn:Hstep.
  assert (Hr1 : Forall waits r1).
  { destruct (assign_loop clock operations config repo cs Hrest r1 m1)
      as (e & Hrun & _).
    fold body1 in Hrun. rewrite Hrun in Hw. exact (waits_front _ _ Hw). }
  unfold bind at 1.
  assert (Hstep2 : body2 acc2 c n2 = (acc2, n2)).
  { unfold body1 in Hstep. unfold body2, bind. unfold bind in Hstep.
    destruct (configTeam_loop clock operations config repo c
                (GithubRepository.Teams repo) Hc (fun t Ht => Ht)
                (acc1, false) n1) as (e1 & Hrun1 & _).
    rewrite Hrun1 in Hstep. cbn [fst snd orb] in Hstep.
    assert (Hinner : Forall waits (acc1 ++ e1)).
    { destruct (existsb _ (GithubRepository.Teams repo)).
      - injection Hstep as <- _. exact Hr1.
      - rewrite enqueueAdd_run in Hstep.
        destruct (repoTeamOperationFound operations _ _ _);
          injection Hstep as <- _; [exact Hr1|exact (waits_front _ _ Hr1)]. }
    rewrite (configTeam_loop_again c (GithubRepository.Teams repo) Hc
               (fun t Ht => Ht) (acc1, false) (acc2, false) n1 n2)
      by (rewrite Hrun1; exact Hinner).
    cbn [fst snd orb].
    destruct (existsb _ (GithubRepository.Teams repo)); [reflexivity|].
    apply (enqueueAdd_again _ _ _ (acc1 ++ e1) acc2 (n1 + List.length e1)%nat n2).
    rewrite Hstep. exact Hr1. }
  rewrite Hstep2. apply (IH Hrest r1 acc2 m1 n2). exact Hw.
Qed.

Lemma teams_loop_again (ts : list GithubTeamWithPermission.t) :
  (forall t, t ∈ ts -> t ∈ GithubRepository.Teams repo) ->
  forall (acc1 acc2 : list GithubRepoTeamOperation.t) (n1 n2 : nat),
  Forall waits
    (fst (forEach (fun newOperations team =>
            acc <- forEach (fun acc configTeam =>
                              matchTeam clock operations repo team configTeam acc)
                     config (newOperations, false) ;;
            if snd acc then ret (fst acc)
            else enqueueRemove clock operations
                   (GithubTeamWithPermission.Team team)
                   (GithubRepository.Name repo) (fst acc))
            ts acc1 n1)) ->
  forEach (fun newOperations team =>
    acc <- forEach (fun acc configTeam => matchTeam clock later repo team configTeam acc)
             config (newOperations, false) ;;
    if snd acc then ret (fst acc)
    else enqueueRemove clock later (GithubTeamWithPermission.Team team)
           (GithubRepository.Name repo) (fst acc))
    ts acc2 n2
  = (acc2, n2).
Proof.
  match goal with
  | |- _ -> forall _ _ _ _, Forall _ (fst (forEach ?b1 ts _ _)) ->
            forEach ?b2 ts _ _ = _ =>
      set (body1 := b1); set (body2 := b2)
  end.
  induction ts as [|t ts IH]; intros Hts acc1 acc2 n1 n2; cbn [forEach];
    [reflexivity|].
  assert (Ht : t ∈ GithubRepository.Teams repo) by apply Hts, list_elem_of_here.
  assert (Hrest : forall t', t' ∈ ts -> t' ∈ GithubRepository.Teams repo)
    by (intros t' Ht'; apply Hts, list_elem_of_further, Ht').
  unfold bind at 1. intros Hw.
  destruct (body1 acc1 t n1) as [r1 m1] eqn:Hstep.
  assert (Hr1 : Forall waits r1).
  { destruct (teams_loop clock operations config repo ts Hrest r1 m1)
      as (e & Hrun & _).
    fold body1 in Hrun. rewrite Hrun in Hw. exact (waits_front _ _ Hw). }
  unfold bind at 1.
  assert (Hstep2 : body2 acc2 t n2 = (acc2, n2)).
  { unfold body1 in Hstep. unfold body2, bind. unfold bind in Hstep.
    destruct (repoTeam_loop clock operations config repo t config Ht
                (fun c Hc => Hc) (acc1, false) n1) as (e1 & Hrun1 & _).
    rewrite Hrun1 in Hstep. cbn [fst snd orb] in Hstep.
    assert (Hinner : Forall waits (acc1 ++ e1)).
    { destruct (existsb _ config).
      - injection Hstep as <- _. exact Hr1.
      - rewrite enqueueRemove_run in Hstep.
        destruct (repoTeamOperationFound operations _ _ _);
          injection Hstep as <- _; [exact Hr1|exact (waits_front _ _ Hr1)]. }
    rewrite (repoTeam_loop_again t config Ht (fun c Hc => Hc)
               (acc1, false) (acc2, false) n1 n2)
      by (rewrite Hrun1; exact Hinner).
    cbn [fst snd orb].
    destruct (existsb _ config); [reflexivity|].
    apply (enqueueRemove_again _ _ (acc1 ++ e1) acc2 (n1 + List.length e1)%nat n2).
    rewrite Hstep. exact Hr1. }
  rewrite Hstep2. apply (IH Hrest r1 acc2 m1 n2). exact Hw.
Qed.

End OneRepository.

Lemma repoStep_again (defaultConfig : list GithubTeamWithPermission.t)
    (exceptions : list GithubTeamRepository.t) (skip : list string)
    (repo : GithubRepository.t)
    (acc1 acc2 : list GithubRepoTeamOperation.t) (n1 n2 : nat) :
  Forall waits
    (fst (repoStep clock defaultConfig exceptions skip operations acc1 repo n1)) ->
  repoStep clock defaultConfig exceptions skip later acc2 repo n2 = (acc2, n2).
Proof.
  unfold repoStep. cbv zeta.
  set (config := effectiveConfig defaultConfig exceptions skip repo).
  unfold bind at 1. intros Hw.
  destruct (assign_loop clock operations config repo config (fun c Hc => Hc)
              acc1 n1) as (e1 & Hrun1 & _).
  rewrite Hrun1 in Hw.
  assert (Hfront : Forall waits (acc1 ++ e1)).
  { destruct (teams_loop clock operations config repo
                (GithubRepository.Teams repo) (fun t Ht => Ht)
                (acc1 ++ e1) (n1 + List.length e1)%nat) as (e2 & Hrun2 & _).
    rewrite Hrun2 in Hw. exact (waits_front _ _ Hw). }
  unfold bind at 1.
  rewrite (assign_loop_again config repo config (fun c Hc => Hc) acc1 acc2 n1 n2)
    by (rewrite Hrun1; exact Hfront).
  apply (teams_loop_again config repo (GithubRepository.Teams repo)
           (fun t Ht => Ht) (acc1 ++ e1) acc2 (n1 + List.length e1)%nat n2).
  exact Hw.
Qed.

Lemma repoChangeCalculator_again
    (defaultConfig : list GithubTeamWithPermission.t)
    (actual : list GithubRepository.t)
    (exceptions : list GithubTeamRepository.t) (skip : list string)
    (n1 n2 : nat) :
  Forall waits
    (fst (repoChangeCalculator clock defaultConfig actual exceptions skip
            operations n1)) ->
  repoChangeCalculator clock defaultConfig actual exceptions skip later n2
  = ([], n2).
Proof.
  unfold repoChangeCalculator. generalize (@nil GithubRepoTeamOperation.t) at 1 as acc1.
  generalize (@nil GithubRepoTeamOperation.t) as acc2. revert n1 n2.
  induction actual as [|repo rest IH]; intros n1 n2 acc2 acc1; cbn [forEach];
    [reflexivity|].
  unfold bind at 1. intros Hw.
  destruct (repoStep_sound clock operations defaultConfig exceptions skip acc1
              repo n1) as (e1 & Hrun1 & _).
  rewrite Hrun1 in Hw.
  assert (Hfront : Forall waits (acc1 ++ e1)).
  { assert (Hgrow : forall l (acc : list GithubRepoTeamOperation.t) m,
              exists ext,
                fst (forEach (repoStep clock defaultConfig exceptions skip operations)
                       l acc m) = acc ++ ext).
    { induction l as [|r l IHl]; intros acc m; cbn [forEach].
      - exists []. rewrite app_nil_r. reflexivity.
      - unfold bind.
        destruct (repoStep_sound clock operations defaultConfig exceptions skip
                    acc r m) as (x1 & Hx1 & _).
        rewrite Hx1. destruct (IHl (acc ++ x1) (m + List.length x1)%nat)
          as (x2 & Hx2).
        exists (x1 ++ x2). rewrite Hx2, app_assoc. reflexivity. }
    destruct (Hgrow rest (acc1 ++ e1) (n1 + List.length e1)%nat) as (e2 & He2).
    rewrite He2 in Hw. exact (waits_front _ _ Hw). }
  unfold bind at 1.
  rewrite (repoStep_again defaultConfig exceptions skip repo acc1 acc2 n1 n2)
    by (rewrite Hrun1; exact Hfront).
  apply (IH _ _ _ _ Hw).
Qed.

End RepoSecondRun.

Section RepoCalculatorSettles.
Import GithubOrganization.
Context (clock : Clock).

Lemma repoTeamOperationFound_app (a b : list GithubRepoTeamOperation.t)
    (team repo kind : string) :
  repoTeamOperationFound (a ++ b) team repo kind
  = repoTeamOperationFound a team repo kind
    || repoTeamOperationFound b team repo kind.
Proof. apply existsb_app. Qed.

(** A pending operation in a queue is itself the waiting task the
    calculator looks for. *)
Lemma pending_is_found (l : list GithubRepoTeamOperation.t)
    (op : GithubRepoTeamOperation.t) :
  op ∈ l ->
  GithubRepoTeamOperation.State op = GithubRepoTeamOperationStatePending ->
  repoTeamOperationFound l (GithubRepoTeamOperation.Team op)
    (GithubRepoTeamOperation.Repo op) (GithubRepoTeamOperation.Operation op)
  = true.
Proof.
  intros Hin Hst. apply existsb_exists. exists op.
  split; [apply list_elem_of_In, Hin|].
  rewrite EqualFold_refl, !String.eqb_refl, Hst. reflexivity.
Qed.

(** Property X13.  With both default lists there, RepoChangeCalculator
    run again on the status it returned, with the same exceptions,
    appends nothing, reports no change, returns that status and does
    not read the clock: whatever it enqueued the first time (twice, at
    times) is found waiting the second time. *)
Theorem RepoChangeCalculator_settles
    (g : GithubOrganization.t) (exceptions : list GithubTeamRepository.t)
    (n : nat) :
  DefaultPrivateRepositoryTeams (Spec g) <> [] ->
  DefaultPublicRepositoryTeams (Spec g) <> [] ->
  let newStatus := snd (fst (RepoChangeCalculator clock g exceptions n)) in
  forall n', RepoChangeCalculator clock (withStatus g newStatus) exceptions n'
             = ((false, newStatus), n').
Proof.
  intros Hpriv Hpub newStatus n'.
  pose proof (RepoChangeCalculator_runs clock g exceptions n Hpriv Hpub) as Hrun.
  cbv zeta in Hrun.
  set (old := RepositoryTeamOperations (Operations (Status g))) in *.
  destruct (repoChangeCalculator_sound clock old
              (DefaultPrivateRepositoryTeams (Spec g))
              (PrivateRepositories (Status g)) exceptions (skipList g) n)
    as (private & Hrun1 & Hprivate).
  rewrite Hrun1 in Hrun. cbn [fst] in Hrun.
  destruct (repoChangeCalculator_sound clock old
              (DefaultPublicRepositoryTeams (Spec g))
              (PublicRepositories (Status g)) exceptions (skipList g)
              (n + List.length private)%nat)
    as (public & Hrun2 & Hpublic).
  rewrite Hrun2 in Hrun. cbn [fst] in Hrun.
  set (queue := old ++ private ++ public) in *.
  assert (Hqueue : RepositoryTeamOperations (Operations newStatus) = queue)
    by (subst newStatus; rewrite Hrun; destruct (negb _); reflexivity).
  assert (Hlists : PrivateRepositories newStatus = PrivateRepositories (Status g) /\
                   PublicRepositories newStatus = PublicRepositories (Status g))
    by (subst newStatus; rewrite Hrun; destruct (negb _); split; reflexivity).
  destruct Hlists as [Hprivs Hpubs].
  assert (Hhas : forall team repo kind,
            repoTeamOperationFound old team repo kind = true ->
            repoTeamOperationFound queue team repo kind = true).
  { intros team repo kind H. subst queue.
    rewrite repoTeamOperationFound_app, H. reflexivity. }
  assert (Hwaits : forall op, op ∈ private ++ public ->
            repoTeamOperationFound queue (GithubRepoTeamOperation.Team op)
              (GithubRepoTeamOperation.Repo op)
              (GithubRepoTeamOperation.Operation op) = true).
  { intros op Hin. apply pending_is_found.
    - subst queue. apply elem_of_app. right. exact Hin.
    - apply elem_of_app in Hin as [Hin|Hin].
      + rewrite Forall_forall in Hprivate.
        destruct (Hprivate op Hin) as (repo & _ & _ & Hst & _). exact Hst.
      + rewrite Forall_forall in Hpublic.
        destruct (Hpublic op Hin) as (repo & _ & _ & Hst & _). exact Hst. }
  pose proof (RepoChangeCalculator_runs clock (withStatus g newStatus)
                exceptions n' Hpriv Hpub) as Hagain.
  cbv zeta in Hagain. cbn [Status Spec withStatus] in Hagain.
  change (skipList (withStatus g newStatus)) with (skipList g) in Hagain.
  rewrite Hqueue, Hprivs, Hpubs in Hagain.
  rewrite (repoChangeCalculator_again clock old queue Hhas
             (DefaultPrivateRepositoryTeams (Spec g))
             (PrivateRepositories (Status g)) exceptions (skipList g) n n')
    in Hagain.
  2:{ rewrite Hrun1. cbn [fst]. apply Forall_forall. intros op Hin.
      apply Hwaits, elem_of_app. left. exact Hin. }
  cbn [fst List.length] in Hagain. rewrite Nat.add_0_r in Hagain.
  rewrite (repoChangeCalculator_again clock old queue Hhas
             (DefaultPublicRepositoryTeams (Spec g))
             (PublicRepositories (Status g)) exceptions (skipList g)
             (n + List.length private)%nat n')
    in Hagain.
  2:{ rewrite Hrun2. cbn [fst]. apply Forall_forall. intros op Hin.
      apply Hwaits, elem_of_app. right. exact Hin. }
  cbn [fst app List.length Nat.eqb negb] in Hagain. rewrite app_nil_r in Hagain.
  rewrite Hagain, <- Hqueue.
  destruct newStatus as [? ? ? ? ? ? ? ? []]. reflexivity.
Qed.

End RepoCalculatorSettles.

Lemma RepoChangeCalculator_enqueues_policy_operations_witness :
  exists private public : list GithubRepoTeamOperation.t,
    GithubOrganization.RepositoryTeamOperations
      (GithubOrganization.Operations
         (snd (fst (GithubOrganization.RepoChangeCalculator
                      (fun n => Z.of_nat n) driftedOrg [] 0%nat))))
    = private ++ public.
Proof.
  destruct (RepoChangeCalculator_enqueues_policy_operations
              (fun n => Z.of_nat n) driftedOrg [] 0%nat)
    as (private & public & H & _).
  - vm_compute. intros H. discriminate H.
  - vm_compute. intros H. discriminate H.
  - exists private, public. exact H.
Defined.

Lemma RepoChangeCalculator_settles_witness :
  GithubOrganization.RepoChangeCalculator (fun n => Z.of_nat n)
    (GithubOrganization.withStatus driftedOrg
       (snd (fst (GithubOrganization.RepoChangeCalculator
                    (fun n => Z.of_nat n) driftedOrg [] 0%nat))))
    [] 9%nat
  = ((false,
      snd (fst (GithubOrganization.RepoChangeCalculator
                  (fun n => Z.of_nat n) driftedOrg [] 0%nat))), 9%nat).
Proof.
  apply (RepoChangeCalculator_settles (fun n => Z.of_nat n) driftedOrg [] 0%nat).
  - vm_compute. intros H. discriminate H.
  - vm_compute. intros H. discriminate H.
Defined.

Section ListComparison.

Lemma teamScan_spec (g : GithubTeamWithPermission.t)
    (ks : list GithubTeamWithPermission.t) :
  forall found,
    teamScan g ks found = Some true <->
    (found = true \/
     exists k, k ∈ ks /\
       GithubTeamWithPermission.Team k = GithubTeamWithPermission.Team g) /\
    (forall k, k ∈ ks ->
       GithubTeamWithPermission.Team k = GithubTeamWithPermission.Team g ->
       GithubTeamWithPermission.Permission k = GithubTeamWithPermission.Permission g).
Proof.
  induction ks as [|k ks IH]; intros found; cbn [teamScan].
  - split.
    + intros [= ->]. split; [left; reflexivity|].
      intros k Hk. apply elem_of_nil in Hk. contradiction.
    + intros [[->|(k & Hk & _)] _]; [reflexivity|].
      apply elem_of_nil in Hk. contradiction.
  - destruct (String.eqb_spec (GithubTeamWithPermission.Team g)
                (GithubTeamWithPermission.Team k)) as [Hn|Hn].
    + destruct (String.eqb_spec (GithubTeamWithPermission.Permission g)
                  (GithubTeamWithPermission.Permission k)) as [Hp|Hp]; cbn [negb].
      * rewrite IH. split.
        { intros [_ Hall]. split.
          - right. exists k. split; [apply list_elem_of_here|auto].
          - intros k' Hk' Hn'. apply elem_of_cons in Hk' as [->|Hk']; auto. }
        { intros [_ Hall]. split; [left; reflexivity|].
          intros k' Hk'. apply Hall, list_elem_of_further, Hk'. }
      * split; [intros H; discriminate H|].
        intros [_ Hall]. contradiction Hp. symmetry.
        apply Hall; [apply list_elem_of_here|auto].
    + rewrite IH. split.
      * intros [Hf Hall]. split.
        { destruct Hf as [Hf|(k' & Hk' & Hn')]; [left; exact Hf|].
          right. exists k'. split; [apply list_elem_of_further, Hk'|exact Hn']. }
        { intros k' Hk' Hn'. apply elem_of_cons in Hk' as [->|Hk']; auto.
          congruence. }
      * intros [Hf Hall]. split.
        { destruct Hf as [Hf|(k' & Hk' & Hn')]; [left; exact Hf|].
          apply elem_of_cons in Hk' as [->|Hk'].
          - congruence.
          - right. exists k'. auto. }
        { intros k' Hk'. apply Hall, list_elem_of_further, Hk'. }
Qed.

Lemma ContentSame_elements
    (github kubernetes : list GithubTeamWithPermission.t) :
  GithubTeamWithPermissionListContentSame github kubernetes = true <->
  List.length github = List.length kubernetes /\
  forall g, g ∈ github ->
    (exists k, k ∈ kubernetes /\
       GithubTeamWithPermission.Team k = GithubTeamWithPermission.Team g) /\
    (forall k, k ∈ kubernetes ->
       GithubTeamWithPermission.Team k = GithubTeamWithPermission.Team g ->
       GithubTeamWithPermission.Permission k = GithubTeamWithPermission.Permission g).
Proof.
  unfold GithubTeamWithPermissionListContentSame.
  destruct (Nat.eqb_spec (List.length github) (List.length kubernetes)) as [Hl|Hl];
    cbn [negb].
  - rewrite forallb_forall. split.
    + intros H. split; [exact Hl|]. intros g Hg.
      specialize (H g (proj1 (list_elem_of_In _ _) Hg)).
      destruct (teamScan g kubernetes false) as [[]|] eqn:Hs; try discriminate H.
      apply teamScan_spec in Hs as [[Hf|Hex] Hall]; [discriminate Hf|auto].
    + intros [_ H] g Hg. apply list_elem_of_In in Hg.
      destruct (H g Hg) as [Hex Hall].
      rewrite (proj2 (teamScan_spec g kubernetes false)); auto.
  - split; [intros H; discriminate H|]. intros [H _]. contradiction.
Qed.

Lemma same_key_same_element {A B} (f : A -> B) (l : list A) (x y : A) :
  NoDup (f <$> l) -> x ∈ l -> y ∈ l -> f x = f y -> x = y.
Proof.
  induction l as [|z l IH]; intros Hnd Hx Hy Hf.
  - apply elem_of_nil in Hx. contradiction.
  - cbn in Hnd. apply NoDup_cons in Hnd as [Hz Hnd].
    apply elem_of_cons in Hx as [->|Hx]; apply elem_of_cons in Hy as [->|Hy].
    + reflexivity.
    + contradiction Hz. rewrite Hf. apply list_elem_of_fmap_2. exact Hy.
    + contradiction Hz. rewrite <- Hf. apply list_elem_of_fmap_2. exact Hx.
    + auto.
Qed.

(** Property X14.  GithubTeamWithPermissionListContentSame holds
    exactly when the two lists are equally long and every team of the
    first list occurs by name in the second, each time with the same
    permission; nothing is asked of the teams of the second list that
    the first does not name.  When no name occurs twice in either
    list, it holds exactly when the lists are the same up to order. *)
Theorem GithubTeamWithPermissionListContentSame_spec
    (github kubernetes : list GithubTeamWithPermission.t) :
  (GithubTeamWithPermissionListContentSame github kubernetes = true <->
   List.length github = List.length kubernetes /\
   forall g, g ∈ github ->
     (exists k, k ∈ kubernetes /\
        GithubTeamWithPermission.Team k = GithubTeamWithPermission.Team g) /\
     (forall k, k ∈ kubernetes ->
        GithubTeamWithPermission.Team k = GithubTeamWithPermission.Team g ->
        GithubTeamWithPermission.Permission k
        = GithubTeamWithPermission.Permission g)) /\
  (NoDup (GithubTeamWithPermission.Team <$> github) ->
   NoDup (GithubTeamWithPermission.Team <$> kubernetes) ->
   (GithubTeamWithPermissionListContentSame github kubernetes = true <->
    github ≡ₚ kubernetes)).
Proof.
  split; [apply ContentSame_elements|].
  intros Hg Hk. rewrite ContentSame_elements. split.
  - intros [Hl H]. apply submseteq_length_Permutation; [|lia].
    apply NoDup_submseteq; [exact (NoDup_fmap_1 _ _ Hg)|].
    intros g Hin. destruct (H g Hin) as [(k & Hkin & Hname) Hall].
    specialize (Hall k Hkin Hname).
    destruct g, k. cbn in Hname, Hall. subst. exact Hkin.
  - intros Hp. split; [apply Permutation_length, Hp|].
    intros g Hin. rewrite Hp in Hin. split.
    + exists g. auto.
    + intros k Hkin Hname.
      rewrite (same_key_same_element GithubTeamWithPermission.Team
                 kubernetes k g Hk Hkin Hin Hname). reflexivity.
Qed.

Lemma repositoryScan_spec (g : GithubRepository.t)
    (ks : list GithubRepository.t) :
  forall found,
    repositoryScan g ks found = Some true <->
    (found = true \/
     exists k, k ∈ ks /\ GithubRepository.Name k = GithubRepository.Name g) /\
    (forall k, k ∈ ks ->
       GithubRepository.Name k = GithubRepository.Name g ->
       GithubTeamWithPermissionListContentSame
         (GithubRepository.Teams g) (GithubRepository.Teams k) = true).
Proof.
  induction ks as [|k ks IH]; intros found; cbn [repositoryScan].
  - split.
    + intros [= ->]. split; [left; reflexivity|].
      intros k Hk. apply elem_of_nil in Hk. contradiction.
    + intros [[->|(k & Hk & _)] _]; [reflexivity|].
      apply elem_of_nil in Hk. contradiction.
  - destruct (String.eqb_spec (GithubRepository.Name g)
                (GithubRepository.Name k)) as [Hn|Hn].
    + destruct (GithubTeamWithPermissionListContentSame
                  (GithubRepository.Teams g) (GithubRepository.Teams k)) eqn:Hp;
        cbn [negb].
      * rewrite IH. split.
        { intros [_ Hall]. split.
          - right. exists k. split; [apply list_elem_of_here|auto].
          - intros k' Hk' Hn'. apply elem_of_cons in Hk' as [->|Hk']; auto. }
        { intros [_ Hall]. split; [left; reflexivity|].
          intros k' Hk'. apply Hall, list_elem_of_further, Hk'. }
      * split; [intros H; discriminate H|].
        intros [_ Hall].
        rewrite (Hall k (list_elem_of_here _ _) (eq_sym Hn)) in Hp.
        discriminate Hp.
    + rewrite IH. split.
      * intros [Hf Hall]. split.
        { destruct Hf as [Hf|(k' & Hk' & Hn')]; [left; exact Hf|].
          right. exists k'. split; [apply list_elem_of_further, Hk'|exact Hn']. }
        { intros k' Hk' Hn'. apply elem_of_cons in Hk' as [->|Hk']; auto. }
      * intros [Hf Hall]. split.
        { destruct Hf as [Hf|(k' & Hk' & Hn')]; [left; exact Hf|].
          apply elem_of_cons in Hk' as [->|Hk'].
          - congruence.
          - right. exists k'. auto. }
        { intros k' Hk'. apply Hall, list_elem_of_further, Hk'. }
Qed.

(** Property X15.  GithubRepositoryListEquals holds exactly when the
    two lists are equally long and every repository of the first list
    occurs by name in the second, each time with teams that
    GithubTeamWithPermissionListContentSame accepts.  When it holds and
    no name occurs twice in the first list, the two lists name the
    same repositories, up to order. *)
Theorem GithubRepositoryListEquals_spec
    (github kubernetes : list GithubRepository.t) :
  (GithubRepositoryListEquals github kubernetes = true <->
   List.length github = List.length kubernetes /\
   forall g, g ∈ github ->
     (exists k, k ∈ kubernetes /\
        GithubRepository.Name k = GithubRepository.Name g) /\
     (forall k, k ∈ kubernetes ->
        GithubRepository.Name k = GithubRepository.Name g ->
        GithubTeamWithPermissionListContentSame
          (GithubRepository.Teams g) (GithubRepository.Teams k) = true)) /\
  (NoDup (GithubRepository.Name <$> github) ->
   GithubRepositoryListEquals github kubernetes = true ->
   GithubRepository.Name <$> github ≡ₚ GithubRepository.Name <$> kubernetes).
Proof.
  assert (Hspec :
    GithubRepositoryListEquals github kubernetes = true <->
    List.length github = List.length kubernetes /\
    forall g, g ∈ github ->
      (exists k, k ∈ kubernetes /\
         GithubRepository.Name k = GithubRepository.Name g) /\
      (forall k, k ∈ kubernetes ->
         GithubRepository.Name k = GithubRepository.Name g ->
         GithubTeamWithPermissionListContentSame
           (GithubRepository.Teams g) (GithubRepository.Teams k) = true)).
  { unfold GithubRepositoryListEquals.
    destruct (Nat.eqb_spec (List.length github) (List.length kubernetes))
      as [Hl|Hl]; cbn [negb].
    - rewrite forallb_forall. split.
      + intros H. split; [exact Hl|]. intros g Hg.
        specialize (H g (proj1 (list_elem_of_In _ _) Hg)).
        destruct (repositoryScan g kubernetes false) as [[]|] eqn:Hs;
          try discriminate H.
        apply repositoryScan_spec in Hs as [[Hf|Hex] Hall]; [discriminate Hf|auto].
      + intros [_ H] g Hg. apply list_elem_of_In in Hg.
        destruct (H g Hg) as [Hex Hall].
        rewrite (proj2 (repositoryScan_spec g kubernetes false)); auto.
    - split; [intros H; discriminate H|]. intros [H _]. contradiction. }
  split; [exact Hspec|].
  intros Hnd Heq. apply Hspec in Heq as [Hl H].
  apply submseteq_length_Permutation; [|rewrite !length_fmap; lia].
  apply NoDup_submseteq; [exact Hnd|].
  intros name Hin. apply list_elem_of_fmap in Hin as (g & -> & Hg).
  destruct (H g Hg) as [(k & Hk & Hname) _].
  rewrite <- Hname. apply list_elem_of_fmap_2. exact Hk.
Qed.

End ListComparison.

Section ReadOnlyReconcile.
Import GithubOrganization GithubOrganizationReconciler.

(** *** The rules of [maintains] *)

Lemma maintains_pure (inv : World -> bool) {A} (P : A -> Prop) (a : A) :
  P a -> maintains inv P (pure a).
Proof. intros Ha w Hw. split; [exact Hw|]. cbn. intros b [= <-]. exact Ha. Qed.

Lemma maintains_leave (inv : World -> bool) {A} (P : A -> Prop) (r : Result) :
  maintains inv P (leave r).
Proof. intros w Hw. split; [exact Hw|]. cbn. intros b H. discriminate H. Qed.

Lemma maintains_andThen (inv : World -> bool) {A B} (Q : A -> Prop)
    (P : B -> Prop) (m : R A) (k : A -> R B) :
  maintains inv Q m -> (forall a, Q a -> maintains inv P (k a)) ->
  maintains inv P (andThen m k).
Proof.
  intros Hm Hk w Hw. unfold andThen. destruct (Hm w Hw) as [Hw' Ha].
  destruct (m w) as [[r|a] w']; cbn in *.
  - split; [assumption|]. intros b H. discriminate H.
  - apply Hk; auto.
Qed.

Lemma maintains_weaken (inv : World -> bool) {A} (P Q : A -> Prop) (m : R A) :
  maintains inv P m -> (forall a, P a -> Q a) -> maintains inv Q m.
Proof. intros Hm HPQ w Hw. destruct (Hm w Hw). split; auto. Qed.

Lemma maintains_then (inv : World -> bool) {A B} (P : B -> Prop)
    (m : R A) (k : A -> R B) :
  maintains inv (fun _ => True) m -> (forall a, maintains inv P (k a)) ->
  maintains inv P (andThen m k).
Proof. intros Hm Hk. apply maintains_andThen with (Q := fun _ => True); auto. Qed.

Lemma maintains_nested (inv : World -> bool) {A B C} (P : C -> Prop)
    (m : R A) (k : A -> R B) (h : B -> R C) :
  maintains inv P (andThen m (fun a => andThen (k a) h)) ->
  maintains inv P (andThen (andThen m k) h).
Proof.
  intros H w Hw. specialize (H w Hw). unfold andThen in *.
  destruct (m w) as [[r|a] w']; exact H.
Qed.

Lemma maintains_forRange (inv : World -> bool) {A B} (I : B -> Prop)
    (body : B -> nat -> A -> R B) (l : list A) :
  (forall acc i x, I acc -> maintains inv I (body acc i x)) ->
  forall i acc, I acc -> maintains inv I (forRange body i l acc).
Proof.
  intros Hbody. induction l as [|x l IH]; intros i acc Hacc; cbn [forRange].
  - apply maintains_pure, Hacc.
  - apply maintains_andThen with (Q := I); auto.
Qed.

Lemma maintains_forEachR (inv : World -> bool) {A B} (I : B -> Prop)
    (body : B -> A -> R B) (l : list A) :
  (forall acc x, I acc -> maintains inv I (body acc x)) ->
  forall acc, I acc -> maintains inv I (forEachR body l acc).
Proof.
  intros Hbody. induction l as [|x l IH]; intros acc Hacc; cbn [forEachR].
  - apply maintains_pure, Hacc.
  - apply maintains_andThen with (Q := I); auto.
Qed.

(** *** What leaves the requests read-only *)

Lemma readOnly_ask {A} (f : World -> A) :
  maintains readOnly (fun _ => True) (ask f).
Proof. intros w Hw. split; [exact Hw|auto]. Qed.

Lemma readOnly_onClock {A} (P : A -> Prop) (c : ST nat A) :
  (forall n, P (fst (c n))) -> maintains readOnly P (onClock c).
Proof.
  intros Hc w Hw. unfold onClock. specialize (Hc (readings w)).
  destruct (c (readings w)) as [a n]. cbn in *. split; [exact Hw|].
  intros b [= <-]. exact Hc.
Qed.

Lemma readOnly_onClock_then {A B} (P : B -> Prop) (c : ST nat A) (k : A -> R B) :
  (forall n, maintains readOnly P (k (fst (c n)))) ->
  maintains readOnly P (andThen (onClock c) k).
Proof.
  intros Hk.
  apply maintains_andThen with (Q := fun a => exists n, a = fst (c n)).
  - apply readOnly_onClock. eauto.
  - intros a [n ->]. apply Hk.
Qed.

Lemma readOnly_write (env : Env) (x : StoreWrite) :
  maintains readOnly (fun _ => True) (write env x).
Proof.
  intros w Hw. unfold write.
  destruct (store_update env w x); cbn; (split; [exact Hw|auto]).
Qed.

Lemma readOnly_send (env : Env) (c : ForgeCall) :
  mutating c = false -> maintains readOnly (fun _ => True) (send env c).
Proof.
  intros Hc w Hw. unfold send, readOnly in *. cbn. split; [|auto].
  rewrite forallb_app, Hw. cbn. rewrite Hc. reflexivity.
Qed.

Ltac reading :=
  repeat match goal with
  | |- maintains _ _ (pure _) => apply maintains_pure
  | |- maintains _ _ (leave _) => apply maintains_leave
  | |- maintains _ _ (andThen (andThen _ _) _) => apply maintains_nested
  | |- maintains _ _ (andThen (ask _) _) =>
      apply maintains_then; [apply readOnly_ask|intros ?]
  | |- maintains _ _ (andThen (onClock _) _) =>
      apply readOnly_onClock_then; intros ?
  | |- maintains _ _ (andThen (write _ _) _) =>
      apply maintains_then; [apply readOnly_write|intros ?]
  | |- maintains _ _ (andThen (send _ _) _) =>
      apply maintains_then; [apply readOnly_send; reflexivity|intros ?]
  | |- maintains _ _ (andThen (pure _) _) =>
      apply maintains_andThen with (Q := fun _ => True);
      [apply maintains_pure; exact I|intros ? _]
  | |- maintains _ _ (andThen (leave _) _) =>
      apply maintains_andThen with (Q := fun _ => True);
      [apply maintains_leave|intros ? _]
  | |- maintains _ _ (if ?b then _ else _) => destruct b eqn:?
  | |- maintains _ _ (match ?x with _ => _ end) => destruct x eqn:?
  end.

Context (env : Env).

Lemma readOnly_leaveWith (P : GithubOrganization.t -> Prop)
    (g : GithubOrganization.t) (st e : string) (r : Result) :
  maintains readOnly P (leaveWith env g st e r).
Proof. unfold leaveWith, Now, statusUpdate. reading. Qed.

Lemma readOnly_getForUpdate : maintains readOnly (fun _ => True) (getForUpdate env).
Proof. unfold getForUpdate. reading; exact I. Qed.

(** The rate-limit gate sends nothing, keeps the labels, and hands on
    the organization as read unless its status is "ratelimited". *)
Lemma readOnly_rateLimitGate (g : GithubOrganization.t) :
  maintains readOnly
    (fun g' => Labels g' = Labels g /\
               (OrganizationStatus (Status g) <> GithubOrganizationStateRateLimited ->
                g' = g))
    (rateLimitGate env g).
Proof.
  unfold rateLimitGate, Now, statusUpdate.
  destruct (String.eqb_spec (OrganizationStatus (Status g))
              GithubOrganizationStateRateLimited) as [Hr|Hr]; cbn [andb].
  - reading; (split; [reflexivity|]); intros H; contradiction.
  - reading. auto.
Qed.

Lemma readOnly_ttlCleanup (g : GithubOrganization.t) (key : string)
    (onlyWhenFailed clearError : bool)
    (clean : GithubOrganization.t -> GithubOrganizationStatus * bool) :
  maintains readOnly (fun _ => True)
    (ttlCleanup env g key onlyWhenFailed clearError clean).
Proof.
  unfold ttlCleanup, Now, statusUpdate. destruct (clean g). reading; exact I.
Qed.

Lemma readOnly_ttlMaintenance (g : GithubOrganization.t) :
  maintains readOnly (fun _ => True) (ttlMaintenance env g).
Proof.
  unfold ttlMaintenance. destruct (Labels g); [|reading; exact I].
  apply maintains_then; [|intros _]; apply readOnly_ttlCleanup.
Qed.

Lemma readOnly_validate (g : GithubOrganization.t) :
  maintains readOnly (fun _ => True) (validate env g).
Proof.
  unfold validate.
  repeat match goal with
  | |- maintains _ _ (andThen (leaveWith _ _ _ _ _) _) =>
      apply maintains_then; [apply readOnly_leaveWith|intros ?]
  | |- maintains _ _ (forEachR _ _ _) =>
      apply maintains_forEachR; [intros ? ? _|exact I]
  | _ => progress reading
  end; exact I.
Qed.

Lemma readOnly_fetchFailed (P : GithubOrganization.t -> Prop)
    (g : GithubOrganization.t) (what e : string) :
  maintains readOnly P (fetchFailed env g what e).
Proof. unfold fetchFailed, Now. reading; apply readOnly_leaveWith. Qed.

Lemma readOnly_listing {A} (c : ForgeCall) (payload : World -> A) :
  mutating c = false ->
  maintains readOnly (fun _ => True) (listing env c payload).
Proof.
  intros Hc. unfold listing.
  apply maintains_then; [apply readOnly_send, Hc|intros reply].
  reading; exact I.
Qed.

Lemma readOnly_compareOwners (g : GithubOrganization.t) :
  maintains readOnly (fun _ => True) (compareOwners env g).
Proof.
  unfold compareOwners, statusUpdate.
  repeat match goal with
  | |- maintains _ _ (andThen (leaveWith _ _ _ _ _) _) =>
      apply maintains_then; [apply readOnly_leaveWith|intros ?]
  | |- maintains _ _ (andThen (getForUpdate _) _) =>
      apply maintains_then; [apply readOnly_getForUpdate|intros ?]
  | _ => progress reading
  end; exact I.
Qed.

Lemma readOnly_compareTeams (g : GithubOrganization.t) :
  maintains readOnly (fun _ => True) (compareTeams env g).
Proof.
  unfold compareTeams, statusUpdate.
  repeat match goal with
  | |- maintains _ _ (andThen (leaveWith _ _ _ _ _) _) =>
      apply maintains_then; [apply readOnly_leaveWith|intros ?]
  | _ => progress reading
  end; exact I.
Qed.

Lemma readOnly_compareRepositories (g : GithubOrganization.t)
    (publicRepos privateRepos : list GithubRepository.t) :
  maintains readOnly (fun _ => True)
    (compareRepositories env g publicRepos privateRepos).
Proof. unfold compareRepositories, statusUpdate. reading; exact I. Qed.

(** What the status check hands on: the labels as read, and the state
    as read or, on the first round, "complete". *)
Local Abbreviation checked := (fun (g g' : GithubOrganization.t) =>
  Labels g' = Labels g /\
  (OrganizationStatus (Status g') = OrganizationStatus (Status g) \/
   OrganizationStatus (Status g') = GithubOrganizationStateComplete)).

Lemma readOnly_compare (g : GithubOrganization.t) (ownerList : list GithubMember)
    (teamsList : list string) (publicRepos privateRepos : list GithubRepository.t) :
  maintains readOnly (checked g)
    (compare env g ownerList teamsList publicRepos privateRepos).
Proof.
  unfold compare. cbv zeta.
  set (cleared := ((0 <? List.length (PublicRepositories (Status g)))%nat
                   || (0 <? List.length (PrivateRepositories (Status g)))%nat)).
  set (g1 := if cleared then withStatus g (setRepositories (Status g) [] []) else g).
  assert (H1 : checked g g1) by (subst g1; destruct cleared; auto).
  apply maintains_then; [apply readOnly_ask|intros links].
  destruct links as [links|e]; [|apply maintains_leave].
  set (ownersDiffer := negb (elementsMatch Member_eqb
                               (OrganizationOwners (Status g1)) links)).
  set (g2 := if ownersDiffer
             then withStatus g1 (setOrganizationOwners (Status g1) links)
             else g1).
  assert (H2 : checked g g2) by (subst g2; destruct ownersDiffer; exact H1).
  set (teamsDiffer := negb (elementsMatch String.eqb (Teams (Status g2)) teamsList)).
  set (g3 := if teamsDiffer
             then withStatus g2 (setTeams (Status g2) teamsList)
             else g2).
  assert (H3 : checked g g3) by (subst g3; destruct teamsDiffer; exact H2).
  clearbody g3. clear H1 H2.
  destruct (cleared || ownersDiffer || teamsDiffer).
  - apply maintains_then; [apply readOnly_getForUpdate|intros _].
    unfold statusUpdate. reading.
  - apply maintains_then; [apply readOnly_compareOwners|intros _].
    apply maintains_then; [apply readOnly_compareTeams|intros _].
    apply maintains_then; [apply readOnly_compareRepositories|intros _].
    unfold Now, statusUpdate. reading; [|exact H3].
    destruct H3 as [Hl _]. split; [exact Hl|right; reflexivity].
Qed.

Lemma readOnly_statusCheck (g : GithubOrganization.t) :
  maintains readOnly (checked g) (statusCheck env g).
Proof.
  unfold statusCheck, OwnersExtended, TeamsProvider_List, ExtendedList.
  apply maintains_then; [apply readOnly_listing; reflexivity|intros [ownerList|e]];
    [|apply readOnly_fetchFailed].
  apply maintains_then; [apply readOnly_listing; reflexivity|intros [teamsList|e]];
    [|apply readOnly_fetchFailed].
  apply maintains_then; [apply readOnly_listing; reflexivity|intros [[pub priv]|e]];
    [|apply readOnly_fetchFailed].
  apply readOnly_compare.
Qed.

(** The dry-run step hands on the organization it was given, and only
    one in state "dry-run" when the label asks for a dry run. *)
Lemma readOnly_dryRun (g : GithubOrganization.t) :
  maintains readOnly
    (fun g' => g' = g /\
       (label g GITHUB_ORG_LABEL_DRY_RUN = GITHUB_ORG_LABEL_DRY_RUN_ENABLED_VALUE ->
        OrganizationStatus (Status g) = GithubOrganizationStateDryRun))
    (dryRun env g).
Proof.
  unfold dryRun, Now, statusUpdate.
  destruct (Labels g) as [m|] eqn:Hl.
  - destruct (String.eqb_spec (label g GITHUB_ORG_LABEL_DRY_RUN)
                GITHUB_ORG_LABEL_DRY_RUN_ENABLED_VALUE) as [Hd|Hd].
    + destruct (String.eqb_spec (OrganizationStatus (Status g))
                  GithubOrganizationStateDryRun) as [Hs|Hs]; cbn [negb].
      * reading. auto.
      * reading.
    + reading. split; [reflexivity|]. intros H. contradiction.
  - reading. split; [reflexivity|]. unfold label. rewrite Hl.
    intros H. discriminate H.
Qed.

Lemma readOnly_cleanOnLabel (g : GithubOrganization.t)
    (clean : GithubOrganization.t -> GithubOrganizationStatus * bool)
    (P : unit -> Prop) :
  maintains readOnly P (cleanOnLabel env g clean).
Proof. unfold cleanOnLabel, Now, statusUpdate. destruct (clean g). reading. Qed.

(** The cleaning on request ends the reconcile of an organization in
    state "dry-run". *)
Lemma readOnly_dryRunCleaning (g : GithubOrganization.t) :
  maintains readOnly
    (fun _ => OrganizationStatus (Status g) <> GithubOrganizationStateDryRun)
    (dryRunCleaning env g).
Proof.
  unfold dryRunCleaning.
  destruct (String.eqb_spec (OrganizationStatus (Status g))
              GithubOrganizationStateDryRun) as [Hs|Hs].
  - reading; apply readOnly_cleanOnLabel.
  - reading. exact Hs.
Qed.

(** Nothing is executed on an organization that is not "pending". *)
Lemma readOnly_executeOperations (g : GithubOrganization.t) :
  OrganizationStatus (Status g) <> GithubOrganizationStatePendingOperations ->
  maintains readOnly (fun _ => True) (executeOperations env g).
Proof.
  intros Hs. unfold executeOperations.
  destruct (String.eqb_spec (OrganizationStatus (Status g))
              GithubOrganizationStatePendingOperations) as [H|H];
    [contradiction|]. apply maintains_pure. exact I.
Qed.

Lemma label_of_labels (g g' : GithubOrganization.t) (key : string) :
  Labels g' = Labels g -> label g' key = label g key.
Proof. unfold label. intros ->. reflexivity. Qed.

Lemma run_of_found (w : World) (g : GithubOrganization.t) :
  store_organization env w = Found g ->
  snd (run env w)
  = snd ((g <~ rateLimitGate env g ;;
          ttlMaintenance env g ;;;
          validate env g ;;;
          g <~ (if negb (String.eqb (OrganizationStatus (Status g))
                           GithubOrganizationStatePendingOperations)
                then statusCheck env g
                else pure g) ;;
          g <~ dryRun env g ;;
          dryRunCleaning env g ;;;
          executeOperations env g) w).
Proof.
  intros Hread. unfold run, Reconcile.
  unfold andThen at 1. unfold ask at 1. cbn beta iota. rewrite Hread.
  destruct (andThen _ _ w) as [[r|r] w']; reflexivity.
Qed.

(** Property X16.  Dry run: while the organization carries the label
    githubguard.sap/dryRun with the value "true", a reconcile sends no
    request that changes anything on the forge, whatever the state and
    the operations in the status: the listings of the status check are
    all it may send. *)
Theorem dry_run_sends_no_mutation (w : World) (g : GithubOrganization.t) :
  store_organization env w = Found g ->
  label g GITHUB_ORG_LABEL_DRY_RUN = GITHUB_ORG_LABEL_DRY_RUN_ENABLED_VALUE ->
  readOnly w = true ->
  readOnly (snd (run env w)) = true.
Proof.
  intros Hread Hdry Hw. rewrite (run_of_found w g Hread).
  refine (proj1 ((_ : maintains readOnly (fun _ : Result => True) _) w Hw)).
  eapply maintains_andThen; [apply readOnly_rateLimitGate|].
  intros g1 [Hl1 _]. cbv beta.
  apply maintains_then; [apply readOnly_ttlMaintenance|intros _].
  apply maintains_then; [apply readOnly_validate|intros _].
  apply maintains_andThen with (Q := fun g2 => Labels g2 = Labels g1).
  { destruct (negb _).
    - eapply maintains_weaken; [apply readOnly_statusCheck|].
      intros g2 [H _]. exact H.
    - apply maintains_pure. reflexivity. }
  intros g2 Hl2.
  eapply maintains_andThen; [apply readOnly_dryRun|].
  intros g3 [-> Hstate]. cbv beta.
  eapply maintains_andThen; [apply readOnly_dryRunCleaning|].
  intros ? Hno. contradiction Hno. apply Hstate.
  rewrite (label_of_labels g1 g2 _ Hl2), (label_of_labels g g1 _ Hl1). exact Hdry.
Qed.

(** Property X17.  Nothing is changed on the forge for an organization
    whose state is neither "pending" nor "ratelimited" when read: the
    reconcile compares, and may queue operations and write the status,
    but the requests it sends are listings only. *)
Theorem only_pending_operations_reach_the_forge
    (w : World) (g : GithubOrganization.t) :
  store_organization env w = Found g ->
  OrganizationStatus (Status g) <> GithubOrganizationStatePendingOperations ->
  OrganizationStatus (Status g) <> GithubOrganizationStateRateLimited ->
  readOnly w = true ->
  readOnly (snd (run env w)) = true.
Proof.
  intros Hread Hpending Hlimited Hw. rewrite (run_of_found w g Hread).
  refine (proj1 ((_ : maintains readOnly (fun _ : Result => True) _) w Hw)).
  eapply maintains_andThen; [apply readOnly_rateLimitGate|].
  intros g1 [_ Hsame]. cbv beta. rewrite (Hsame Hlimited). clear g1 Hsame.
  apply maintains_then; [apply readOnly_ttlMaintenance|intros _].
  apply maintains_then; [apply readOnly_validate|intros _].
  apply maintains_andThen
    with (Q := fun g2 => OrganizationStatus (Status g2)
                         <> GithubOrganizationStatePendingOperations).
  { destruct (negb _).
    - eapply maintains_weaken; [apply readOnly_statusCheck|].
      intros g2 [_ [H|H]]; rewrite H; [exact Hpending|].
      intros H'. discriminate H'.
    - apply maintains_pure. exact Hpending. }
  intros g2 Hstate.
  eapply maintains_andThen; [apply readOnly_dryRun|].
  intros g3 [-> _]. cbv beta.
  apply maintains_then; [|intros _; apply readOnly_executeOperations, Hstate].
  eapply maintains_weaken; [apply readOnly_dryRunCleaning|auto].
Qed.

End ReadOnlyReconcile.

Lemma dry_run_sends_no_mutation_witness :
  readOnly
    (snd (GithubOrganizationReconciler.run
            (quiet (Found dryRunOrg) (IsNotFound "") (fun _ => accept))
            initialWorld)) = true.
Proof.
  apply (dry_run_sends_no_mutation
           (quiet (Found dryRunOrg) (IsNotFound "") (fun _ => accept))
           initialWorld dryRunOrg); reflexivity.
Defined.

Lemma only_pending_operations_reach_the_forge_witness :
  readOnly
    (snd (GithubOrganizationReconciler.run
            (quiet (Found driftedOrg) (IsNotFound "") (fun _ => accept))
            initialWorld)) = true.
Proof.
  apply (only_pending_operations_reach_the_forge
           (quiet (Found driftedOrg) (IsNotFound "") (fun _ => accept))
           initialWorld driftedOrg).
  - reflexivity.
  - vm_compute. intros H. discriminate H.
  - vm_compute. intros H. discriminate H.
  - reflexivity.
Defined.

(** *** A loop that rewrites a queue in place *)

Section RangeLoop.
Context {Op St F : Type}.
Context (queue : St -> list Op) (frame : St -> F).
Context (outcome : Op -> Op -> Prop).
Context (step : St -> nat -> Op -> R St).
Hypothesis step_spec : forall st i op w,
  queue st !! i = Some op ->
  exists st' w' op',
    step st i op w = (inr st', w') /\
    outcome op op' /\
    queue st' = <[i := op']> (queue st) /\
    frame st' = frame st /\
    writes w' = writes w.


End RangeLoop.

Section OrganizationExecution.
Import GithubOrganization GithubOrganizationReconciler.
Context (env : Env).








End OrganizationExecution.

Section TeamExecution.
Import GithubTeam GithubTeamReconciler.
Context (env : Env).





End TeamExecution.



Section OrganizationTTL.
Import GithubOrganization GithubOrganizationReconciler.
Context (env : Env).

(** One TTL clean-up either hands on, having written nothing, or
    writes the cleaned status and ends the reconcile. *)
Lemma ttlCleanup_outcome (g : GithubOrganization.t) (key : string)
    (onlyWhenFailed clearError : bool)
    (clean : GithubOrganization.t -> GithubOrganizationStatus * bool)
    (w : World) :
  let r := ttlCleanup env g key onlyWhenFailed clearError clean w in
  requests (snd r) = requests w /\
  ((fst r = inr tt /\ writes (snd r) = writes w) \/
   exists res stamp,
     fst r = inl res /\
     writes (snd r)
     = writes w ++
       [OrganizationStatusUpdate
          (setOrganizationStatusTimestamp
             (setOrganizationStatus
                (if clearError
                 then setOrganizationStatusError (fst (clean g)) ""
                 else fst (clean g))
                (statusFromOperations
                   (if clearError
                    then setOrganizationStatusError (fst (clean g)) ""
                    else fst (clean g))))
             stamp)] /\
     Labels g <> None /\
     (onlyWhenFailed = true ->
      OrganizationStatus (Status g) = GithubOrganizationStateFailed) /\
     (snd (clean g) = true \/
      (clearError = true /\ OrganizationStatusError (Status g) <> ""))).
Proof.
  intros r. assert (Hr : r = ttlCleanup env g key onlyWhenFailed clearError clean w)
    by reflexivity.
  clearbody r. unfold ttlCleanup in Hr. cbv zeta in Hr.
  destruct (negb (String.eqb (label g key) "")) eqn:Hlabel; cbn [andb] in Hr;
    [|subst r; split; [reflexivity|left; split; reflexivity]].
  assert (Hlabels : Labels g <> None).
  { unfold label in Hlabel. destruct (Labels g); [intros H; discriminate H|].
    discriminate Hlabel. }
  destruct (negb onlyWhenFailed
            || String.eqb (OrganizationStatus (Status g))
                 GithubOrganizationStateFailed) eqn:Hfailed; cbn [andb] in Hr;
    [|subst r; split; [reflexivity|left; split; reflexivity]].
  destruct (negb (Time_IsZero _)); cbn [andb] in Hr;
    [|subst r; split; [reflexivity|left; split; reflexivity]].
  unfold andThen, Now, onClock, metav1_Now, statusUpdate, write, leave, pure, ret
    in Hr. cbn [readings requests writes fst snd] in Hr.
  destruct (ttlExpired _ _ _ _) as [[]|];
    [|subst r; split; [reflexivity|left; split; reflexivity]..].
  destruct (clean g) as [s changed] eqn:Hclean. cbn [fst snd].
  destruct (changed || clearError && negb (String.eqb _ "")) eqn:Hchanged;
    [|subst r; split; [reflexivity|left; split; reflexivity]].
  cbn [readings requests writes] in Hr.
  assert (Hwhy : changed = true \/
                 (clearError = true /\ OrganizationStatusError (Status g) <> "")).
  { destruct changed; [left; reflexivity|right]. cbn [orb] in Hchanged.
    apply andb_true_iff in Hchanged as [-> Hne]. split; [reflexivity|].
    apply String.eqb_neq, negb_true_iff, Hne. }
  assert (Hwhen : onlyWhenFailed = true ->
                  OrganizationStatus (Status g) = GithubOrganizationStateFailed).
  { intros ->. cbn [negb orb] in Hfailed. apply String.eqb_eq, Hfailed. }
  destruct (store_update env _ _) eqn:Hupdate; subst r; cbn [fst snd requests writes];
    (split; [reflexivity|]); right; eexists _, _;
    (split; [reflexivity|]); (split; [reflexivity|]); auto.
Qed.

Lemma statusFromOperations_of (s : GithubOrganizationStatus) (g : GithubOrganization.t) :
  statusFromOperations s
  = if PendingOperationsFound (withStatus g s)
    then GithubOrganizationStatePendingOperations
    else if FailedOperationsFound (withStatus g s)
    then GithubOrganizationStateFailed
    else GithubOrganizationStateComplete.
Proof. reflexivity. Qed.

(** Property X20.  The TTL maintenance of an organization sends
    nothing to the forge.  Either it writes nothing and the reconcile
    goes on, or it writes one status and the reconcile ends there.  The
    status written has its state recomputed from the operations that
    remain and differs from the one read in operations, state, error
    and timestamp only; it is either that of the failed-TTL rule, which
    applies to an organization in state "failed": the failed
    operations are dropped, the error is cleared, and the state is
    "pending" if an operation is pending and "complete" otherwise; or
    that of the completed-TTL rule: the completed operations, of which
    there was one at least, are dropped, the error is kept, and pending
    and failed operations are found as before. *)
Theorem ttlMaintenance_cleans (g : GithubOrganization.t) (w : World) :
  let r := ttlMaintenance env g w in
  requests (snd r) = requests w /\
  ((fst r = inr tt /\ writes (snd r) = writes w) \/
   exists s' res,
     fst r = inl res /\
     writes (snd r) = writes w ++ [OrganizationStatusUpdate s'] /\
     Labels g <> None /\
     OrganizationStatus s' = statusFromOperations s' /\
     setState (setOperations s' (Operations (Status g)))
       (OrganizationStatus (Status g)) (OrganizationStatusError (Status g))
       (OrganizationStatusTimestamp (Status g)) = Status g /\
     ((OrganizationStatus (Status g) = GithubOrganizationStateFailed /\
       Operations s' = Operations (fst (CleanFailedOperations g)) /\
       OrganizationStatusError s' = "" /\
       OrganizationStatus s'
       = (if PendingOperationsFound g
          then GithubOrganizationStatePendingOperations
          else GithubOrganizationStateComplete))
      \/
      (Operations s' = Operations (fst (CleanCompletedOperations g)) /\
       snd (CleanCompletedOperations g) = true /\
       OrganizationStatusError s' = OrganizationStatusError (Status g) /\
       PendingOperationsFound (withStatus g s') = PendingOperationsFound g /\
       FailedOperationsFound (withStatus g s') = FailedOperationsFound g))).
Proof.
  intros r. assert (Hr : r = ttlMaintenance env g w) by reflexivity.
  clearbody r. unfold ttlMaintenance in Hr.
  destruct (Labels g) as [labels|] eqn:Hlabels;
    [|subst r; split; [reflexivity|left; split; reflexivity]].
  pose proof (ttlCleanup_outcome g GITHUB_ORG_LABEL_FAILED_TTL true true
                CleanFailedOperations w) as H1.
  cbv zeta in H1. unfold andThen in Hr.
  destruct (ttlCleanup env g GITHUB_ORG_LABEL_FAILED_TTL true true
              CleanFailedOperations w) as [[res1|[]] w1] eqn:Hrun1;
    cbn [fst snd] in H1; destruct H1 as [Hreq1 H1].
  - (* the failed-TTL rule wrote *)
    destruct H1 as [[H _]|(res & stamp & _ & Hwrites & _ & Hfailed & _)];
      [discriminate H|].
    subst r. cbn [fst snd]. split; [exact Hreq1|]. right.
    eexists _, res1. split; [reflexivity|]. split; [exact Hwrites|].
    split; [intros H; discriminate H|].
    split; [reflexivity|].
    split.
    { destruct g as [? ? ? [? ? ? ? ? ? ? ? []]]. reflexivity. }
    left. split; [apply Hfailed; reflexivity|]. split; [reflexivity|].
    split; [reflexivity|].
    cbn [setOrganizationStatusTimestamp setOrganizationStatus OrganizationStatus].
    rewrite (statusFromOperations_of _ g).
    destruct g as [lb an sp [t pu pr o op os oe ot [u tm rp]]].
    unfold PendingOperationsFound, FailedOperationsFound. cbn -[String.eqb].
    rewrite !existsb_filter_out. cbn [orb].
    rewrite !existsb_filter_other; [reflexivity|..];
      intros x Hx; apply String.eqb_eq in Hx; rewrite Hx; reflexivity.
  - (* the failed-TTL rule handed on *)
    destruct H1 as [[_ Hw1]|(res & stamp & H & _)]; [|discriminate H].
    pose proof (ttlCleanup_outcome g GITHUB_ORG_LABEL_COMPLETED_TTL false false
                  CleanCompletedOperations w1) as H2.
    cbv zeta in H2. rewrite <- Hr in H2. destruct H2 as [Hreq2 H2].
    split; [congruence|].
    destruct H2 as [[Hres Hw2]|(res & stamp & Hres & Hwrites & _ & _ & Hwhy)].
    + left. split; [exact Hres|congruence].
    + right. eexists _, res. split; [exact Hres|].
      split; [rewrite Hwrites, Hw1; reflexivity|].
      split; [intros H; discriminate H|].
      split; [reflexivity|].
      split.
      { destruct g as [? ? ? [? ? ? ? ? ? ? ? []]]. reflexivity. }
      right. split; [reflexivity|].
      split; [destruct Hwhy as [H|[H _]]; [exact H|discriminate H]|].
      split; [reflexivity|].
      destruct g as [lb an sp [t pu pr o op os oe ot [u tm rp]]].
      unfold PendingOperationsFound, FailedOperationsFound. cbn -[String.eqb].
      split; rewrite !existsb_filter_other; try reflexivity;
        intros x Hx; apply String.eqb_eq in Hx; rewrite Hx; reflexivity.
Qed.

End OrganizationTTL.

Section TeamTTL.
Import GithubTeam GithubTeamReconciler.
Context (env : Env).

Lemma filter_length_same {A} (keep : A -> bool) (l : list A) :
  (List.length (List.filter keep l) =? List.length l)%nat = forallb keep l.
Proof.
  induction l as [|x l IH]; cbn; [reflexivity|].
  destruct (keep x); cbn; [exact IH|].
  pose proof (filter_length_le keep l) as Hle.
  apply Nat.eqb_neq. lia.
Qed.

(** One clean-up either hands on, having written nothing, or writes
    the cleaned status and ends the reconcile. *)
Lemma teamCleanup_outcome (g : GithubTeam.t) (key state : string)
    (failedRule : bool) (w : World) :
  let r := teamCleanup env g key state failedRule w in
  let kept := List.filter
                (fun op => negb (String.eqb (GithubUserOperation.State op) state))
                (Operations (Status g)) in
  requests (snd r) = requests w /\
  ((fst r = inr tt /\ writes (snd r) = writes w) \/
   exists res stamp,
     fst r = inl res /\
     writes (snd r)
     = writes w ++
       [TeamStatusUpdate
          (let cleaned := withOperations (Status g) kept in
           let cleaned := if failedRule then withError cleaned "" else cleaned in
           withTeamStatus cleaned (statusFromOperations cleaned) stamp)] /\
     Labels g <> None /\
     (failedRule = true -> TeamStatus (Status g) = GithubTeamStateFailed) /\
     ((exists op, op ∈ Operations (Status g) /\
                  GithubUserOperation.State op = state) \/
      (failedRule = true /\ TeamStatusError (Status g) <> ""))).
Proof.
  intros r kept.
  assert (Hr : r = teamCleanup env g key state failedRule w) by reflexivity.
  clearbody r. unfold teamCleanup in Hr. cbv zeta in Hr. fold kept in Hr.
  destruct (negb (String.eqb (label g key) "")) eqn:Hlabel; cbn [andb] in Hr;
    [|subst r; split; [reflexivity|left; split; reflexivity]].
  assert (Hlabels : Labels g <> None).
  { unfold label in Hlabel. destruct (Labels g); [intros H; discriminate H|].
    discriminate Hlabel. }
  destruct (negb failedRule
            || String.eqb (TeamStatus (Status g)) GithubTeamStateFailed)
    eqn:Hfailed; cbn [andb] in Hr;
    [|subst r; split; [reflexivity|left; split; reflexivity]].
  destruct (negb (Time_IsZero _)); cbn [andb] in Hr;
    [|subst r; split; [reflexivity|left; split; reflexivity]].
  unfold andThen, Now, onClock, metav1_Now, write, leave, pure, ret in Hr.
  cbn [readings requests writes fst snd] in Hr.
  destruct (ttlExpired _ _ _ _) as [[]|];
    [|subst r; split; [reflexivity|left; split; reflexivity]..].
  destruct (negb (List.length kept =? List.length (Operations (Status g)))%nat
            || failedRule && negb (String.eqb (TeamStatusError (Status g)) ""))
    eqn:Hchanged;
    [|subst r; split; [reflexivity|left; split; reflexivity]].
  cbn [readings requests writes] in Hr.
  assert (Hwhy : (exists op, op ∈ Operations (Status g) /\
                             GithubUserOperation.State op = state) \/
                 (failedRule = true /\ TeamStatusError (Status g) <> "")).
  { apply orb_true_iff in Hchanged as [Hlen|Herr].
    - left. subst kept. rewrite filter_length_same in Hlen.
      apply negb_true_iff in Hlen.
      assert (Hsome : existsb (fun op => String.eqb (GithubUserOperation.State op) state)
                        (Operations (Status g)) = true).
      { rewrite <- negb_forallb_negb, Hlen. reflexivity. }
      apply existsb_exists in Hsome as (op & Hin & Hst). exists op.
      split; [apply list_elem_of_In, Hin|apply String.eqb_eq, Hst].
    - right. apply andb_true_iff in Herr as [-> Hne]. split; [reflexivity|].
      apply String.eqb_neq, negb_true_iff, Hne. }
  assert (Hwhen : failedRule = true ->
                  TeamStatus (Status g) = GithubTeamStateFailed).
  { intros ->. cbn [negb orb] in Hfailed. apply String.eqb_eq, Hfailed. }
  destruct (store_update env _ _) eqn:Hupdate; subst r; cbn [fst snd requests writes];
    (split; [reflexivity|]); right; eexists _, _;
    (split; [reflexivity|]); (split; [reflexivity|]); auto.
Qed.

(** A step of the maintenance: nothing is sent; either nothing is
    written and the reconcile goes on, or one status is written, of
    which [Q] holds, and the reconcile ends. *)
Local Abbreviation cleans := (fun (Q : GithubTeamStatus -> Prop) (m : R unit) =>
  forall w : World,
    requests (snd (m w)) = requests w /\
    ((fst (m w) = inr tt /\ writes (snd (m w)) = writes w) \/
     exists s' res,
       fst (m w) = inl res /\
       writes (snd (m w)) = writes w ++ [TeamStatusUpdate s'] /\ Q s')).

Lemma cleans_then (Q : GithubTeamStatus -> Prop) (m k : R unit) :
  cleans Q m -> cleans Q k -> cleans Q (andThen m (fun _ => k)).
Proof.
  intros Hm Hk w. unfold andThen. specialize (Hm w).
  destruct (m w) as [[res|[]] w1]; cbn [fst snd] in *.
  - exact Hm.
  - destruct Hm as [Hreq [[_ Hw]|(s' & res & H & _)]]; [|discriminate H].
    specialize (Hk w1). rewrite Hreq, Hw in Hk. exact Hk.
Qed.

Lemma teamCleanup_cleans (g : GithubTeam.t) (key state : string)
    (failedRule : bool) :
  cleans (fun s' =>
            Labels g <> None /\
            Operations s'
            = List.filter
                (fun op => negb (String.eqb (GithubUserOperation.State op) state))
                (Operations (Status g)) /\
            TeamStatus s' = statusFromOperations s' /\
            Members s' = Members (Status g) /\
            TeamStatusError s'
            = (if failedRule then "" else TeamStatusError (Status g)) /\
            (failedRule = true -> TeamStatus (Status g) = GithubTeamStateFailed) /\
            ((exists op, op ∈ Operations (Status g) /\
                         GithubUserOperation.State op = state) \/
             (failedRule = true /\ TeamStatusError (Status g) <> "")))
    (teamCleanup env g key state failedRule).
Proof.
  intros w. destruct (teamCleanup_outcome g key state failedRule w)
    as [Hreq [Hnone|(res & stamp & Hres & Hwrites & Hl & Hwhen & Hwhy)]].
  - split; [exact Hreq|left; exact Hnone].
  - split; [exact Hreq|]. right. eexists _, res.
    split; [exact Hres|]. split; [exact Hwrites|].
    split; [exact Hl|]. cbv zeta.
    destruct failedRule; repeat (split; [reflexivity|]); auto.
Qed.

(** Property X21.  The TTL maintenance of a team sends nothing to the
    forge.  Either it writes nothing and the reconcile goes on, or it
    writes one status and the reconcile ends there.  The status
    written lacks the operations of one state - failed, complete,
    notfound or skipped, by the first rule that applies - and has all
    the others, in their order; its state is recomputed from them and
    its members are as read.  By the failed rule, which applies to a
    team in state "failed", the stored error is cleared and the new
    state is "pending" or "complete"; by the other rules the error is
    kept, and an operation in the state dropped was there. *)
Theorem teamMaintenance_cleans (g : GithubTeam.t) (w : World) :
  let r := teamMaintenance env g w in
  requests (snd r) = requests w /\
  ((fst r = inr tt /\ writes (snd r) = writes w) \/
   exists s' res state,
     fst r = inl res /\
     writes (snd r) = writes w ++ [TeamStatusUpdate s'] /\
     Labels g <> None /\
     state ∈ [GithubUserOperationStateFailed; GithubUserOperationStateComplete;
              GithubUserOperationStateNotFound; GithubUserOperationStateSkipped] /\
     Operations s'
     = List.filter
         (fun op => negb (String.eqb (GithubUserOperation.State op) state))
         (Operations (Status g)) /\
     TeamStatus s' = statusFromOperations s' /\
     Members s' = Members (Status g) /\
     (state = GithubUserOperationStateFailed ->
      TeamStatus (Status g) = GithubTeamStateFailed /\
      TeamStatusError s' = "" /\
      TeamStatus s' = (if PendingOperationsFound g
                       then GithubTeamStatePendingOperations
                       else GithubTeamStateComplete)) /\
     (state <> GithubUserOperationStateFailed ->
      TeamStatusError s' = TeamStatusError (Status g) /\
      exists op, op ∈ Operations (Status g) /\
                 GithubUserOperation.State op = state)).
Proof.
  intros r. subst r. unfold teamMaintenance.
  destruct (Labels g) as [labels|] eqn:Hlabels;
    [|split; [reflexivity|left; split; reflexivity]].
  set (Q := (fun s' =>
            exists state,
              Labels g <> None /\
              state ∈ [GithubUserOperationStateFailed;
                       GithubUserOperationStateComplete;
                       GithubUserOperationStateNotFound;
                       GithubUserOperationStateSkipped] /\
              Operations s'
              = List.filter
                  (fun op => negb (String.eqb (GithubUserOperation.State op) state))
                  (Operations (Status g)) /\
              TeamStatus s' = statusFromOperations s' /\
              Members s' = Members (Status g) /\
              (state = GithubUserOperationStateFailed ->
               TeamStatus (Status g) = GithubTeamStateFailed /\
               TeamStatusError s' = "" /\
               TeamStatus s' = (if PendingOperationsFound g
                                then GithubTeamStatePendingOperations
                                else GithubTeamStateComplete)) /\
              (state <> GithubUserOperationStateFailed ->
               TeamStatusError s' = TeamStatusError (Status g) /\
               exists op, op ∈ Operations (Status g) /\
                          GithubUserOperation.State op = state))).
  assert (Hall : cleans Q
            (teamCleanup env g GITHUB_TEAM_LABEL_FAILED_TTL
               GithubUserOperationStateFailed true ;;;
             teamCleanup env g GITHUB_TEAM_LABEL_COMPLETED_TTL
               GithubUserOperationStateComplete false ;;;
             teamCleanup env g GITHUB_TEAM_LABEL_NOTFOUND_TTL
               GithubUserOperationStateNotFound false ;;;
             teamCleanup env g GITHUB_TEAM_LABEL_SKIPPED_TTL
               GithubUserOperationStateSkipped false)).
  { assert (Hrule : forall key state failedRule,
              state ∈ [GithubUserOperationStateFailed;
                       GithubUserOperationStateComplete;
                       GithubUserOperationStateNotFound;
                       GithubUserOperationStateSkipped] ->
              (failedRule = true <-> state = GithubUserOperationStateFailed) ->
              cleans Q
                (teamCleanup env g key state failedRule)).
    { intros key state failedRule Hin Hrule w0.
      destruct (teamCleanup_cleans g key state failedRule w0)
        as [Hreq [Hnone|(s' & res & Hres & Hwrites & Hl & Hops & Hst & Hm
                          & Herr & Hwhen & Hwhy)]].
      - split; [exact Hreq|left; exact Hnone].
      - split; [exact Hreq|]. right. exists s', res.
        split; [exact Hres|]. split; [exact Hwrites|].
        exists state. split; [exact Hl|]. split; [exact Hin|].
        split; [exact Hops|]. split; [exact Hst|]. split; [exact Hm|].
        split.
        + intros Hf. pose proof (proj2 Hrule Hf) as Hfr. subst failedRule.
          split; [apply Hwhen; reflexivity|]. split; [exact Herr|].
          rewrite Hst. unfold statusFromOperations, PendingOperationsFound,
            FailedOperationsFound. cbn [Status Operations]. rewrite Hops.
          subst state. rewrite existsb_filter_out.
          rewrite existsb_filter_other; [reflexivity|].
          intros x Hx. apply String.eqb_eq in Hx. rewrite Hx. reflexivity.
        + intros Hnf. assert (failedRule = false) as ->.
          { destruct failedRule; [|reflexivity].
            contradiction Hnf. apply Hrule. reflexivity. }
          split; [exact Herr|]. destruct Hwhy as [H|[H _]]; [exact H|discriminate H]. }
    repeat apply cleans_then; apply Hrule;
      try (apply list_elem_of_In; simpl; tauto);
      split; intros H; first [reflexivity|discriminate H]. }
  destruct (Hall w) as [Hreq [Hnone|(s' & res & Hres & Hwrites & state & Hq)]].
  - split; [exact Hreq|left; exact Hnone].
  - split; [exact Hreq|]. right. exists s', res, state.
    split; [exact Hres|]. split; [exact Hwrites|].
    destruct Hq as (_ & Hq). split; [intros H; discriminate H|exact Hq].
Qed.

End TeamTTL.

(* ================================================================== *)
(** * The requeue interval of a GithubTeam *)

Section TeamRequeue.
Import GithubTeam.
Context (env : Env).

(** Reading the labels in turn is folding over the durations they
    give. *)
Lemma minTTL_over_durations (g : GithubTeam.t) (keys : list string) (m : Duration) :
  foldl (fun min key =>
           let s := label g key in
           if negb (String.eqb s "") then
             match time_ParseDuration env s with
             | Some d => if (min =? 0) || (d <? min) then d else min
             | None => min
             end
           else min) m keys
  = foldl (fun min d => if (min =? 0) || (d <? min) then d else min) m
      (omap (fun key =>
               if negb (String.eqb (label g key) "")
               then time_ParseDuration env (label g key)
               else None) keys).
Proof.
  revert m. induction keys as [|key keys IH]; intros m; [reflexivity|].
  cbn [foldl omap list_omap]. cbv zeta.
  destruct (negb (String.eqb (label g key) "")); [|apply IH].
  destruct (time_ParseDuration env (label g key)) as [d|]; [|apply IH].
  cbn [foldl]. apply IH.
Qed.

(** The running minimum stays among what was read. *)
Lemma minTTL_among (ds : list Duration) (m : Duration) :
  let r := foldl (fun min d => if (min =? 0) || (d <? min) then d else min) m ds in
  r = m \/ r ∈ ds.
Proof.
  revert m. induction ds as [|d ds IH]; intros m; [left; reflexivity|].
  cbn [foldl]. cbv zeta.
  destruct (IH (if (m =? 0) || (d <? m) then d else m)) as [H|H].
  - destruct ((m =? 0) || (d <? m)).
    + right. rewrite H. apply list_elem_of_here.
    + left. exact H.
  - right. apply list_elem_of_further. exact H.
Qed.

(** Over durations other than zero, a running minimum other than
    zero is the least of itself and what is read. *)
Lemma minTTL_least (ds : list Duration) (m : Duration) :
  m <> 0 -> Forall (fun d => d <> 0) ds ->
  let r := foldl (fun min d => if (min =? 0) || (d <? min) then d else min) m ds in
  r <> 0 /\ r <= m /\ Forall (fun d => r <= d) ds.
Proof.
  revert m. induction ds as [|d ds IH]; intros m Hm Hds; cbn [foldl]; cbv zeta.
  - split; [exact Hm|]. split; [lia|constructor].
  - inversion Hds as [|? ? Hd Hrest]; subst.
    destruct (Z.eqb_spec m 0) as [|_]; [contradiction|]. cbn [orb].
    destruct (Z.ltb_spec d m) as [Hlt|Hge].
    + destruct (IH d Hd Hrest) as (Hr & Hle & Hall).
      split; [exact Hr|]. split; [lia|]. constructor; [exact Hle|exact Hall].
    + destruct (IH m Hm Hrest) as (Hr & Hle & Hall).
      split; [exact Hr|]. split; [exact Hle|]. constructor; [lia|exact Hall].
Qed.

(** Property X22.  The interval after which a team is looked at again
    is zero when its TTL labels give no duration: no labels, empty
    labels, or values that do not parse.  Otherwise it is zero or one
    of the durations given; and when none of them is zero, it is the
    least of them. *)
Theorem computeMinTTL_least (g : GithubTeam.t) :
  (teamTTLs env g = [] -> computeMinTTL env g = 0) /\
  (computeMinTTL env g = 0 \/ computeMinTTL env g ∈ teamTTLs env g) /\
  (teamTTLs env g <> [] ->
   Forall (fun d => d <> 0) (teamTTLs env g) ->
   computeMinTTL env g ∈ teamTTLs env g /\
   Forall (fun d => computeMinTTL env g <= d) (teamTTLs env g)).
Proof.
  assert (Hfold : computeMinTTL env g
                  = foldl (fun min d => if (min =? 0) || (d <? min) then d else min)
                      0 (teamTTLs env g)).
  { unfold computeMinTTL, teamTTLs.
    destruct (Labels g) as [labels|] eqn:Hlabels.
    - apply minTTL_over_durations.
    - unfold label. rewrite Hlabels. reflexivity. }
  rewrite Hfold. clear Hfold. generalize (teamTTLs env g) as ds. intros ds.
  split; [intros ->; reflexivity|].
  split; [apply minTTL_among|].
  intros Hne Hall. destruct ds as [|d ds]; [contradiction|].
  inversion Hall as [|? ? Hd Hrest]; subst. cbn [foldl].
  change ((0 =? 0) || (d <? 0)) with (true || (d <? 0)). cbn [orb].
  destruct (minTTL_least ds d Hd Hrest) as (_ & Hle & Hds).
  split.
  - destruct (minTTL_among ds d) as [H|H].
    + rewrite H. apply list_elem_of_here.
    + apply list_elem_of_further. exact H.
  - constructor; [exact Hle|exact Hds].
Qed.

End TeamRequeue.

(* ================================================================== *)
(** * The team's calculator, run again *)

Section TeamCalculatorSettles.
Import GithubTeam.
Context (clock : Clock).

Local Abbreviation tracks := (fun (kind : string) (states : list string)
    (u : string) (op : GithubUserOperation.t) =>
  strings.EqualFold (GithubUserOperation.User op) u &&
  String.eqb (GithubUserOperation.Operation op) kind &&
  existsb (String.eqb (GithubUserOperation.State op)) states).

Local Abbreviation newOperation := (fun (kind user : string) (t : Time) =>
  GithubUserOperation.mk kind user GithubUserOperationStatePending "" t).

Lemma tracks_newOperation (kind : string) (states : list string) (u : string)
    (t : Time) :
  existsb (String.eqb GithubUserOperationStatePending) states = true ->
  tracks kind states u (newOperation kind u t) = true.
Proof.
  intros H. cbn [GithubUserOperation.User GithubUserOperation.Operation
                 GithubUserOperation.State].
  rewrite EqualFold_refl, String.eqb_refl, H. reflexivity.
Qed.

Lemma diffStep_body (kind : string) (states : list string) (skip : string -> bool)
    (acc : list GithubUserOperation.t * bool) (x : Member) (n : nat) :
  diffStep clock kind states skip acc x n
  = if skip (GithubUsername x)
       || existsb (tracks kind states (GithubUsername x)) (fst acc)
    then (acc, n)
    else ((fst acc ++ [newOperation kind (GithubUsername x) (clock n)], true), S n).
Proof.
  unfold diffStep, operationExists.
  destruct (skip (GithubUsername x)); [reflexivity|]. cbn [orb].
  destruct (existsb _ (fst acc)); reflexivity.
Qed.

(** A mark is kept when no operation for the login is appended. *)
Lemma markedNotFound_app (ops new : list GithubUserOperation.t) (u : string) :
  markedNotFound ops u ->
  Forall (fun op => ~ sameUser (GithubUserOperation.User op) u) new ->
  markedNotFound (ops ++ new) u.
Proof.
  intros (before & op & after & -> & Hu & Hs & Hafter) Hnew.
  exists before, op, (after ++ new). rewrite <- app_assoc.
  split; [reflexivity|]. split; [exact Hu|]. split; [exact Hs|].
  intros op' Hin. apply elem_of_app in Hin as [Hin|Hin]; [auto|].
  rewrite Forall_forall in Hnew. apply Hnew. exact Hin.
Qed.

(** Nothing is appended, and the clock is not read, when every member
    on either side is passed over. *)
Lemma ChangeCalculator_unchanged (github : GithubTeam.t)
    (desiredMembers : list Member) (n : nat) :
  (forall d, d ∈ desiredMembers ->
     skipAddition (membersMap (Members (Status github)))
       (buildUserOperationStateMap (Operations (Status github)))
       (GithubUsername d) = false ->
     operationExists GithubUserOperationTypeAdd addStates
       (Operations (Status github)) (GithubUsername d) = true) ->
  (forall m, m ∈ Members (Status github) ->
     skipRemoval (membersMap desiredMembers) (GithubUsername m) = false ->
     operationExists GithubUserOperationTypeRemove removeStates
       (Operations (Status github)) (GithubUsername m) = true) ->
  ChangeCalculator clock github desiredMembers n = ((false, Status github), n).
Proof.
  intros Hadd Hremove. unfold ChangeCalculator. unfold bind at 1.
  rewrite (forEach_ext _ _ desiredMembers
             (additionStep_diffStep clock (membersMap (Members (Status github)))
                (buildUserOperationStateMap (Operations (Status github))))).
  rewrite (diffLoops_settled clock GithubUsername
             (fun x => skipAddition (membersMap (Members (Status github)))
                         (buildUserOperationStateMap (Operations (Status github)))
                         (GithubUsername x))
             (tracks GithubUserOperationTypeAdd addStates)
             (newOperation GithubUserOperationTypeAdd) _
             (diffStep_body _ _ _) desiredMembers _ _ _ Hadd).
  unfold bind at 1.
  rewrite (forEach_ext _ _ (Members (Status github))
             (removalStep_diffStep clock (membersMap desiredMembers))).
  rewrite (diffLoops_settled clock GithubUsername
             (fun x => skipRemoval (membersMap desiredMembers) (GithubUsername x))
             (tracks GithubUserOperationTypeRemove removeStates)
             (newOperation GithubUserOperationTypeRemove) _
             (diffStep_body _ _ _) (Members (Status github)) _ _ _ Hremove).
  cbn [fst snd]. unfold ret. destruct (Status github). reflexivity.
Qed.

(** Property X23.  ChangeCalculator leaves nothing undone and does
    nothing twice: in the queue it returns, every desired member who
    is not among the members in the status is marked not found or has
    an addition that is pending, complete, skipped or notfound, every
    member in the status who is not desired has a removal that is
    pending, complete or skipped, and the calculator run again on the
    status it returned, with the same desired members, appends
    nothing, reports no change and does not read the clock. *)
Theorem ChangeCalculator_settles
    (github : GithubTeam.t) (desiredMembers : list Member) (n : nat) :
  let members := Members (Status github) in
  let newStatus := snd (fst (ChangeCalculator clock github desiredMembers n)) in
  let queue := Operations newStatus in
  (forall d, d ∈ desiredMembers ->
     ~ amongMembers members (GithubUsername d) ->
     markedNotFound queue (GithubUsername d) \/
     operationExists GithubUserOperationTypeAdd addStates queue
       (GithubUsername d) = true) /\
  (forall m, m ∈ members ->
     ~ amongMembers desiredMembers (GithubUsername m) ->
     operationExists GithubUserOperationTypeRemove removeStates queue
       (GithubUsername m) = true) /\
  forall n', ChangeCalculator clock (withStatus github newStatus)
               desiredMembers n'
             = ((false, newStatus), n').
Proof.
  intros members newStatus queue.
  set (operations := Operations (Status github)).
  set (cm := membersMap members).
  set (dm := membersMap desiredMembers).
  set (skipA := skipAddition cm (buildUserOperationStateMap operations)).
  (* the first run *)
  destruct (diffLoops_run clock GithubUsername
              (fun x => skipA (GithubUsername x))
              (tracks GithubUserOperationTypeAdd addStates)
              (newOperation GithubUserOperationTypeAdd)
              (diffStep clock GithubUserOperationTypeAdd addStates skipA)
              (fun u t => tracks_newOperation _ addStates u t eq_refl)
              (diffStep_body _ _ _) desiredMembers operations false n)
    as (newA & HrunA & HsoundA & HcompleteA).
  destruct (diffLoops_run clock GithubUsername
              (fun x => skipRemoval dm (GithubUsername x))
              (tracks GithubUserOperationTypeRemove removeStates)
              (newOperation GithubUserOperationTypeRemove)
              (diffStep clock GithubUserOperationTypeRemove removeStates
                 (skipRemoval dm))
              (fun u t => tracks_newOperation _ removeStates u t eq_refl)
              (diffStep_body _ _ _) members (operations ++ newA)
              (false || negb (List.length newA =? 0)%nat)
              (n + List.length newA)%nat)
    as (newR & HrunR & HsoundR & HcompleteR).
  assert (Hshape : Operations newStatus = operations ++ newA ++ newR /\
                   Members newStatus = members).
  { assert (Hcc : exists flag t n2,
              ChangeCalculator clock github desiredMembers n
              = if flag : bool
                then ((true,
                       withTeamStatus
                         (withOperations (Status github)
                            (operations ++ newA ++ newR))
                         GithubTeamStatePendingOperations t), n2)
                else ((false,
                       withOperations (Status github)
                         (operations ++ newA ++ newR)), n2)).
    { unfold ChangeCalculator. unfold bind at 1.
      rewrite (forEach_ext _ _ desiredMembers
                 (additionStep_diffStep clock (membersMap (Members (Status github)))
                    (buildUserOperationStateMap (Operations (Status github))))).
      fold operations members cm skipA. rewrite HrunA. unfold bind at 1.
      rewrite (forEach_ext _ _ members (removalStep_diffStep clock _)).
      fold dm. rewrite HrunR. cbn [fst snd]. rewrite <- app_assoc.
      match goal with |- context [if ?b then _ else _] => destruct b end.
      - exists true. eexists _, _. reflexivity.
      - exists false, (clock 0%nat). eexists. reflexivity. }
    destruct Hcc as (flag & t & n2 & Hcc). subst newStatus. rewrite Hcc.
    destruct flag; split; reflexivity. }
  destruct Hshape as [Hqueue Hmembers]. fold queue in Hqueue.
  (* what the queue holds *)
  assert (Hadd : forall d, d ∈ desiredMembers -> skipA (GithubUsername d) = false ->
            operationExists GithubUserOperationTypeAdd addStates queue
              (GithubUsername d) = true).
  { intros d Hd Hskip. rewrite Hqueue, app_assoc, operationExists_app.
    unfold operationExists at 1. rewrite (HcompleteA d Hd Hskip). reflexivity. }
  assert (Hremove : forall m, m ∈ members ->
            skipRemoval dm (GithubUsername m) = false ->
            operationExists GithubUserOperationTypeRemove removeStates queue
              (GithubUsername m) = true).
  { intros m Hm Hskip. rewrite Hqueue, app_assoc.
    exact (HcompleteR m Hm Hskip). }
  (* a mark of the first run is a mark of the second *)
  assert (Hmark : forall d, d ∈ desiredMembers ->
            markedNotFound operations (GithubUsername d) ->
            markedNotFound queue (GithubUsername d)).
  { intros d Hd Hmarked. rewrite Hqueue. apply markedNotFound_app; [exact Hmarked|].
    apply Forall_app. split.
    - eapply Forall_impl; [exact HsoundA|].
      intros op (y & t & _ & Hskip & _ & ->) Hsame.
      cbn [GithubUserOperation.User] in Hsame.
      unfold skipA in Hskip.
      rewrite (skipAddition_same cm _ _ _ Hsame) in Hskip.
      unfold skipAddition in Hskip. apply orb_false_iff in Hskip as [Hskip _].
      apply stateMap_marked in Hmarked. congruence.
    - eapply Forall_impl; [exact HsoundR|].
      intros op (y & t & _ & Hskip & _ & ->) Hsame.
      cbn [GithubUserOperation.User] in Hsame.
      unfold skipRemoval in Hskip. rewrite Hsame in Hskip.
      assert (isSome (dm !! strings.ToLower (GithubUsername d)) = true).
      { apply membersMap_lookup. exists d. split; [exact Hd|reflexivity]. }
      congruence. }
  split.
  { intros d Hd Hno. apply not_among in Hno. fold cm in Hno.
    destruct (String.eqb
                (default "" (buildUserOperationStateMap operations
                               !! strings.ToLower (GithubUsername d)))
                GithubUserOperationStateNotFound) eqn:Hm.
    - left. apply Hmark; [exact Hd|]. apply stateMap_marked. exact Hm.
    - right. apply Hadd; [exact Hd|]. unfold skipA, skipAddition.
      rewrite Hm, Hno. reflexivity. }
  split.
  { intros m Hm Hno. apply not_among in Hno. apply Hremove; [exact Hm|exact Hno]. }
  intros n'.
  rewrite (ChangeCalculator_unchanged (withStatus github newStatus)
             desiredMembers n'); [reflexivity| |].
  - cbn [Status withStatus]. fold queue. rewrite Hmembers. fold cm.
    intros d Hd Hskip. apply Hadd; [exact Hd|].
    unfold skipAddition in Hskip. apply orb_false_iff in Hskip as [Hnf Hcm].
    unfold skipA, skipAddition. rewrite Hcm, orb_false_r.
    destruct (String.eqb
                (default "" (buildUserOperationStateMap operations
                               !! strings.ToLower (GithubUsername d)))
                GithubUserOperationStateNotFound) eqn:Hm; [|reflexivity].
    apply stateMap_marked in Hm. apply (Hmark d Hd) in Hm.
    apply stateMap_marked in Hm. congruence.
  - cbn [Status withStatus]. fold queue. rewrite Hmembers.
    intros m Hm Hskip. apply Hremove; [exact Hm|exact Hskip].
Qed.

End TeamCalculatorSettles.

(* ================================================================== *)
(** * The owners that the owner teams give *)

Section OwnersOfTeams.
Context (get : string -> GetReply GithubTeam.t).

Local Abbreviation record := (fun (m : gmap string Member) (x : Member) =>
  <[GreenhouseID x := x]> m).

(** What a map holds after members are recorded in it by their IDs:
    for each ID the last member recorded, or what it held before. *)
Lemma recorded_last (l : list Member) (m0 : gmap string Member) (k : string)
    (v : Member) :
  foldl record m0 l !! k = Some v
  <-> (exists before after,
         l = before ++ v :: after /\ GreenhouseID v = k /\
         forall x, x ∈ after -> GreenhouseID x <> k)
      \/ (m0 !! k = Some v /\ forall x, x ∈ l -> GreenhouseID x <> k).
Proof.
  revert m0. induction l as [|y l IH]; intros m0; cbn [foldl].
  - split.
    + intros H. right. split; [exact H|]. intros x Hx.
      apply elem_of_nil in Hx. contradiction.
    + intros [(before & after & H & _)|[H _]]; [|exact H].
      destruct before; discriminate H.
  - rewrite IH. split.
    + intros [(before & after & -> & Hk & Hafter)|[Hm Hl]].
      * left. exists (y :: before), after. auto.
      * destruct (decide (GreenhouseID y = k)) as [Hy|Hy].
        -- rewrite <- Hy, lookup_insert_eq in Hm. injection Hm as ->.
           left. exists [], l. auto.
        -- rewrite lookup_insert_ne in Hm by exact Hy.
           right. split; [exact Hm|]. intros x Hx.
           apply elem_of_cons in Hx as [->|Hx]; auto.
    + intros [(before & after & Heq & Hk & Hafter)|[Hm Hl]].
      * destruct before as [|b before]; cbn [app] in Heq;
          injection Heq as <- ->.
        -- right. split; [|exact Hafter]. rewrite <- Hk. apply lookup_insert_eq.
        -- left. exists before, after. auto.
      * right. split.
        -- rewrite lookup_insert_ne; [exact Hm|].
           apply Hl, list_elem_of_here.
        -- intros x Hx. apply Hl, list_elem_of_further, Hx.
Qed.

Lemma ready_state (s : string) :
  String.eqb s GithubTeamStateComplete || String.eqb s GithubTeamStateDryRun = true ->
  String.eqb s GithubTeamStatePendingOperations = false /\
  String.eqb s GithubTeamStateFailed = false.
Proof.
  intros H. apply orb_true_iff in H as [H|H]; apply String.eqb_eq in H;
    subst s; split; reflexivity.
Qed.

(** Over teams that are all ready, the loop records their members one
    team after the other. *)
Lemma ownersOfTeams_ready (g : GithubOrganization.t) (teams : list string) :
  forall (all : list (list Member)) (m0 : gmap string Member),
  mapM (readyMembers get g) teams = Some all ->
  ownersOfTeams get g teams m0
  = Owners (snd <$> map_to_list (foldl record m0 (List.concat all))).
Proof.
  induction teams as [|team teams IH]; intros all m0 Hall.
  - injection Hall as <-. reflexivity.
  - cbn [mapM] in Hall. unfold mbind, option_bind in Hall.
    destruct (readyMembers get g team) as [ms|] eqn:Hteam; [|discriminate Hall].
    destruct (mapM (readyMembers get g) teams) as [rest|] eqn:Hrest;
      [|discriminate Hall].
    injection Hall as <-. cbn [List.concat]. rewrite foldl_app.
    unfold readyMembers in Hteam. cbn [ownersOfTeams].
    destruct (get (teamFullName g team)) as [githubTeam| |]; try discriminate Hteam.
    cbv zeta in Hteam |- *.
    destruct (String.eqb (GithubTeam.TeamStatus (GithubTeam.Status githubTeam))
                GithubTeamStateComplete
              || String.eqb (GithubTeam.TeamStatus (GithubTeam.Status githubTeam))
                   GithubTeamStateDryRun) eqn:Hready; [|discriminate Hteam].
    destruct (ready_state _ Hready) as [-> ->]. injection Hteam as <-.
    apply IH. reflexivity.
Qed.

(** The first team that is not ready decides. *)
Lemma ownersOfTeams_not_ready (g : GithubOrganization.t)
    (before : list string) (team : string) (after : list string) :
  forall m0 : gmap string Member,
  (forall t, t ∈ before -> readyMembers get g t <> None) ->
  readyMembers get g team = None ->
  ownersOfTeams get g (before ++ team :: after) m0
  = match get (teamFullName g team) with
    | GetFailed e => OwnersFailed e
    | Found githubTeam =>
        if String.eqb (GithubTeam.TeamStatus (GithubTeam.Status githubTeam))
             GithubTeamStateFailed
        then OwnersFailed ("team " +:+ team
                           +:+ " state is failed. cannot sync organization owners")
        else RetryLater
    | IsNotFound _ => RetryLater
    end.
Proof.
  induction before as [|b before IH]; intros m0 Hbefore Hteam.
  - cbn [app ownersOfTeams]. unfold readyMembers in Hteam.
    destruct (get (teamFullName g team)) as [githubTeam| |]; try reflexivity.
    cbv zeta in Hteam |- *.
    destruct (String.eqb (GithubTeam.TeamStatus (GithubTeam.Status githubTeam))
                GithubTeamStateComplete
              || String.eqb (GithubTeam.TeamStatus (GithubTeam.Status githubTeam))
                   GithubTeamStateDryRun); [discriminate Hteam|].
    destruct (String.eqb (GithubTeam.TeamStatus (GithubTeam.Status githubTeam))
                GithubTeamStatePendingOperations) eqn:Hp; [|reflexivity].
    apply String.eqb_eq in Hp. rewrite Hp. reflexivity.
  - cbn [app ownersOfTeams].
    pose proof (Hbefore b (list_elem_of_here _ _)) as Hb.
    unfold readyMembers in Hb.
    destruct (get (teamFullName g b)) as [githubTeam| |];
      try (contradiction Hb; reflexivity).
    cbv zeta in Hb |- *.
    destruct (String.eqb (GithubTeam.TeamStatus (GithubTeam.Status githubTeam))
                GithubTeamStateComplete
              || String.eqb (GithubTeam.TeamStatus (GithubTeam.Status githubTeam))
                   GithubTeamStateDryRun) eqn:Hready;
      [|contradiction Hb; reflexivity].
    destruct (ready_state _ Hready) as [-> ->].
    apply IH; [|exact Hteam].
    intros t Ht. apply Hbefore, list_elem_of_further, Ht.
Qed.

(** Property X24.  ownersFromGithubTeams gives the owners only when
    every owner team of the spec is found and is complete or in dry
    run.  Then no two owners have the same Greenhouse ID, and the
    owners are, of the members of the teams taken in the order of the
    spec, those after whom no member has the same ID.  Otherwise the
    first team that is not ready decides: a failed [Get] or a failed
    team is an error, a team that is missing, pending or in another
    state asks for a retry. *)
Theorem ownersFromGithubTeams_spec (g : GithubOrganization.t) :
  let teams := GithubOrganization.OrganizationOwnerTeams (GithubOrganization.Spec g) in
  (forall all, mapM (readyMembers get g) teams = Some all ->
     exists owners,
       ownersFromGithubTeams get g = Owners owners /\
       NoDup (GreenhouseID <$> owners) /\
       forall m, m ∈ owners <->
                 exists before after,
                   List.concat all = before ++ m :: after /\
                   forall x, x ∈ after -> GreenhouseID x <> GreenhouseID m) /\
  (forall before team after,
     teams = before ++ team :: after ->
     (forall t, t ∈ before -> readyMembers get g t <> None) ->
     readyMembers get g team = None ->
     ownersFromGithubTeams get g
     = match get (teamFullName g team) with
       | GetFailed e => OwnersFailed e
       | Found githubTeam =>
           if String.eqb (GithubTeam.TeamStatus (GithubTeam.Status githubTeam))
                GithubTeamStateFailed
           then OwnersFailed ("team " +:+ team
                              +:+ " state is failed. cannot sync organization owners")
           else RetryLater
       | IsNotFound _ => RetryLater
       end).
Proof.
  intros teams. split.
  - intros all Hall. unfold ownersFromGithubTeams. fold teams.
    rewrite (ownersOfTeams_ready g teams all ∅ Hall).
    set (M := foldl record ∅ (List.concat all)).
    assert (Hkey : forall k v, M !! k = Some v -> GreenhouseID v = k).
    { intros k v H. apply recorded_last in H
        as [(_ & _ & _ & Hk & _)|[H _]]; [exact Hk|].
      rewrite lookup_empty in H. discriminate H. }
    eexists. split; [reflexivity|]. split.
    + rewrite <- list_fmap_compose.
      assert (Hfst : (GreenhouseID ∘ snd) <$> map_to_list M
                     = fst <$> map_to_list M).
      { apply list_fmap_ext. intros i [k v] Hi.
        apply list_elem_of_lookup_2 in Hi.
        apply elem_of_map_to_list in Hi. cbn. apply Hkey, Hi. }
      rewrite Hfst. apply NoDup_fst_map_to_list.
    + intros m. rewrite list_elem_of_fmap. split.
      * intros ([k v] & -> & Hin). cbn [snd].
        apply elem_of_map_to_list in Hin.
        pose proof (Hkey k v Hin) as <-.
        apply recorded_last in Hin as [(before & after & Hl & _ & Hafter)|[H _]].
        -- exists before, after. auto.
        -- rewrite lookup_empty in H. discriminate H.
      * intros (before & after & Hl & Hafter).
        exists (GreenhouseID m, m). split; [reflexivity|].
        apply elem_of_map_to_list. apply recorded_last. left.
        exists before, after. auto.
  - intros before team after Hteams Hbefore Hteam.
    unfold ownersFromGithubTeams. fold teams. rewrite Hteams.
    apply ownersOfTeams_not_ready; assumption.
Qed.

End OwnersOfTeams.

(* ================================================================== *)
(** * The Greenhouse IDs of the members of the forge *)

Section AccountLinks.

Local Abbreviation linkStep := (fun (githubInstance : string)
    (m : gmap string string) (link : GithubAccountLink.t) =>
  if String.eqb (GithubAccountLink.Github link) githubInstance
  then <[GithubAccountLink.GithubUserID link
         := GithubAccountLink.GreenhouseUserID link]> m
  else m).

Local Abbreviation linkOf := (fun (githubInstance id : string)
    (link : GithubAccountLink.t) =>
  GithubAccountLink.Github link = githubInstance /\
  GithubAccountLink.GithubUserID link = id).

(** A user ID is mapped as the last link for it says. *)
Lemma revMap_last (githubInstance : string) (items : list GithubAccountLink.t)
    (m0 : gmap string string) (id greenhouseID : string) :
  foldl (linkStep githubInstance) m0 items !! id = Some greenhouseID ->
  (exists before link after,
     items = before ++ link :: after /\
     linkOf githubInstance id link /\
     GithubAccountLink.GreenhouseUserID link = greenhouseID /\
     forall x, x ∈ after -> ~ linkOf githubInstance id x)
  \/ (m0 !! id = Some greenhouseID /\
      forall x, x ∈ items -> ~ linkOf githubInstance id x).
Proof.
  revert m0. induction items as [|y items IH]; intros m0 H; cbn [foldl] in H.
  - right. split; [exact H|]. intros x Hx. apply elem_of_nil in Hx. contradiction.
  - apply IH in H as [(before & link & after & -> & Hlink & Hid & Hafter)|[Hm Hl]].
    + left. exists (y :: before), link, after. auto.
    + destruct (String.eqb (GithubAccountLink.Github y) githubInstance) eqn:Hy.
      * apply String.eqb_eq in Hy.
        destruct (decide (GithubAccountLink.GithubUserID y = id)) as [Hk|Hk].
        -- rewrite <- Hk, lookup_insert_eq in Hm. injection Hm as Hm.
           left. exists [], y, items. auto.
        -- rewrite lookup_insert_ne in Hm by exact Hk.
           right. split; [exact Hm|]. intros x Hx.
           apply elem_of_cons in Hx as [->|Hx]; [|auto].
           intros [_ Hid]. contradiction.
      * apply String.eqb_neq in Hy.
        right. split; [exact Hm|]. intros x Hx.
        apply elem_of_cons in Hx as [->|Hx]; [|auto].
        intros [Hg _]. contradiction.
Qed.

(** A user ID is not mapped when no link is for it. *)
Lemma revMap_none (githubInstance : string) (items : list GithubAccountLink.t)
    (m0 : gmap string string) (id : string) :
  foldl (linkStep githubInstance) m0 items !! id = None ->
  m0 !! id = None /\ forall x, x ∈ items -> ~ linkOf githubInstance id x.
Proof.
  revert m0. induction items as [|y items IH]; intros m0 H; cbn [foldl] in H.
  - split; [exact H|]. intros x Hx. apply elem_of_nil in Hx. contradiction.
  - apply IH in H as [Hm Hl].
    destruct (String.eqb (GithubAccountLink.Github y) githubInstance) eqn:Hy.
    + destruct (decide (GithubAccountLink.GithubUserID y = id)) as [Hk|Hk].
      * rewrite <- Hk, lookup_insert_eq in Hm. discriminate Hm.
      * rewrite lookup_insert_ne in Hm by exact Hk.
        split; [exact Hm|]. intros x Hx.
        apply elem_of_cons in Hx as [->|Hx]; [|auto].
        intros [_ Hid]. contradiction.
    + apply String.eqb_neq in Hy. split; [exact Hm|]. intros x Hx.
      apply elem_of_cons in Hx as [->|Hx]; [|auto].
      intros [Hg _]. contradiction.
Qed.

(** Property X25.  extendGithubMembersWithGreenhouseIDs fails only
    when the account links cannot be listed, with the error of the
    listing.  Otherwise it gives one member for each member of the
    forge, in the same order, with the login as GitHub username; its
    Greenhouse ID is that of the last account link of this Github
    instance whose GitHub user ID is the member's UID in decimal, and
    the login when there is no such link. *)
Theorem extendGithubMembersWithGreenhouseIDs_spec
    (links : list GithubAccountLink.t + string) (members : list GithubMember)
    (githubInstance : string) :
  match links with
  | inr e =>
      extendGithubMembersWithGreenhouseIDs links members githubInstance = inr e
  | inl items =>
      exists out,
        extendGithubMembersWithGreenhouseIDs links members githubInstance = inl out /\
        List.length out = List.length members /\
        forall i githubMember,
          members !! i = Some githubMember ->
          exists member,
            out !! i = Some member /\
            GithubUsername member = Login githubMember /\
            ((exists before link after,
                items = before ++ link :: after /\
                linkOf githubInstance (fmt_d (UID githubMember)) link /\
                (forall x, x ∈ after ->
                           ~ linkOf githubInstance (fmt_d (UID githubMember)) x) /\
                GreenhouseID member = GithubAccountLink.GreenhouseUserID link)
             \/
             ((forall x, x ∈ items ->
                         ~ linkOf githubInstance (fmt_d (UID githubMember)) x) /\
              GreenhouseID member = Login githubMember))
  end.
Proof.
  destruct links as [items|e]; [|reflexivity].
  unfold extendGithubMembersWithGreenhouseIDs. cbv zeta.
  set (revMap := foldl (linkStep githubInstance) ∅ items).
  eexists. split; [reflexivity|]. split; [apply length_fmap|].
  intros i githubMember Hi.
  exists (mkMember (default (Login githubMember)
                      (revMap !! fmt_d (UID githubMember)))
            (Login githubMember)).
  split.
  { rewrite list_lookup_fmap, Hi. reflexivity. }
  cbn [GithubUsername GreenhouseID]. split; [reflexivity|].
  destruct (revMap !! fmt_d (UID githubMember)) as [mapped|] eqn:Hmapped;
    cbn [default].
  - apply revMap_last in Hmapped
      as [(before & link & after & Hitems & Hlink & Hid & Hafter)|[H _]].
    + left. exists before, link, after. split; [exact Hitems|].
      split; [exact Hlink|]. split; [exact Hafter|]. symmetry. exact Hid.
    + rewrite lookup_empty in H. discriminate H.
  - apply revMap_none in Hmapped as [_ Hnone]. right. auto.
Qed.

End AccountLinks.
